(** * Decoding core of the LAS RNN decoder (neural_sp/models/seq2seq/decoders/las.py)

    A shallow embedding of [RNNDecoder.recurrency], [RNNDecoder.greedy],
    [RNNDecoder.beam_search] (with its ensemble branch apart) and
    [RNNDecoder.beam_search_chunk_sync].

    Conventions of the embedding:
    - The value of a Python float or of a tensor entry is a rational [Q]; token
      ids and indices are [nat]. Scores are added and compared as rationals;
      where a product of a length and a ratio is floored or compared with a
      length, and where the end-symbol threshold is compared, the product is
      rounded as the machine rounds it ([float64] for Python floats,
      [float32] for tensors of the default type).
    - A Python exception is a value [Raise e] of the [result] type; every
      statement that can raise in the source is a monadic bind here.
    - The neural collaborators (RNN cells, attention, generator, LM, CTC prefix
      scorer) are records of operations passed to the decoder, which only
      consumes what they return. A batched tensor they return is read by its
      row index; a row of scores over the vocabulary is a list.
    - Of the logging statements only what they read is kept (an index or a
      key that does not exist raises); the logged text and plotting are left
      out. *)

From Stdlib Require Import List ZArith QArith Qround Qpower Bool Arith Lia.
From Stdlib Require Import Permutation Sorted.
From Stdlib Require String.
Import ListNotations.

Close Scope Q_scope.
Set Implicit Arguments.

(** ** Python exceptions and the error monad *)

Inductive pyerror : Set :=
| AssertionError
| IndexError
| KeyError
| RuntimeError
| ValueError
| TypeError
| NameError
| AttributeError.

Inductive result (A : Type) : Type :=
| Ok (a : A)
| Raise (e : pyerror).

Arguments Ok {A} a.
Arguments Raise {A} e.

Definition bind {A B : Type} (m : result A) (k : A -> result B) : result B :=
  match m with
  | Ok a => k a
  | Raise e => Raise e
  end.

Declare Scope py_scope.
Delimit Scope py_scope with py.
Notation "x <- m ;; k" := (bind m (fun x => k))
  (at level 61, m at next level, right associativity) : py_scope.
Notation "' pat <- m ;; k" := (bind m (fun x => match x with pat => k end))
  (at level 61, pat pattern, m at next level, right associativity) : py_scope.
Open Scope py_scope.

(** [assert c] *)
Definition py_assert (c : bool) : result unit :=
  if c then Ok tt else Raise AssertionError.

(** [l[i]] for a non-negative index. *)
Definition index {A : Type} (l : list A) (i : nat) : result A :=
  match nth_error l i with
  | Some a => Ok a
  | None => Raise IndexError
  end.

(** [torch.stack(l)]: an empty list of tensors is refused with
    [RuntimeError]. The stacked tensor is kept as the list of its slices. *)
Definition torch_stack {A : Type} (l : list A) : result (list A) :=
  match l with
  | [] => Raise RuntimeError
  | _ => Ok l
  end.

(** [torch.cat(l)]: an empty list of tensors is refused with [ValueError].
    The concatenated tensor is kept as the list of its parts. *)
Definition torch_cat {A : Type} (l : list A) : result (list A) :=
  match l with
  | [] => Raise ValueError
  | _ => Ok l
  end.

(** [for i in range(n): s = body(i, s)], started at index [i]. *)
Fixpoint for_range_from {St : Type} (body : nat -> St -> result St)
         (i n : nat) (s : St) : result St :=
  match n with
  | O => Ok s
  | S n' => s' <- body i s ;; for_range_from body (S i) n' s'
  end.

Definition for_range {St : Type} (body : nat -> St -> result St) (n : nat) (s : St) :=
  for_range_from body 0 n s.

(** A loop body either falls through to the next iteration or leaves the loop
    by [break]. *)
Inductive flow (St : Type) : Type :=
| Continue (s : St)
| Break (s : St).

Arguments Continue {St} s.
Arguments Break {St} s.

(** [for i in range(n): ...] whose body may [break]; the state reached is
    returned either way. *)
Fixpoint for_break_from {St : Type} (body : nat -> St -> result (flow St))
         (i n : nat) (s : St) : result St :=
  match n with
  | O => Ok s
  | S n' =>
      r <- body i s ;;
      match r with
      | Break s' => Ok s'
      | Continue s' => for_break_from body (S i) n' s'
      end
  end.

Definition for_break {St : Type} (body : nat -> St -> result (flow St))
           (n : nat) (s : St) : result St :=
  for_break_from body 0 n s.

(** ** Python list helpers *)

(** [l[i] = v] on a list; the callers have read [l[i]] before. *)
Fixpoint set_nth {A : Type} (l : list A) (i : nat) (v : A) : list A :=
  match l, i with
  | [], _ => []
  | _ :: t, O => v :: t
  | h :: t, S i' => h :: set_nth t i' v
  end.

(** [[f(x) for x in l]] where [f] may raise. *)
Fixpoint map_result {A B : Type} (f : A -> result B) (l : list A) : result (list B) :=
  match l with
  | [] => Ok []
  | x :: t => y <- f x ;; ys <- map_result f t ;; Ok (y :: ys)
  end.

(** [max(l)] of a list of naturals: [ValueError] on an empty list. *)
Definition py_max_nat (l : list nat) : result nat :=
  match l with
  | [] => Raise ValueError
  | x :: t => Ok (fold_left Nat.max t x)
  end.

(** [sum(flags)] of a list of booleans. *)
Definition count_true (l : list bool) : nat :=
  length (filter (fun b => b) l).

(** [[x for x in l if x is not None]] *)
Fixpoint somes {A : Type} (l : list (option A)) : list A :=
  match l with
  | [] => []
  | Some a :: t => a :: somes t
  | None :: t => somes t
  end.

(** ** Machine floats

    A finite float is the rational it stands for. The result of an arithmetic
    operation is the exact result rounded to the nearest float of [prec]
    significant bits, ties to the even one; the exponent range is not
    bounded (no overflow to infinity, no underflow). *)

(** The nearest integer, ties to the even one. *)
Definition round_half_even (q : Q) : Z :=
  let f := Qfloor q in
  match Qcompare (q - inject_Z f) (1 # 2) with
  | Lt => f
  | Gt => (f + 1)%Z
  | Eq => if Z.even f then f else (f + 1)%Z
  end.

(** The binary exponent [e] of a positive rational: [2^e <= q < 2^(e+1)]. *)
Definition binary_exponent (q : Q) : Z :=
  let e0 := (Z.log2 (Qnum q) - Z.log2 (Zpos (Qden q)))%Z in
  if Qle_bool (Qpower 2 e0) q then e0 else (e0 - 1)%Z.

(** A positive rational rounded to [prec] significant bits. *)
Definition round_positive (prec : Z) (q : Q) : Q :=
  let e := binary_exponent q in
  (inject_Z (round_half_even (q * Qpower 2 (prec - 1 - e))) * Qpower 2 (e + 1 - prec))%Q.

Definition round_float (prec : Z) (q : Q) : Q :=
  match Qcompare q 0 with
  | Eq => 0%Q
  | Gt => round_positive prec q
  | Lt => (- round_positive prec (- q))%Q
  end.

(** IEEE binary64 (a Python float) and binary32 (a [FloatTensor] entry). *)
Definition float64 : Q -> Q := round_float 53.
Definition float32 : Q -> Q := round_float 24.

(** ** [RNNDecoder.recurrency] *)

Module Recurrency.

Inductive rnn_kind : Set := lstm | gru.

Record decoder : Set := {
  rnn_type : rnn_kind;   (* asserted to be 'lstm' or 'gru' by the constructor *)
  n_layers : nat;
  n_projs : nat
}.

(** [self.rnn[l]] for an LSTMCell and for a GRUCell, [self.dropout],
    [self.proj[l]] and [torch.tanh], over an abstract tensor type. *)
Record cell_ops (Tensor : Type) : Type := {
  lstm_cell : nat -> Tensor -> Tensor * Tensor -> Tensor * Tensor;
  gru_cell : nat -> Tensor -> Tensor -> Tensor;
  dropout : Tensor -> Tensor;
  proj : nat -> Tensor -> Tensor;
  tanh : Tensor -> Tensor
}.

(** [dstate = (hxs, cxs)]; [cxs] is [None] for a GRU ([zero_state]). *)
Definition dstate_t (Tensor : Type) : Type :=
  (list Tensor * option (list Tensor))%type.

Record new_dstates (Tensor : Type) : Type := {
  dout_score : option Tensor;            (* 'dout_score': None until layer 0 ran *)
  dout_gen : Tensor;                     (* 'dout_gen' *)
  dstate : (list Tensor * list Tensor)%type  (* (new_hxs, new_cxs) *)
}.

(** The cell call of one layer: [h, c = self.rnn[l](dout, (hxs[l], cxs[l]))]
    or [h = self.rnn[l](dout, hxs[l])]. *)
Definition run_cell {Tensor : Type} (ops : cell_ops Tensor) (dec : decoder)
           (dst : dstate_t Tensor) (l : nat) (dout : Tensor)
  : result (Tensor * option Tensor) :=
  match rnn_type dec with
  | lstm =>
      hx <- index (fst dst) l ;;
      cs <- match snd dst with
            | Some cs => Ok cs
            | None => Raise TypeError
            end ;;
      cx <- index cs l ;;
      let (h, c) := lstm_cell ops l dout (hx, cx) in
      Ok (h, Some c)
  | gru =>
      hx <- index (fst dst) l ;;
      Ok (gru_cell ops l dout hx, None)
  end.

(** [dout = self.dropout(h)] followed by
    [if self.n_projs > 0: dout = torch.tanh(self.proj[l](dout))]. *)
Definition layer_output {Tensor : Type} (ops : cell_ops Tensor) (dec : decoder)
           (l : nat) (h : Tensor) : Tensor :=
  let dout := dropout ops h in
  if 0 <? n_projs dec then tanh ops (proj ops l dout) else dout.

(** Loop state of [for l in range(self.n_layers)]. *)
Record loop_state (Tensor : Type) : Type := {
  ls_dout : Tensor;
  ls_hxs : list Tensor;
  ls_cxs : list Tensor;
  ls_score : option Tensor
}.

Definition layer_body {Tensor : Type} (ops : cell_ops Tensor) (dec : decoder)
           (dst : dstate_t Tensor) (l : nat) (s : loop_state Tensor)
  : result (loop_state Tensor) :=
  '(h, c) <- run_cell ops dec dst l (ls_dout s) ;;
  let new_cxs := match c with
                 | Some c => ls_cxs s ++ [c]
                 | None => ls_cxs s
                 end in
  let new_hxs := ls_hxs s ++ [h] in
  let dout := layer_output ops dec l h in
  Ok {| ls_dout := dout;
        ls_hxs := new_hxs;
        ls_cxs := new_cxs;
        ls_score := if l =? 0 then Some dout else ls_score s |}.

Definition recurrency {Tensor : Type} (ops : cell_ops Tensor) (dec : decoder)
           (inputs : Tensor) (dst : dstate_t Tensor)
  : result (new_dstates Tensor) :=
  s <- for_range (layer_body ops dec dst) (n_layers dec)
         {| ls_dout := inputs; ls_hxs := []; ls_cxs := []; ls_score := None |} ;;
  new_hxs <- torch_stack (ls_hxs s) ;;
  new_cxs <- match rnn_type dec with
             | lstm => torch_stack (ls_cxs s)
             | gru => Ok (ls_cxs s)
             end ;;
  Ok {| dout_score := ls_score s;
        dout_gen := ls_dout s;
        dstate := (new_hxs, new_cxs) |}.

(** Reference reading of the layer stack: the tensor fed to layer [l]. *)
Fixpoint layer_input {Tensor : Type} (ops : cell_ops Tensor) (dec : decoder)
         (dst : dstate_t Tensor) (inputs : Tensor) (l : nat) : result Tensor :=
  match l with
  | O => Ok inputs
  | S l' =>
      x <- layer_input ops dec dst inputs l' ;;
      '(h, _) <- run_cell ops dec dst l' x ;;
      Ok (layer_output ops dec l' h)
  end.

(** The recurrent state has one slice per layer. *)
Definition well_shaped {Tensor : Type} (dec : decoder) (dst : dstate_t Tensor) : Prop :=
  n_layers dec <= length (fst dst) /\
  match rnn_type dec with
  | lstm => exists cs, snd dst = Some cs /\ n_layers dec <= length cs
  | gru => True
  end.

(** What holds after [i] layers of the loop. *)
Definition layers_inv {Tensor : Type} (ops : cell_ops Tensor) (dec : decoder)
           (dst : dstate_t Tensor) (inputs : Tensor)
           (i : nat) (s : loop_state Tensor) : Prop :=
  layer_input ops dec dst inputs i = Ok (ls_dout s) /\
  length (ls_hxs s) = i /\
  (rnn_type dec = lstm -> length (ls_cxs s) = i) /\
  match i with
  | O => ls_score s = None
  | S _ => exists d, layer_input ops dec dst inputs 1 = Ok d /\ ls_score s = Some d
  end.

(** A concrete decoder over integer "tensors", used to evaluate the model. *)
Definition z_ops : cell_ops Z := {|
  lstm_cell := fun _ x hc => (x + fst hc, x + snd hc)%Z;
  gru_cell := fun _ x h => (x + h)%Z;
  dropout := fun x => x;
  proj := fun _ x => (2 * x)%Z;
  tanh := fun x => (x + 1)%Z
|}.

End Recurrency.

(** ** [RNNDecoder.greedy] *)

Module Greedy.

Record decoder : Set := {
  eos : nat;            (* self.eos, shared with <sos> *)
  bwd : bool;           (* self.bwd *)
  replace_sos : bool    (* self.replace_sos *)
}.

(** One batched step "LM update, recurrency, score, generate, argmax"
    ([self.lm.decode], [self.decode_step], [self.output(attn_v).argmax(-1)]):
    from the carried decoder state and the previous tokens [y] (one per
    utterance) to the new state and the 1-best tokens. *)
Record stepper (St : Type) : Type := {
  step : St -> list nat -> St * list nat
}.

Record loop_state (St : Type) : Type := {
  g_st : St;
  g_y : list nat;                 (* y, `[B, 1]` *)
  g_hyps_batch : list (list nat); (* hyps_batch, one `[B, 1]` tensor per step *)
  g_ylens : list nat;             (* ylens *)
  g_eos_flags : list bool         (* eos_flags *)
}.

(** Body of [for b in range(bs)] under "Count lengths of hypotheses". *)
Definition count_body (dec : decoder) (y : list nat) (b : nat)
           (s : list bool * list nat) : result (list bool * list nat) :=
  let (eos_flags, ylens) := s in
  f <- index eos_flags b ;;
  if negb f then
    yb <- index y b ;;
    let eos_flags' := if yb =? eos dec then set_nth eos_flags b true else eos_flags in
    n <- index ylens b ;;
    Ok (eos_flags', set_nth ylens b (n + 1))
  else Ok (eos_flags, ylens).

(** [ytime]: [max([len(refs_id[b]) for b in range(bs)]) + 1] in oracle mode,
    [int(math.floor(xtime * max_len_ratio)) + 1] otherwise, where the product
    of the int [xtime] and the float [max_len_ratio] is a double. A
    non-positive value gives an empty [range(ytime)]. *)
Definition ytime_of (oracle : bool) (refs_id : list (list nat)) (bs xtime : nat)
           (max_len_ratio : Q) : result nat :=
  if oracle then
    lens <- map_result (fun b => r <- index refs_id b ;; Ok (length r)) (seq 0 bs) ;;
    m <- py_max_nat lens ;;
    Ok (m + 1)
  else
    Ok (Z.to_nat (Qfloor (float64 (inject_Z (Z.of_nat xtime) * max_len_ratio)) + 1)).

(** The body of [for t in range(ytime)]; both [break]s leave with the state
    reached. *)
Definition greedy_iter {St : Type} (m : stepper St) (dec : decoder) (oracle : bool)
           (refs_id : list (list nat)) (bs ytime : nat)
           (t : nat) (s : loop_state St) : result (flow (loop_state St)) :=
  let (st', y) := step m (g_st s) (g_y s) in
  let hyps_batch := g_hyps_batch s ++ [y] in
  '(eos_flags, ylens) <-
     for_range (count_body dec y) bs (g_eos_flags s, g_ylens s) ;;
  let s1 := {| g_st := st'; g_y := y; g_hyps_batch := hyps_batch;
               g_ylens := ylens; g_eos_flags := eos_flags |} in
  if count_true eos_flags =? bs then Ok (Break s1)
  else if t =? ytime - 1 then Ok (Break s1)
  else
    y' <- (if oracle
           then map_result (fun b => r <- index refs_id b ;; index r t) (seq 0 bs)
           else Ok y) ;;
    Ok (Continue {| g_st := st'; g_y := y'; g_hyps_batch := hyps_batch;
                    g_ylens := ylens; g_eos_flags := eos_flags |}).

Definition greedy_loop {St : Type} (m : stepper St) (dec : decoder) (oracle : bool)
           (refs_id : list (list nat)) (bs ytime : nat) (s : loop_state St)
  : result (loop_state St) :=
  for_break (greedy_iter m dec oracle refs_id bs ytime) ytime s.

(** [hyps_batch[b, :]] after [torch.cat(hyps_batch, dim=1)]. *)
Definition column (hyps_batch : list (list nat)) (b : nat) : result (list nat) :=
  map_result (fun y => index y b) hyps_batch.

(** Truncation by [ylens[b]], reversal for the backward decoder and removal of
    the end symbol, for utterance [b]. *)
Definition hyp_of (dec : decoder) (exclude_eos : bool)
           (hyps_batch : list (list nat)) (ylens : list nat) (eos_flags : list bool)
           (b : nat) : result (list nat) :=
  col <- column hyps_batch b ;;
  n <- index ylens b ;;
  let h := if bwd dec then rev (firstn n col) else firstn n col in
  if exclude_eos then
    f <- index eos_flags b ;;
    Ok (if f then (if bwd dec then tl h else removelast h) else h)
  else Ok h.

Definition initial_state {St : Type} (dec : decoder) (refs_id : list (list nat))
           (bs : nat) (st0 : St) : result (loop_state St) :=
  y0 <- (if replace_sos dec then r <- index refs_id 0 ;; index r 0 else Ok (eos dec)) ;;
  Ok {| g_st := st0; g_y := repeat y0 bs; g_hyps_batch := [];
        g_ylens := repeat 0 bs; g_eos_flags := repeat false bs |}.

(** The log of the utterances (lines 817-825): for every utterance
    [utt_ids[b]] is read when identifiers are given, and [refs_id[b]] when the
    reference is logged, [log_ref] being
    [refs_id is not None and self.vocab == idx2token.vocab]. The converter
    [idx2token] is given and returns on every input. *)
Definition log_hyps (utt_ids : option (list String.string)) (log_ref : bool)
           (refs_id : list (list nat)) (bs : nat) : result unit :=
  _ <- map_result
         (fun b =>
            _ <- match utt_ids with
                 | Some ids => _ <- index ids b ;; Ok tt
                 | None => Ok tt
                 end ;;
            if log_ref then _ <- index refs_id b ;; Ok tt else Ok tt)
         (seq 0 bs) ;;
  Ok tt.

(** [greedy]: the token sequences [hyps] (the attention weights [aws] are cut
    with the same [ylens] and are left out). [bs] and [xtime] are the first two
    sizes of [eouts]. *)
Definition greedy {St : Type} (m : stepper St) (dec : decoder) (st0 : St)
           (bs xtime : nat) (max_len_ratio : Q) (exclude_eos oracle : bool)
           (refs_id : list (list nat))
           (utt_ids : option (list String.string)) (log_ref : bool)
  : result (list (list nat)) :=
  s0 <- initial_state dec refs_id bs st0 ;;
  ytime <- ytime_of oracle refs_id bs xtime max_len_ratio ;;
  s <- greedy_loop m dec oracle refs_id bs ytime s0 ;;
  _ <- torch_cat (g_hyps_batch s) ;;
  hyps <- map_result (hyp_of dec exclude_eos (g_hyps_batch s) (g_ylens s)
                             (g_eos_flags s))
                     (seq 0 bs) ;;
  _ <- log_hyps utt_ids log_ref refs_id bs ;;
  Ok hyps.

(** The per-utterance reading of the length counter: what the flag and the
    length of one utterance are after it emitted the tokens [col]. *)
Fixpoint track (e : nat) (col : list nat) (flag : bool) (len : nat) : bool * nat :=
  match col with
  | [] => (flag, len)
  | y :: rest =>
      if flag then track e rest flag len
      else track e rest (y =? e) (len + 1)
  end.

(** The end symbol occurs in [h] at most once, and then as its last element
    (forward decoder) or as its first element (backward decoder, whose output
    is reversed). *)
Definition eos_only_last (e : nat) (h : list nat) : Prop :=
  forall i, nth_error h i = Some e -> S i = length h.

Definition eos_only_first (e : nat) (h : list nat) : Prop :=
  forall i, nth_error h i = Some e -> i = 0.


(** What the decoding loop keeps true of its state, for a batch of [bs]
    utterances: every list has one entry per utterance, and the flag and the
    length of utterance [b] are those of [track] on the tokens it emitted. *)
Definition loop_inv {St : Type} (dec : decoder) (bs : nat) (s : loop_state St) : Prop :=
  Forall (fun y => length y = bs) (g_hyps_batch s) /\
  length (g_eos_flags s) = bs /\
  length (g_ylens s) = bs /\
  length (g_y s) = bs /\
  forall b, b < bs ->
    exists col, column (g_hyps_batch s) b = Ok col /\
                track (eos dec) col false 0 =
                  (nth b (g_eos_flags s) false, nth b (g_ylens s) 0).

(** What holds where the loop is left: at most [ytime] steps were run, and
    fewer only if every utterance is flagged. *)
Definition loop_post {St : Type} (dec : decoder) (bs ytime : nat) (s : loop_state St) : Prop :=
  loop_inv dec bs s /\
  length (g_hyps_batch s) <= ytime /\
  (1 <= ytime -> 1 <= length (g_hyps_batch s)) /\
  (length (g_hyps_batch s) < ytime -> count_true (g_eos_flags s) = bs).

(** What the counting loop has done after the utterances below [k], from the
    flags [fl] and lengths [yl] it started with. *)
Definition count_inv (dec : decoder) (y : list nat) (bs : nat) (fl : list bool)
           (yl : list nat) (k : nat) (s : list bool * list nat) : Prop :=
  length (fst s) = bs /\ length (snd s) = bs /\
  forall b, b < bs ->
    nth b (fst s) false =
      (if b <? k then nth b fl false || (nth b y 0 =? eos dec) else nth b fl false) /\
    nth b (snd s) 0 =
      (if b <? k then (if nth b fl false then nth b yl 0 else nth b yl 0 + 1)
       else nth b yl 0).

(** A stepper on [St = nat] (a step counter) under which utterance [b] emits
    the tokens of [nth b streams []] one after the other, then [pad]: used to
    run the decoder on concrete data. *)
Definition stream_stepper (streams : list (list nat)) (pad : nat) : stepper nat :=
  {| step := fun t y =>
       (S t, map (fun b => nth t (nth b streams []) pad) (seq 0 (length y))) |}.

End Greedy.

(** ** Scores, sorting and top-k *)

Definition Qlt_bool (a b : Q) : bool := negb (Qle_bool b a).

(** Python's [max(a, b)] on floats. *)
Definition py_max (a b : Q) : Q := if Qlt_bool a b then b else a.

(** [t.max(0)[0].item()] on a 1-d tensor: an empty tensor has no dimension
    to reduce, [IndexError]. *)
Definition tensor_max (l : list Q) : result Q :=
  match l with
  | [] => Raise IndexError
  | x :: t => Ok (fold_left py_max t x)
  end.

(** [sorted(l, key=..., reverse=True)]: descending and stable. [x] is put in
    front of the first element whose key does not exceed its own. *)
Fixpoint insert_desc {A : Type} (key : A -> Q) (x : A) (l : list A) : list A :=
  match l with
  | [] => [x]
  | h :: t => if Qle_bool (key h) (key x) then x :: h :: t
              else h :: insert_desc key x t
  end.

Definition sorted_desc {A : Type} (key : A -> Q) (l : list A) : list A :=
  fold_right (insert_desc key) [] l.

(** The order in which [torch.topk] returns entries of equal value is not
    specified: [rank k row i] is the rank of index [i] among the entries of
    [row] when [k] of them are asked for, the lower rank first. *)
Definition tie_rank : Type := nat -> list Q -> nat -> nat.

(** The rank under which the lower index comes first. *)
Definition by_index : tie_rank := fun _ _ i => i.

(** [torch.topk(row, k, largest=True, sorted=True)] on one row: the [k] largest
    values with their indices, in descending order; [k] larger than the row is
    refused. Equal values are ordered by [rank], and by index under equal
    ranks. *)
Definition topk (rank : tie_rank) (k : nat) (row : list Q) : result (list (Q * nat)) :=
  if length row <? k then Raise RuntimeError
  else
    let by_rank :=
      sorted_desc (fun p : Q * nat => (- inject_Z (Z.of_nat (rank k row (snd p))))%Q)
                  (combine row (seq 0 (length row))) in
    Ok (firstn k (sorted_desc fst by_rank)).

(** Descending order of the keys. *)
Definition desc {A : Type} (key : A -> Q) (a b : A) : Prop := (key b <= key a)%Q.

(** [r] is the list of the [k] largest entries of [row] with their indices, in
    descending order: every entry left out is at most every entry taken. *)
Definition is_topk (k : nat) (row : list Q) (r : list (Q * nat)) : Prop :=
  length r = k /\
  NoDup (map snd r) /\
  Forall (fun p => nth_error row (snd p) = Some (fst p)) r /\
  StronglySorted (fun p q => (fst q <= fst p)%Q) r /\
  forall i v, nth_error row i = Some v -> ~ In i (map snd r) ->
              Forall (fun p => (v <= fst p)%Q) r.

(** [m] is the largest entry of [row] at an index other than [idx]. *)
Definition max_excluding (row : list Q) (idx : nat) (m : Q) : Prop :=
  (exists i, i <> idx /\ nth_error row i = Some m) /\
  forall i v, i <> idx -> nth_error row i = Some v -> (v <= m)%Q.

(** ** [RNNDecoder.beam_search]

    The search without additional decoders ([ensmbl_decs = []], the branch of
    lines 988-1007 is the module [Ensemble] below) and without second-pass LMs
    ([lm_2nd] and [lm_2nd_rev] are [None]); the states carried over from the
    previous utterance are arguments. The recurrent states are opaque here:
    their batching (lines 963-966), which raises for a GRU decoder and for a
    state that is [None], is added by the module [Session] below. *)

Module BeamSearch.

Record decoder : Set := {
  eos : nat;            (* self.eos, shared with <sos> *)
  bwd : bool;           (* self.bwd *)
  replace_sos : bool    (* self.replace_sos *)
}.

(** The entries of [params] read by the search without second-pass rescoring
    and without state carry-over. *)
Record params : Set := {
  recog_oracle : bool;
  recog_beam_width : nat;
  recog_ctc_weight : Q;
  recog_max_len_ratio : Q;
  recog_min_len_ratio : Q;
  recog_length_penalty : Q;
  recog_coverage_penalty : Q;
  recog_coverage_threshold : Q;
  recog_length_norm : bool;
  recog_lm_weight : Q;
  recog_gnmt_decoding : bool;
  recog_eos_threshold : Q
}.

(** Opaque data owned by the collaborators. *)
Record payload : Type := {
  DState : Type;    (* recurrent state slice, `dstates` *)
  Ctx : Type;       (* context vector slice, `cv` *)
  AttW : Type;      (* attention weights slice, one entry of `aws` *)
  LMState : Type;   (* `lmstate` *)
  CTCState : Type   (* `ctc_state` *)
}.

Record hypothesis (P : payload) : Type := {
  hyp : list nat;
  score : Q;
  score_attn : Q;
  score_cp : option Q;            (* [None]: the dict has no key 'score_cp' *)
  score_ctc : Q;
  score_lm : Q;
  dstates : DState P;
  cv : Ctx P;
  aws : list (option (AttW P));   (* starts with [None] *)
  lmstate : option (LMState P);
  ctc_state : option (CTCState P)
}.

Arguments hyp {P} h.
Arguments score {P} h.
Arguments score_attn {P} h.
Arguments score_cp {P} h.
Arguments score_ctc {P} h.
Arguments score_lm {P} h.
Arguments dstates {P} h.
Arguments cv {P} h.
Arguments aws {P} h.
Arguments lmstate {P} h.
Arguments ctc_state {P} h.

(** Row [j] of what one batched step over the live hypotheses returns: the
    LM update, [decode_step], the softmax and the logarithm of lines 974-1011,
    for a single model. *)
Record step_out (P : payload) : Type := {
  so_dstates : DState P;
  so_cv : Ctx P;
  so_aw : AttW P;
  so_scores_attn : list Q;          (* scores_attn[j], one entry per token *)
  so_lmstate : option (LMState P);
  so_scores_lm : list Q             (* scores_lm[j, -1] *)
}.

Arguments so_dstates {P} s.
Arguments so_cv {P} s.
Arguments so_aw {P} s.
Arguments so_scores_attn {P} s.
Arguments so_lmstate {P} s.
Arguments so_scores_lm {P} s.

(** The collaborators of one utterance. A batched result is read by its row
    index: the collaborators return one row per live hypothesis and one entry
    per candidate. *)
Record collaborators (P : payload) : Type := {
  (* step [t], previous tokens [y], live hypotheses, row [j] *)
  decode_step : nat -> list nat -> list (hypothesis P) -> nat -> step_out P;
  (* ctc_prefix_score(hyp, topk_ids, ctc_state): score and state of candidate [k] *)
  ctc_prefix_score : list nat -> list nat -> option (CTCState P) -> nat -> Q * CTCState P;
  ctc_initial_state : CTCState P;
  (* the coverage term [cp] of lines 1038-1051, from gnmt_decoding, cp_threshold,
     beam['aws'] and the batched [aw] *)
  coverage : bool -> Q -> list (option (AttW P)) -> list (AttW P) -> Q;
  (* math.pow *)
  pow : Q -> Q -> Q;
  (* the order of equal values in the result of torch.topk *)
  topk_rank : tie_rank
}.

Arguments decode_step {P} c.
Arguments ctc_prefix_score {P} c.
Arguments ctc_initial_state {P} c.
Arguments coverage {P} c.
Arguments pow {P} c.
Arguments topk_rank {P} c.

(** [total_scores_attn = beam['score_attn'] + scores_attn[j:j + 1]] *)
Definition total_scores_attn {P : payload} (beam : hypothesis P) (row : list Q) : list Q :=
  map (fun s => (score_attn beam + s)%Q) row.

(** [total_scores = total_scores_attn * (1 - ctc_weight)] *)
Definition total_scores {P : payload} (prm : params) (beam : hypothesis P)
           (row : list Q) : list Q :=
  map (fun s => (s * (1 - recog_ctc_weight prm))%Q) (total_scores_attn beam row).

(** The candidates of one live hypothesis after lines 1016-1069. *)
Record candidates (P : payload) : Type := {
  total_scores_topk : list Q;
  topk_ids : list nat;
  total_scores_lm : list Q;
  total_scores_ctc : list Q;
  cp : Q;
  ctc_states : nat -> option (CTCState P)   (* ctc_states[joint_ids_topk[0, k]] *)
}.

Arguments total_scores_topk {P} c.
Arguments topk_ids {P} c.
Arguments total_scores_lm {P} c.
Arguments total_scores_ctc {P} c.
Arguments cp {P} c.
Arguments ctc_states {P} c.

(** [a += b * w], elementwise. *)
Definition add_weighted (a b : list Q) (w : Q) : list Q :=
  map (fun ab => (fst ab + snd ab * w)%Q) (combine a b).

(** "Add length penalty" (lines 1028-1034), on the pre-selected scores. *)
Definition add_length_penalty {P : payload} (C : collaborators P) (prm : params)
           (beam : hypothesis P) (scores : list Q) : list Q :=
  let lp_weight := recog_length_penalty prm in
  if Qlt_bool 0 lp_weight then
    if recog_gnmt_decoding prm then
      let lp := (pow C (6 + inject_Z (Z.of_nat (length (tl (hyp beam))))) lp_weight
                 / pow C 6 lp_weight)%Q in
      map (fun s => (s / lp)%Q) scores
    else
      map (fun s => (s + (inject_Z (Z.of_nat (length (tl (hyp beam)))) + 1) * lp_weight)%Q)
          scores
  else scores.

(** Lines 1016-1069 for the live hypothesis [beam] of row [j]: top-k on the
    attention path, then the LM score, the length penalty, the coverage
    penalty and the CTC score on the selected candidates. [has_lm] is
    [lm is not None], [has_ctc] is [ctc_log_probs is not None], [aw] the
    batched attention weights of this step, one row per live hypothesis.
    Under a coverage penalty line 1038 stacks the entries of [beam['aws'][1:]],
    each a single row, with the batched [aw]: tensors of different sizes are
    refused with [RuntimeError]. *)
Definition select_candidates {P : payload} (C : collaborators P) (prm : params)
           (has_lm has_ctc : bool) (aw : list (AttW P))
           (beam : hypothesis P) (out : step_out P) : result (candidates P) :=
  let beam_width := recog_beam_width prm in
  topk1 <- topk (topk_rank C) beam_width (total_scores prm beam (so_scores_attn out)) ;;
  let ids := map snd topk1 in
  let scores := map fst topk1 in
  (* Add LM score <after> top-K selection *)
  let lm_scores :=
    if has_lm
    then map (fun id => (score_lm beam + nth id (so_scores_lm out) 0)%Q) ids
    else repeat 0%Q beam_width in
  let scores :=
    if has_lm then add_weighted scores lm_scores (recog_lm_weight prm) else scores in
  (* Add length penalty *)
  let scores := add_length_penalty C prm beam scores in
  (* Add coverage penalty *)
  cp_val <-
    (if Qlt_bool 0 (recog_coverage_penalty prm)
     then
       if negb (length (tl (aws beam)) =? 0) && negb (length aw =? 1)
       then Raise RuntimeError
       else Ok (coverage C (recog_gnmt_decoding prm) (recog_coverage_threshold prm)
                         (aws beam) aw)
     else Ok 0%Q) ;;
  let scores :=
    if Qlt_bool 0 (recog_coverage_penalty prm)
    then map (fun s => (s + cp_val * recog_coverage_penalty prm)%Q) scores
    else scores in
  (* CTC score *)
  if has_ctc then
    let ctc_out := ctc_prefix_score C (hyp beam) ids (ctc_state beam) in
    let ctc_scores := map (fun k => fst (ctc_out k)) (seq 0 (length ids)) in
    let scores := add_weighted scores ctc_scores (recog_ctc_weight prm) in
    (* Sort again *)
    topk2 <- topk (topk_rank C) beam_width scores ;;
    let joint_ids_topk := map snd topk2 in
    Ok {| total_scores_topk := map fst topk2;
          topk_ids := map (fun q => nth q ids 0) joint_ids_topk;
          total_scores_lm := lm_scores;
          total_scores_ctc := ctc_scores;
          cp := cp_val;
          ctc_states := fun k => Some (snd (ctc_out (nth k joint_ids_topk 0))) |}
  else
    Ok {| total_scores_topk := scores;
          topk_ids := ids;
          total_scores_lm := lm_scores;
          total_scores_ctc := repeat 0%Q beam_width;
          cp := cp_val;
          ctc_states := fun _ => None |}.

(** The scores of the candidates [pre] selected on the attention path once the
    LM score, the length penalty and the coverage penalty are added (lines
    1022-1054): what [select_candidates] holds before the CTC score, when the
    coverage term can be computed. *)
Definition fused_scores {P : payload} (C : collaborators P) (prm : params)
           (has_lm : bool) (aw : list (AttW P)) (beam : hypothesis P)
           (out : step_out P) (pre : list (Q * nat)) : list Q :=
  let lm_scores :=
    map (fun id => (score_lm beam + nth id (so_scores_lm out) 0)%Q) (map snd pre) in
  let s1 := if has_lm then add_weighted (map fst pre) lm_scores (recog_lm_weight prm)
            else map fst pre in
  let s2 := add_length_penalty C prm beam s1 in
  let cp_val :=
    if Qlt_bool 0 (recog_coverage_penalty prm)
    then coverage C (recog_gnmt_decoding prm) (recog_coverage_threshold prm) (aws beam) aw
    else 0%Q in
  if Qlt_bool 0 (recog_coverage_penalty prm)
  then map (fun s => (s + cp_val * recog_coverage_penalty prm)%Q) s2
  else s2.

(** The end-symbol test of lines 1078-1086 for candidate [idx = eos] of the
    hypothesis [beam]: [true] when the candidate is skipped by [continue].
    [elen] is [elens[b]], [row] is [scores_attn[j]]. [elens[b] * min_len_ratio]
    is the product of an entry of an integer tensor and a Python float, a
    tensor of single precision, with which the integer length is compared in
    single precision; [eos_threshold * max_score_no_eos] is a product of
    Python floats. *)
Definition eos_rejected {P : payload} (prm : params) (elen : nat)
           (beam : hypothesis P) (row : list Q) (idx : nat) : result bool :=
  (* Exclude short hypotheses *)
  if Qlt_bool (float32 (inject_Z (Z.of_nat (length (hyp beam)) - 1)))
              (float32 (float32 (inject_Z (Z.of_nat elen))
                        * float32 (recog_min_len_ratio prm)))
  then Ok true
  else
    (* EOS threshold *)
    m1 <- tensor_max (firstn idx row) ;;
    m2 <- tensor_max (skipn (idx + 1) row) ;;
    let max_score_no_eos := py_max m1 m2 in
    s <- index row idx ;;
    Ok (Qle_bool s (float64 (recog_eos_threshold prm * max_score_no_eos))).

(** Body of [for k in range(beam_width)] (lines 1071-1102): the new hypothesis
    of candidate [k], or [None] after [continue]. *)
Definition extend {P : payload} (dec : decoder) (prm : params) (elen : nat)
           (beam : hypothesis P) (out : step_out P) (c : candidates P) (k : nat)
  : result (option (hypothesis P)) :=
  idx <- index (topk_ids c) k ;;
  let length_norm_factor :=
    if recog_length_norm prm
    then (inject_Z (Z.of_nat (length (tl (hyp beam)))) + 1)%Q
    else 1%Q in
  s <- index (total_scores_topk c) k ;;
  let total_score := (s / length_norm_factor)%Q in
  skip <- (if idx =? eos dec
           then eos_rejected prm elen beam (so_scores_attn out) idx
           else Ok false) ;;
  if skip then Ok None
  else
    sa <- index (total_scores_attn beam (so_scores_attn out)) idx ;;
    sc <- index (total_scores_ctc c) k ;;
    sl <- index (total_scores_lm c) k ;;
    Ok (Some {| hyp := hyp beam ++ [idx];
                score := total_score;
                score_attn := sa;
                score_cp := Some (cp c);
                score_ctc := sc;
                score_lm := sl;
                dstates := so_dstates out;
                cv := so_cv out;
                aws := aws beam ++ [Some (so_aw out)];
                lmstate := so_lmstate out;
                ctc_state := ctc_states c k |}).

(** One turn of [for j, beam in enumerate(hyps)] (lines 1014-1102): the new
    hypotheses that [beam] contributes. *)
Definition expand_beam {P : payload} (C : collaborators P) (dec : decoder) (prm : params)
           (has_lm has_ctc : bool) (elen : nat) (aw : list (AttW P))
           (beam : hypothesis P) (out : step_out P) : result (list (hypothesis P)) :=
  c <- select_candidates C prm has_lm has_ctc aw beam out ;;
  news <- map_result (extend dec prm elen beam out c) (seq 0 (recog_beam_width prm)) ;;
  Ok (somes news).

(** [prev_idx] of lines 955-958. *)
Definition prev_idx {P : payload} (dec : decoder) (prm : params)
           (refs_id : list (list nat)) (b t : nat) (beam : hypothesis P) : result nat :=
  if replace_sos dec && (t =? 0) then
    r <- index refs_id 0 ;; index r 0
  else if recog_oracle prm then
    r <- index refs_id b ;; index (eos dec :: r) t
  else index (hyp beam) (length (hyp beam) - 1).

(** The hypothesis is complete: [len(hyp['hyp']) > 1 and hyp['hyp'][-1] == self.eos]. *)
Definition ended {P : payload} (dec : decoder) (h : hypothesis P) : bool :=
  (1 <? length (hyp h)) && (last (hyp h) 0 =? eos dec).

(** "Remove complete hypotheses" (lines 1108-1119): [true] sends the
    hypothesis to [end_hyps]. *)
Definition completes {P : payload} (dec : decoder) (prm : params)
           (reflen t : nat) (h : hypothesis P) : bool :=
  if recog_oracle prm then t =? reflen else ended dec h.

Record beam_state (P : payload) : Type := {
  hyps : list (hypothesis P);
  end_hyps : list (hypothesis P)
}.

Arguments hyps {P} b.
Arguments end_hyps {P} b.

(** The body of [for t in range(ytime)] (lines 952-1123) for utterance [b]. *)
Definition beam_iter {P : payload} (C : collaborators P) (dec : decoder) (prm : params)
           (has_lm has_ctc : bool) (elen : nat) (refs_id : list (list nat)) (b : nat)
           (t : nat) (s : beam_state P) : result (flow (beam_state P)) :=
  let beam_width := recog_beam_width prm in
  (* preprocess for batch decoding *)
  y <- map_result (prev_idx dec prm refs_id b t) (hyps s) ;;
  _ <- torch_cat (map cv (hyps s)) ;;
  let out := decode_step C t y (hyps s) in
  let aw := map (fun j => so_aw (out j)) (seq 0 (length (hyps s))) in
  news <- map_result
            (fun jb => expand_beam C dec prm has_lm has_ctc elen aw (snd jb) (out (fst jb)))
            (combine (seq 0 (length (hyps s))) (hyps s)) ;;
  (* Local pruning *)
  let new_hyps_sorted := firstn beam_width (sorted_desc score (concat news)) in
  (* Remove complete hypotheses *)
  reflen <- (if recog_oracle prm then r <- index refs_id b ;; Ok (length r) else Ok 0) ;;
  let done := filter (completes dec prm reflen t) new_hyps_sorted in
  let live := filter (fun h => negb (completes dec prm reflen t h)) new_hyps_sorted in
  let end_hyps' := end_hyps s ++ done in
  if beam_width <=? length end_hyps'
  then Ok (Break {| hyps := hyps s; end_hyps := firstn beam_width end_hyps' |})
  else Ok (Continue {| hyps := live; end_hyps := end_hyps' |}).

(** [ytime] of lines 946-950; [elens[b] * max_len_ratio] is a tensor of single
    precision. *)
Definition ytime_of (prm : params) (elen : nat) (refs_id : list (list nat)) (b : nat)
  : result nat :=
  if recog_oracle prm then
    r <- index refs_id b ;; Ok (length r + 1)
  else
    Ok (Z.to_nat (Qfloor (float32 (float32 (inject_Z (Z.of_nat elen))
                                   * float32 (recog_max_len_ratio prm))) + 1)).

(** The beginning-of-sequence hypothesis (lines 933-945); [dstates0] and
    [lmstate0] are the start states after the carry-over decision. The dict
    has no key ['score_cp']. *)
Definition initial_hyp {P : payload} (C : collaborators P) (dec : decoder)
           (has_ctc : bool) (dstates0 : DState P) (cv0 : Ctx P)
           (lmstate0 : option (LMState P)) : hypothesis P :=
  {| hyp := [eos dec];
     score := 0; score_attn := 0; score_cp := None; score_ctc := 0; score_lm := 0;
     dstates := dstates0;
     cv := cv0;
     aws := [None];
     lmstate := lmstate0;
     ctc_state := if has_ctc then Some (ctc_initial_state C) else None |}.

(** "Global pruning" (lines 1126-1129). *)
Definition global_pruning {P : payload} (nbest : nat) (s : beam_state P)
  : list (hypothesis P) :=
  if length (end_hyps s) =? 0 then hyps s
  else if (length (end_hyps s) <? nbest) && (1 <? nbest)
       then end_hyps s ++ firstn (nbest - length (end_hyps s)) (hyps s)
       else end_hyps s.

(** What is returned for one utterance. *)
Record utt_result (P : payload) : Type := {
  nbest_hyps_idx : list (list nat);
  best_aws : list (option (AttW P));
  nbest_scores : list Q;
  eos_flags : list bool
}.

Arguments nbest_hyps_idx {P} u.
Arguments best_aws {P} u.
Arguments nbest_scores {P} u.
Arguments eos_flags {P} u.

(** "N-best list" (lines 1164-1175) on the sorted [end_hyps]. *)
Definition nbest_list {P : payload} (dec : decoder) (nbest : nat)
           (end_hyps : list (hypothesis P)) : result (utt_result P) :=
  idx <- map_result
           (fun n => h <- index end_hyps n ;;
                     Ok (if bwd dec then rev (tl (hyp h)) else tl (hyp h)))
           (seq 0 nbest) ;;
  h0 <- index end_hyps 0 ;;
  a <- torch_stack (if bwd dec then rev (tl (aws h0)) else tl (aws h0)) ;;
  sc <- map_result (fun n => h <- index end_hyps n ;; Ok (score_attn h)) (seq 0 nbest) ;;
  fl <- map_result (fun n => h <- index end_hyps n ;;
                             e <- index (hyp h) (length (hyp h) - 1) ;;
                             Ok (e =? eos dec))
                   (seq 0 nbest) ;;
  Ok {| nbest_hyps_idx := idx; best_aws := a; nbest_scores := sc; eos_flags := fl |}.

(** The log of utterance [b] (lines 1142-1162) on the sorted [end_hyps].
    [utt_ids] and [idx2token] are the arguments of these names: [Some log_ref]
    is a converter, [log_ref] telling whether the reference is logged too
    ([refs_id is not None and self.vocab == idx2token.vocab]). Every
    hypothesis is read for its scores, ['score_cp'] among them. The logger
    and the converter return on every input. *)
Definition log_utt {P : payload} (utt_ids : option (list String.string))
           (idx2token : option bool) (refs_id : list (list nat)) (b : nat)
           (end_hyps : list (hypothesis P)) : result unit :=
  _ <- match utt_ids with
       | Some ids => _ <- index ids b ;; Ok tt
       | None => Ok tt
       end ;;
  match idx2token with
  | None => Ok tt
  | Some log_ref =>
      _ <- (if log_ref then _ <- index refs_id b ;; Ok tt else Ok tt) ;;
      _ <- map_result (fun h => match score_cp h with
                                | Some s => Ok s
                                | None => Raise KeyError
                                end) end_hyps ;;
      Ok tt
  end.

(** The decoding loop of utterance [b]. *)
Definition beam_loop {P : payload} (C : collaborators P) (dec : decoder) (prm : params)
           (has_lm has_ctc : bool) (elen : nat) (refs_id : list (list nat)) (b : nat)
           (h0 : hypothesis P) : result (beam_state P) :=
  ytime <- ytime_of prm elen refs_id b ;;
  for_break (beam_iter C dec prm has_lm has_ctc elen refs_id b) ytime
            {| hyps := [h0]; end_hyps := [] |}.

(** The search of utterance [b] (lines 901-1175), without second-pass
    rescoring. *)
Definition beam_search_utt {P : payload} (C : collaborators P) (dec : decoder)
           (prm : params) (has_lm has_ctc : bool) (nbest : nat)
           (elen : nat) (refs_id : list (list nat))
           (utt_ids : option (list String.string)) (idx2token : option bool) (b : nat)
           (h0 : hypothesis P) : result (utt_result P) :=
  _ <- (if has_ctc then py_assert (Qlt_bool 0 (recog_ctc_weight prm)) else Ok tt) ;;
  s <- beam_loop C dec prm has_lm has_ctc elen refs_id b h0 ;;
  (* Global pruning, then "Sort by score" *)
  let end_hyps := sorted_desc score (global_pruning nbest s) in
  _ <- log_utt utt_ids idx2token refs_id b end_hyps ;;
  nbest_list dec nbest end_hyps.

(** "Exclude <eos>" (lines 1178-1184) for one utterance. *)
Definition strip_eos {P : payload} (dec : decoder) (nbest : nat) (u : utt_result P)
  : result (list (list nat)) :=
  map_result
    (fun n => h <- index (nbest_hyps_idx u) n ;;
              f <- index (eos_flags u) n ;;
              Ok (if f then (if bwd dec then tl h else removelast h) else h))
    (seq 0 nbest).

(** One utterance of the batch: its collaborators (the CTC prefix scorer and
    the attention cache are set up per utterance), [elens[b]] and its
    beginning-of-sequence hypothesis. *)
Record utterance (P : payload) : Type := {
  u_collab : collaborators P;
  u_elen : nat;
  u_init : hypothesis P
}.

Arguments u_collab {P} u.
Arguments u_elen {P} u.
Arguments u_init {P} u.

(** [beam_search] over a batch, one utterance after the other; the n-best
    token sequences and the attention scores of each utterance. *)
Definition beam_search {P : payload} (dec : decoder) (prm : params)
           (has_lm has_ctc : bool) (nbest : nat) (exclude_eos : bool)
           (refs_id : list (list nat))
           (utt_ids : option (list String.string)) (idx2token : option bool)
           (batch : list (utterance P))
  : result (list (list (list nat) * list Q)) :=
  _ <- py_assert ((1 <=? nbest) && (nbest <=? recog_beam_width prm)) ;;
  _ <- (if has_lm then py_assert (Qlt_bool 0 (recog_lm_weight prm)) else Ok tt) ;;
  us <- map_result
          (fun bu => beam_search_utt (u_collab (snd bu)) dec prm has_lm has_ctc nbest
                       (u_elen (snd bu)) refs_id utt_ids idx2token (fst bu)
                       (u_init (snd bu)))
          (combine (seq 0 (length batch)) batch) ;;
  map_result
    (fun u => idx <- (if exclude_eos then strip_eos dec nbest u
                      else Ok (nbest_hyps_idx u)) ;;
              Ok (idx, nbest_scores u))
    us.

(** The hypothesis without its start symbol is shorter than
    [elens[b] * min_len_ratio], in single precision. *)
Definition too_short {P : payload} (prm : params) (elen : nat) (beam : hypothesis P) : Prop :=
  (float32 (inject_Z (Z.of_nat (length (hyp beam)) - 1))
   < float32 (float32 (inject_Z (Z.of_nat elen)) * float32 (recog_min_len_ratio prm)))%Q.

(** [h] is one of [parents] with exactly one token appended. *)
Definition child_of {P : payload} (parents : list (hypothesis P)) (h : hypothesis P) : Prop :=
  exists p idx, In p parents /\ hyp h = hyp p ++ [idx].

(** The states at the head of the decoding loop of one utterance: the start
    state, and every state that an iteration which does not [break] leads to. *)
Inductive reachable {P : payload} (C : collaborators P) (dec : decoder) (prm : params)
          (has_lm has_ctc : bool) (elen : nat) (refs_id : list (list nat)) (b : nat)
          (h0 : hypothesis P) : nat -> beam_state P -> Prop :=
| reach_start :
    reachable C dec prm has_lm has_ctc elen refs_id b h0 0
              {| hyps := [h0]; end_hyps := [] |}
| reach_next (t : nat) (s s' : beam_state P) :
    reachable C dec prm has_lm has_ctc elen refs_id b h0 t s ->
    beam_iter C dec prm has_lm has_ctc elen refs_id b t s = Ok (Continue s') ->
    reachable C dec prm has_lm has_ctc elen refs_id b h0 (S t) s'.

(** What holds at every loop head: at most [beam_width] live hypotheses, and
    live and completed hypotheses apart. *)
Definition head_inv {P : payload} (dec : decoder) (prm : params) (s : beam_state P) : Prop :=
  length (hyps s) <= recog_beam_width prm /\
  (if recog_oracle prm
   then end_hyps s = [] \/ hyps s = []
   else Forall (fun h => ended dec h = false) (hyps s) /\
        Forall (fun h => ended dec h = true) (end_hyps s)).

(** A live hypothesis at step [t] holds the start symbol and [t] tokens, with
    one attention entry each; a completed one holds at least one token after
    the start symbol. Whatever is not the beginning-of-sequence hypothesis has
    a coverage score. *)
Definition live_ok {P : payload} (t : nat) (h : hypothesis P) : Prop :=
  length (hyp h) = S t /\ length (aws h) = S t /\ (1 <= t -> score_cp h <> None).

Definition done_ok {P : payload} (h : hypothesis P) : Prop :=
  2 <= length (hyp h) /\ 2 <= length (aws h) /\ score_cp h <> None.

(** What holds at the head of iteration [t] of a loop of [ytime] iterations
    when the search cannot raise. *)
Definition run_inv {P : payload} (prm : params) (ytime t : nat) (s : beam_state P) : Prop :=
  (t < ytime -> hyps s <> []) /\
  length (end_hyps s) < recog_beam_width prm /\
  (1 <= t -> recog_beam_width prm - 1 <= length (end_hyps s) + length (hyps s)) /\
  Forall (live_ok t) (hyps s) /\
  Forall done_ok (end_hyps s).

(** What holds where the loop is left: global pruning yields at least [nbest]
    hypotheses, none of them bare. *)
Definition run_post {P : payload} (nbest : nat) (s : beam_state P) : Prop :=
  nbest <= length (global_pruning nbest s) /\
  Forall done_ok (global_pruning nbest s) /\
  (end_hyps s = [] -> hyps s <> [] /\ global_pruning nbest s = hyps s).

(** A concrete instance on which the search can be run: no payload, the
    attention log-probabilities of step [t] and row [j] read from [rows], the
    LM row and the CTC scores of the candidates read from tables, no coverage
    term, [pow] on integer exponents, and the lower index first among equal
    values. *)
Definition no_payload : payload :=
  {| DState := unit; Ctx := unit; AttW := unit; LMState := unit; CTCState := unit |}.

Definition table_collab (rows : nat -> nat -> list Q) (lm_row ctc_row : list Q)
  : collaborators no_payload :=
  @Build_collaborators no_payload
    (fun t _ _ j => @Build_step_out no_payload tt tt tt (rows t j) None lm_row)
    (fun _ ids _ k => (nth (nth k ids 0) ctc_row 0%Q, tt))
    tt
    (fun _ _ _ _ => 0%Q)
    (fun x p => Qpower x (Qfloor p))
    by_index.

Definition bos (dec : decoder) : hypothesis no_payload :=
  initial_hyp (table_collab (fun _ _ => []) [] []) dec false tt tt None.

End BeamSearch.

(** ** [RNNDecoder.beam_search_chunk_sync] *)

(** Names of attention types. *)
Module AttnNames.
Import String.
Definition mocha : string := "mocha"%string.
Definition location : string := "location"%string.
End AttnNames.

Module ChunkSync.

Import BeamSearch.

Record decoder : Set := {
  c_eos : nat;                        (* self.eos *)
  attn_type : String.string;          (* self.attn_type *)
  c_rnn_type : Recurrency.rnn_kind    (* self.rnn_type *)
}.

(** A hypothesis of the streaming search: as in the whole-utterance search,
    without the coverage score and with the ['no_trigger'] flag. The recurrent
    state is [None] when it was carried over from a decoder that never stored
    one. *)
Record hypothesis (P : payload) : Type := {
  hyp : list nat;
  score : Q;
  score_attn : Q;
  score_ctc : Q;
  score_lm : Q;
  dstates : option (DState P);
  cv : Ctx P;
  aws : list (option (AttW P));
  lmstate : option (LMState P);
  ctc_state : option (CTCState P);
  no_trigger : bool
}.

Arguments hyp {P} h.
Arguments score {P} h.
Arguments score_attn {P} h.
Arguments score_ctc {P} h.
Arguments score_lm {P} h.
Arguments dstates {P} h.
Arguments cv {P} h.
Arguments aws {P} h.
Arguments lmstate {P} h.
Arguments ctc_state {P} h.
Arguments no_trigger {P} h.

(** The collaborators of one chunk. *)
Record collaborators (P : payload) : Type := {
  (* step [t], the [cache] flag, previous tokens [y], live hypotheses, row [j]:
     the LM update, [decode_step] and [log_softmax] of lines 1273-1285 *)
  decode_step : nat -> bool -> list nat -> list (hypothesis P) -> nat -> step_out P;
  (* aw[j].sum() *)
  aw_sum : AttW P -> Q;
  (* eouts_chunk.new_zeros(eouts_chunk.size(0), eouts_chunk.size(1), 1) *)
  zero_aw : AttW P;
  (* self.zero_state(1)['dstate'] and eouts_chunk.new_zeros(1, 1, enc_n_units) *)
  zero_state : DState P;
  zero_cv : Ctx P;
  (* self.ctc_prefix_score(hyp, topk_ids, ctc_state, new_chunk): candidate [k] *)
  ctc_prefix_score :
    list nat -> list nat -> option (CTCState P) -> bool -> nat -> Q * CTCState P;
  ctc_initial_state : CTCState P;
  (* the order of equal values in the result of torch.topk *)
  topk_rank : tie_rank
}.

Arguments decode_step {P} c.
Arguments aw_sum {P} c.
Arguments zero_aw {P} c.
Arguments zero_state {P} c.
Arguments zero_cv {P} c.
Arguments ctc_prefix_score {P} c.
Arguments ctc_initial_state {P} c.
Arguments topk_rank {P} c.

(** The state that the decoder object keeps between calls. The attributes
    [n_frames] and [ctc_prefix_score] do not exist ([None]) until a first
    chunk created them. *)
Record session (P : payload) : Type := {
  dstates_final : option (DState P);
  lmstate_final : option (LMState P);
  n_frames : option nat;
  ctc_chunks : option nat;   (* chunks registered in self.ctc_prefix_score *)
  score_resets : nat         (* calls of self.score.reset() *)
}.

Arguments dstates_final {P} s.
Arguments lmstate_final {P} s.
Arguments n_frames {P} s.
Arguments ctc_chunks {P} s.
Arguments score_resets {P} s.

(** Lines 1297-1326 for the live hypothesis [beam]: as in the whole-utterance
    search, with the additive length penalty always applied and no coverage
    penalty. *)
Definition select_candidates {P : payload} (C : collaborators P) (prm : params)
           (has_lm has_ctc : bool) (t : nat)
           (beam : hypothesis P) (out : step_out P) : result (candidates P) :=
  let beam_width := recog_beam_width prm in
  let total_scores_attn := map (fun s => (score_attn beam + s)%Q) (so_scores_attn out) in
  let total_scores :=
    map (fun s => (s * (1 - recog_ctc_weight prm))%Q) total_scores_attn in
  topk1 <- topk (topk_rank C) beam_width total_scores ;;
  let ids := map snd topk1 in
  let scores := map fst topk1 in
  (* Add LM score <after> top-K selection *)
  let lm_scores :=
    if has_lm
    then map (fun id => (score_lm beam + nth id (so_scores_lm out) 0)%Q) ids
    else repeat 0%Q beam_width in
  let scores :=
    if has_lm then add_weighted scores lm_scores (recog_lm_weight prm) else scores in
  (* Add length penalty *)
  let scores :=
    map (fun s => (s + (inject_Z (Z.of_nat (length (tl (hyp beam)))) + 1)
                       * recog_length_penalty prm)%Q) scores in
  (* CTC score *)
  if has_ctc then
    let ctc_out := ctc_prefix_score C (hyp beam) ids (ctc_state beam) (t =? 0) in
    let ctc_scores := map (fun k => fst (ctc_out k)) (seq 0 (length ids)) in
    let scores := add_weighted scores ctc_scores (recog_ctc_weight prm) in
    (* Sort again *)
    topk2 <- topk (topk_rank C) beam_width scores ;;
    let joint_ids_topk := map snd topk2 in
    Ok {| total_scores_topk := map fst topk2;
          topk_ids := map (fun q => nth q ids 0) joint_ids_topk;
          total_scores_lm := lm_scores;
          total_scores_ctc := ctc_scores;
          cp := 0%Q;
          ctc_states := fun k => Some (snd (ctc_out (nth k joint_ids_topk 0))) |}
  else
    Ok {| total_scores_topk := scores;
          topk_ids := ids;
          total_scores_lm := lm_scores;
          total_scores_ctc := repeat 0%Q beam_width;
          cp := 0%Q;
          ctc_states := fun _ => None |}.

(** The end-symbol test of lines 1334-1339: the threshold only, on a product
    of Python floats. *)
Definition eos_rejected (prm : params) (row : list Q) (idx : nat) : result bool :=
  m1 <- tensor_max (firstn idx row) ;;
  m2 <- tensor_max (skipn (idx + 1) row) ;;
  let max_score_no_eos := py_max m1 m2 in
  s <- index row idx ;;
  Ok (Qle_bool s (float64 (recog_eos_threshold prm * max_score_no_eos))).

(** Body of [for k in range(beam_width)] (lines 1330-1352). *)
Definition extend {P : payload} (dec : decoder) (prm : params)
           (beam : hypothesis P) (out : step_out P) (c : candidates P) (k : nat)
  : result (option (hypothesis P)) :=
  idx <- index (topk_ids c) k ;;
  s <- index (total_scores_topk c) k ;;
  let total_score := (s / (inject_Z (Z.of_nat (length (tl (hyp beam)))) + 1))%Q in
  skip <- (if idx =? c_eos dec
           then eos_rejected prm (so_scores_attn out) idx
           else Ok false) ;;
  if skip then Ok None
  else
    sa <- index (map (fun s => (score_attn beam + s)%Q) (so_scores_attn out)) idx ;;
    sc <- index (total_scores_ctc c) k ;;
    sl <- index (total_scores_lm c) k ;;
    Ok (Some {| hyp := hyp beam ++ [idx];
                score := total_score;
                score_attn := sa;
                score_ctc := sc;
                score_lm := sl;
                dstates := Some (so_dstates out);
                cv := so_cv out;
                aws := aws beam ++ [Some (so_aw out)];
                lmstate := so_lmstate out;
                ctc_state := ctc_states c k;
                no_trigger := false |}).

(** [beam['aws'][-1] = zeros] (line 1292): the last attention entry of the
    hypothesis object is overwritten. *)
Definition overwrite_last_aw {P : payload} (C : collaborators P) (beam : hypothesis P)
  : result (hypothesis P) :=
  match aws beam with
  | [] => Raise IndexError
  | _ =>
      Ok {| hyp := hyp beam;
            score := score beam;
            score_attn := score_attn beam;
            score_ctc := score_ctc beam;
            score_lm := score_lm beam;
            dstates := dstates beam;
            cv := cv beam;
            aws := set_nth (aws beam) (length (aws beam) - 1) (Some (zero_aw C));
            lmstate := lmstate beam;
            ctc_state := ctc_state beam;
            no_trigger := no_trigger beam |}
  end.

(** No triggered point was found for row [j]: [aw[j].sum() == 0]. *)
Definition untriggered {P : payload} (C : collaborators P) (out : step_out P) : bool :=
  Qeq_bool (aw_sum C (so_aw out)) 0.

(** One turn of [for j, beam in enumerate(hyps_segment)] (lines 1289-1352):
    the hypothesis object [beam] as the turn leaves it, and the hypotheses it
    appends to [new_hyps]. An untriggered hypothesis is overwritten in place
    and its copy, which shares the overwritten list, is appended. *)
Definition expand_beam {P : payload} (C : collaborators P) (dec : decoder) (prm : params)
           (has_lm has_ctc : bool) (t : nat)
           (beam : hypothesis P) (out : step_out P)
  : result (hypothesis P * list (hypothesis P)) :=
  if untriggered C out then
    beam' <- overwrite_last_aw C beam ;;
    Ok (beam', [beam'])
  else
    c <- select_candidates C prm has_lm has_ctc t beam out ;;
    news <- map_result (extend dec prm beam out c) (seq 0 (recog_beam_width prm)) ;;
    Ok (beam, somes news).

Definition ended {P : payload} (dec : decoder) (h : hypothesis P) : bool :=
  (1 <? length (hyp h)) && (last (hyp h) 0 =? c_eos dec).

Record chunk_state (P : payload) : Type := {
  hyps_segment : list (hypothesis P);
  end_hyps : list (hypothesis P);
  n_hyps_prev : nat
}.

Arguments hyps_segment {P} c.
Arguments end_hyps {P} c.
Arguments n_hyps_prev {P} c.

(** The test of lines 1251-1253:
    [t > 0 and sum([cand['no_trigger'] for cand in hyps_segment]) == len(hyps_segment)]. *)
Definition all_untriggered {P : payload} (t : nat) (hs : list (hypothesis P)) : bool :=
  (0 <? t) && (count_true (map no_trigger hs) =? length hs).

(** The body of [for t in range(ytime)] (lines 1250-1367); [n_forced_eos] is 0.
    A state that is [None] cannot be subscripted; [cxs] is bound for an LSTM
    only, and read for every decoder. *)
Definition chunk_iter {P : payload} (C : collaborators P) (dec : decoder) (prm : params)
           (has_lm has_ctc : bool) (t : nat) (s : chunk_state P)
  : result (flow (chunk_state P)) :=
  let beam_width := recog_beam_width prm in
  (* finish if additional triggered points are not found in all candidates *)
  if all_untriggered t (hyps_segment s) then Ok (Break s)
  else
    (* preprocess for batch decoding *)
    y <- map_result (fun beam => index (hyp beam) (length (hyp beam) - 1))
                    (hyps_segment s) ;;
    _ <- torch_cat (map cv (hyps_segment s)) ;;
    _ <- map_result (fun beam => match dstates beam with
                                 | Some d => Ok d
                                 | None => Raise TypeError
                                 end) (hyps_segment s) ;;
    _ <- match c_rnn_type dec with
         | Recurrency.lstm => Ok tt
         | Recurrency.gru => Raise NameError
         end ;;
    let cache := length (hyps_segment s) =? n_hyps_prev s in
    let out := decode_step C t cache y (hyps_segment s) in
    outs <- map_result
              (fun jb => expand_beam C dec prm has_lm has_ctc t (snd jb) (out (fst jb)))
              (combine (seq 0 (length (hyps_segment s))) (hyps_segment s)) ;;
    let old_hyps := map fst outs in
    let new_hyps := concat (map snd outs) in
    (* Local pruning *)
    let new_hyps_sorted := firstn beam_width (sorted_desc score new_hyps) in
    (* Remove complete hypotheses *)
    let done := filter (ended dec) new_hyps_sorted in
    let live := filter (fun h => negb (ended dec h)) new_hyps_sorted in
    let end_hyps' := end_hyps s ++ done in
    if beam_width + 0 <=? length end_hyps'
    then Ok (Break {| hyps_segment := old_hyps;
                      end_hyps := firstn (beam_width + 0) end_hyps';
                      n_hyps_prev := length (hyps_segment s) |})
    else Ok (Continue {| hyps_segment := live;
                         end_hyps := end_hyps';
                         n_hyps_prev := length (hyps_segment s) |}).

(** The beginning-of-sequence hypothesis of the first chunk (lines 1235-1245). *)
Definition initial_hyp {P : payload} (C : collaborators P) (dec : decoder)
           (has_ctc : bool) (dstates0 : option (DState P))
           (lmstate0 : option (LMState P)) : hypothesis P :=
  {| hyp := [c_eos dec];
     score := 0; score_attn := 0; score_ctc := 0; score_lm := 0;
     dstates := dstates0;
     cv := zero_cv C;
     aws := [None];
     lmstate := lmstate0;
     ctc_state := if has_ctc then Some (ctc_initial_state C) else None;
     no_trigger := false |}.

(** [beam_search_chunk_sync] on a chunk of size [bs] x [chunk_len], without
    second-pass rescoring: the returned pair [(end_hyps, hyps_segment)] or the
    exception raised, and the decoder state left behind. [lm_is_rnnlm] is
    [isinstance(lm, RNNLM)]; [segment] is the argument [hyps_segment], [None]
    on the first chunk. *)
Definition beam_search_chunk_sync {P : payload} (C : collaborators P) (dec : decoder)
           (prm : params) (bs chunk_len : nat) (has_lm lm_is_rnnlm has_ctc : bool)
           (segment : option (list (hypothesis P))) (state_carry_over : bool)
           (st : session P)
  : result (list (hypothesis P) * list (hypothesis P)) * session P :=
  if negb (bs =? 1) then (Raise AssertionError, st)
  else if negb (String.eqb (attn_type dec) AttnNames.mocha) then (Raise AssertionError, st)
  else if has_lm && negb (Qlt_bool 0 (recog_lm_weight prm)) then (Raise AssertionError, st)
  else
    (* Initialization per utterance *)
    let st := {| dstates_final := dstates_final st; lmstate_final := lmstate_final st;
                 n_frames := n_frames st; ctc_chunks := ctc_chunks st;
                 score_resets := S (score_resets st) |} in
    (* For joint CTC-Attention decoding *)
    if has_ctc && negb (Qlt_bool 0 (recog_ctc_weight prm)) then (Raise AssertionError, st)
    else
      match (if has_ctc
             then match segment with
                  | None => Ok (Some 1)
                  | Some _ => match ctc_chunks st with
                              | Some n => Ok (Some (S n))
                              | None => Raise AttributeError
                              end
                  end
             else Ok (ctc_chunks st)) with
      | Raise e => (Raise e, st)
      | Ok chunks =>
          let st := {| dstates_final := dstates_final st;
                       lmstate_final := lmstate_final st;
                       n_frames := n_frames st;
                       ctc_chunks := chunks;
                       score_resets := score_resets st |} in
          let dstates0 := if state_carry_over then dstates_final st
                          else Some (zero_state C) in
          let lmstate0 := if state_carry_over && lm_is_rnnlm then lmstate_final st
                          else None in
          let st := match segment with
                    | None => {| dstates_final := dstates_final st;
                                 lmstate_final := lmstate_final st;
                                 n_frames := Some 0; ctc_chunks := ctc_chunks st;
                                 score_resets := score_resets st |}
                    | Some _ => st
                    end in
          let hyps0 := match segment with
                       | None => [initial_hyp C dec has_ctc dstates0 lmstate0]
                       | Some hs => hs
                       end in
          (* the product of an int and a Python float *)
          let ytime :=
            Z.to_nat (Qfloor (float64 (inject_Z (Z.of_nat chunk_len)
                                       * recog_max_len_ratio prm)) + 1) in
          match for_break (chunk_iter C dec prm has_lm has_ctc) ytime
                          {| hyps_segment := hyps0; end_hyps := []; n_hyps_prev := 1 |} with
          | Raise e => (Raise e, st)
          | Ok s =>
              (* Sort by score *)
              let ends := sorted_desc score (end_hyps s) in
              (* Store ASR/LM state *)
              let st := match ends with
                        | [] => st
                        | best :: _ =>
                            {| dstates_final := dstates best;
                               lmstate_final := lmstate best;
                               n_frames := n_frames st; ctc_chunks := ctc_chunks st;
                               score_resets := score_resets st |}
                        end in
              (* self.n_frames += eouts_chunk.size(1) *)
              match n_frames st with
              | None => (Raise AttributeError, st)
              | Some n =>
                  (Ok (ends, hyps_segment s),
                   {| dstates_final := dstates_final st;
                      lmstate_final := lmstate_final st;
                      n_frames := Some (n + chunk_len); ctc_chunks := ctc_chunks st;
                      score_resets := score_resets st |})
              end
          end
      end.

(** A concrete chunk on which the search can be run: the attention weights are
    their own sum, [sums t j] at step [t] and row [j]; the lower index comes
    first among equal values. *)
Definition sum_payload : payload :=
  {| DState := unit; Ctx := unit; AttW := Q; LMState := unit; CTCState := unit |}.

Definition table_collab (rows : nat -> nat -> list Q) (sums : nat -> nat -> Q)
  : collaborators sum_payload :=
  @Build_collaborators sum_payload
    (fun t _ _ _ j => @Build_step_out sum_payload tt tt (sums t j) (rows t j) None [])
    (fun a => a)
    0%Q
    tt
    tt
    (fun _ _ _ _ _ => (0%Q, tt))
    tt
    by_index.

End ChunkSync.

(** ** The ensemble branch of [RNNDecoder.beam_search] (lines 986-1011)

    The branch reads the hypotheses as the dictionaries they are, so they are
    kept as dynamically typed values here. The whole-utterance model above is
    this code with [ensmbl_decs = []]. *)

(** Keys of the hypothesis dictionaries. *)
Module KeyNames.
Import String.
Definition dstate : string := "dstate"%string.
Definition dstates : string := "dstates"%string.
Definition ensmbl_dstate : string := "ensmbl_dstate"%string.
Definition ensmbl_cv : string := "ensmbl_cv"%string.
Definition ensmbl_aws : string := "ensmbl_aws"%string.
End KeyNames.

Module Ensemble.

Inductive pykey : Set :=
| KStr (s : String.string)
| KInt (i : nat).

Definition pykey_eqb (a b : pykey) : bool :=
  match a, b with
  | KStr s, KStr s' => String.eqb s s'
  | KInt i, KInt i' => i =? i'
  | _, _ => false
  end.

(** Python values over tensors of type [T]. *)
#[warnings="-register-all"]
Inductive pyval (T : Type) : Type :=
| VNone
| VTensor (x : T)
| VTuple (a b : pyval T)
| VList (l : list (pyval T))
| VDict (d : list (pykey * pyval T)).

Arguments VNone {T}.
Arguments VTensor {T} x.
Arguments VTuple {T} a b.
Arguments VList {T} l.
Arguments VDict {T} d.

Fixpoint assoc {V : Type} (d : list (pykey * V)) (k : pykey) : option V :=
  match d with
  | [] => None
  | (k', v) :: rest => if pykey_eqb k k' then Some v else assoc rest k
  end.

(** [v[k]]: a key of a dict, a position of a list or of a tuple. *)
Definition getitem {T : Type} (v : pyval T) (k : pykey) : result (pyval T) :=
  match v, k with
  | VDict d, _ =>
      match assoc d k with
      | Some x => Ok x
      | None => Raise KeyError
      end
  | VList l, KInt i => index l i
  | VTuple a b, KInt i =>
      match i with
      | 0 => Ok a
      | 1 => Ok b
      | _ => Raise IndexError
      end
  | _, _ => Raise TypeError
  end.

(** [l[-1]] *)
Definition last_item {T : Type} (v : pyval T) : result (pyval T) :=
  match v with
  | VList l => index l (length l - 1)
  | _ => Raise TypeError
  end.

Definition dstate_key : pykey := KStr KeyNames.dstate.
Definition dstates_key : pykey := KStr KeyNames.dstates.
Definition ensmbl_dstate_key : pykey := KStr KeyNames.ensmbl_dstate.
Definition ensmbl_cv_key : pykey := KStr KeyNames.ensmbl_cv.
Definition ensmbl_aws_key : pykey := KStr KeyNames.ensmbl_aws.

Inductive rnn_kind : Set := lstm | gru.

(** One additional decoder: [softmax(dec.output(attn_v_e))] after its
    [decode_step] on the batched values, one row per live hypothesis. *)
Record member (T : Type) : Type := {
  member_probs : list (pyval T) -> list (pyval T) -> list (pyval T) -> list (list Q)
}.

Arguments member_probs {T} m.

(** Lines 992-1007 for the additional decoder [i_e]: its probabilities, to be
    added to [probs]. [hyps] are the live hypotheses, each a dict. *)
Definition member_step {T : Type} (rnn_type : rnn_kind) (t : nat)
           (hyps : list (pyval T)) (i_e : nat) (dec : member T)
  : result (list (list Q)) :=
  cv_e <- (l <- map_result (fun beam => c <- getitem beam ensmbl_cv_key ;;
                                       getitem c (KInt i_e)) hyps ;;
           torch_cat l) ;;
  aw_e <- (if 0 <? t
           then l <- map_result (fun beam => a <- getitem beam ensmbl_aws_key ;;
                                             a' <- getitem a (KInt i_e) ;;
                                             last_item a') hyps ;;
                torch_cat l
           else Ok []) ;;
  hxs_e <- (l <- map_result (fun beam => d <- getitem beam ensmbl_dstate_key ;;
                                          d' <- getitem d (KInt i_e) ;;
                                          s <- getitem d' dstate_key ;;
                                          getitem s (KInt 0)) hyps ;;
            torch_cat l) ;;
  cxs_e <- (match rnn_type with
            | lstm =>
                l <- map_result (fun beam => d <- getitem beam dstates_key ;;
                                             d' <- getitem d (KInt i_e) ;;
                                             s <- getitem d' dstate_key ;;
                                             getitem s (KInt 1)) hyps ;;
                l' <- torch_cat l ;;
                Ok (Some l')
            | gru => Ok None
            end) ;;
  (* dstates_e = {'dstate': (hxs_e, cxs_e)}: cxs_e is unbound for a GRU *)
  _ <- (match cxs_e with
        | Some _ => Ok tt
        | None => Raise NameError
        end) ;;
  let probs_e := member_probs dec cv_e aw_e hxs_e in
  (* lines 1003-1004, on the hypothesis [beam] left by the loops above *)
  beam <- index hyps (length hyps - 1) ;;
  d <- getitem beam dstates_key ;;
  d' <- getitem d (KInt i_e) ;;
  s <- getitem d' dstate_key ;;
  _ <- getitem s (KInt 0) ;;
  _ <- getitem s (KInt 1) ;;
  Ok probs_e.

(** [probs += probs_e], row by row. *)
Definition add_probs (probs probs_e : list (list Q)) : list (list Q) :=
  map (fun ab => map (fun xy => (fst xy + snd xy)%Q) (combine (fst ab) (snd ab)))
      (combine probs probs_e).

(** Lines 986-1011: [scores_attn] from the probabilities [probs] of the main
    model and the additional decoders [ensmbl_decs]; [log] is [torch.log] on
    one entry. *)
Definition scores_attn {T : Type} (log : Q -> Q) (rnn_type : rnn_kind) (t : nat)
           (hyps : list (pyval T)) (probs : list (list Q))
           (ensmbl_decs : list (member T)) : result (list (list Q)) :=
  let n_models := length ensmbl_decs + 1 in
  probs <- (if 1 <? n_models
            then fold_left
                   (fun acc ie =>
                      p <- acc ;;
                      pe <- member_step rnn_type t hyps (fst ie) (snd ie) ;;
                      Ok (add_probs p pe))
                   (combine (seq 0 (length ensmbl_decs)) ensmbl_decs)
                   (Ok probs)
            else Ok probs) ;;
  (* Ensemble in log-scale *)
  Ok (map (map (fun p => (log p / inject_Z (Z.of_nat n_models))%Q)) probs).

(** [{'dstate': (hxs, cxs)}], as built by [zero_state] and by line 1095. *)
Definition dstates_dict {T : Type} (hxs cxs : T) : pyval T :=
  VDict [(dstate_key, VTuple (VTensor hxs) (VTensor cxs))].

(** The beginning-of-sequence hypothesis of lines 933-945 for [n] additional
    decoders (the entries this branch reads). *)
Definition initial_hyp {T : Type} (zero : T) (n : nat) : pyval T :=
  VDict [(dstates_key, dstates_dict zero zero);
         (ensmbl_dstate_key, VList (repeat (dstates_dict zero zero) n));
         (ensmbl_cv_key, VList (repeat (VTensor zero) n));
         (ensmbl_aws_key, VList (repeat (VList [VNone]) n))].

(** A hypothesis whose ['dstates'] entry is the one-key dict the search builds. *)
Definition search_built {T : Type} (beam : pyval T) : Prop :=
  exists hxs cxs, getitem beam dstates_key = Ok (dstates_dict hxs cxs).

(** An additional decoder with a uniform distribution over two tokens. *)
Definition uniform_member : member unit :=
  {| member_probs := fun cv _ _ => map (fun _ => [1 # 2; 1 # 2]%Q) cv |}.

End Ensemble.

(** ** Reading of the returned sequences *)

(** The tokens of [col] up to and including the first end symbol [e] (all of
    [col] when it holds none), and the tokens before the first end symbol. *)
Fixpoint until_eos (e : nat) (col : list nat) : list nat :=
  match col with
  | [] => []
  | y :: rest => if y =? e then [y] else y :: until_eos e rest
  end.

Fixpoint before_eos (e : nat) (col : list nat) : list nat :=
  match col with
  | [] => []
  | y :: rest => if y =? e then [] else y :: before_eos e rest
  end.

(** [col] holds the end symbol [e]. *)
Definition has_eos (e : nat) (col : list nat) : bool :=
  existsb (fun y => y =? e) col.

(** ** Reading of the hypotheses of the beam search *)

Module BeamOutput.

Import BeamSearch.

(** A hypothesis that holds no end symbol after its start symbol. *)
Definition eos_free {P : payload} (dec : decoder) (h : hypothesis P) : Prop :=
  hyp h <> [] /\ ~ In (eos dec) (tl (hyp h)).

(** A hypothesis whose only end symbol after the start symbol is its last
    token. *)
Definition eos_closed {P : payload} (dec : decoder) (h : hypothesis P) : Prop :=
  exists pre, tl (hyp h) = pre ++ [eos dec] /\ ~ In (eos dec) pre.

(** What the decoding loop without teacher forcing keeps true of its state. *)
Definition eos_inv {P : payload} (dec : decoder) (s : beam_state P) : Prop :=
  Forall (eos_free dec) (hyps s) /\ Forall (eos_closed dec) (end_hyps s).

(** The token sequence returned for [h]: without the start symbol, reversed
    for a backward decoder. *)
Definition returned {P : payload} (dec : decoder) (h : hypothesis P) : list nat :=
  if bwd dec then rev (tl (hyp h)) else tl (hyp h).

End BeamOutput.

(** ** [RNNDecoder.zero_state], [RNNDecoder.generate] and [RNNDecoder.decode_step] *)

(** Names of the LM fusion types. *)
Module FusionNames.
Import String.
Definition cold : string := "cold"%string.
Definition deep : string := "deep"%string.
Definition cold_prob : string := "cold_prob"%string.
End FusionNames.

Module DecodeStep.

Import Recurrency.

(** [zero_state]: [hxs] holds one zero slice per layer, [cxs] likewise for an
    LSTM and is [None] otherwise. [new_zeros] is the zero slice
    [w.new_zeros(bs, self.dec_n_units)]. *)
Definition zero_state {Tensor : Type} (dec : decoder) (new_zeros : Tensor)
  : dstate_t Tensor :=
  let hxs := repeat new_zeros (n_layers dec) in
  let cxs := match rnn_type dec with
             | lstm => Some (repeat new_zeros (n_layers dec))
             | gru => None
             end in
  (hxs, cxs).

(** The state handed to the next call: [dstates['dstate']] of what
    [recurrency] returned. For a GRU its second component is the empty list
    [new_cxs]. *)
Definition next_dstate {Tensor : Type} (r : new_dstates Tensor) : dstate_t Tensor :=
  (fst (dstate r), Some (snd (dstate r))).

(** Successive calls of [recurrency], as the decoding loops make them: each
    call is given the state that the previous one returned. *)
Fixpoint steps {Tensor : Type} (ops : cell_ops Tensor) (dec : decoder)
         (dst : dstate_t Tensor) (inputs : list Tensor) : result (dstate_t Tensor) :=
  match inputs with
  | [] => Ok dst
  | x :: rest =>
      r <- recurrency ops dec x dst ;;
      steps ops dec (next_dstate r) rest
  end.

(** The modules and tensor operations read by [generate] and [decode_step]. *)
Record gen_ops (Tensor : Type) : Type := {
  cat : Tensor -> Tensor -> Tensor;      (* torch.cat([a, b], dim=-1) *)
  mul : Tensor -> Tensor -> Tensor;      (* a * b *)
  sigmoid : Tensor -> Tensor;
  gen_tanh : Tensor -> Tensor;
  linear_dec_feat : Tensor -> Tensor;
  linear_lm_feat : Tensor -> Tensor;
  linear_lm_gate : Tensor -> Tensor;
  output_bn : Tensor -> Tensor;
  lm_output : Tensor -> Tensor           (* self.lm.output *)
}.

(** A module applied to [None] instead of a tensor. *)
Definition tensor_arg {Tensor : Type} (x : option Tensor) : result Tensor :=
  match x with
  | Some t => Ok t
  | None => Raise TypeError
  end.

(** [generate]; [has_lm] is [self.lm is not None]. *)
Definition generate {Tensor : Type} (g : gen_ops Tensor) (has_lm : bool)
           (lm_fusion_type : String.string) (cv dout : Tensor) (lmout : option Tensor)
  : result Tensor :=
  if has_lm then
    (* LM fusion *)
    let dec_feat := linear_dec_feat g (cat g dout cv) in
    gated_lmfeat <-
      (if String.eqb lm_fusion_type FusionNames.cold
          || String.eqb lm_fusion_type FusionNames.deep
       then
         x <- tensor_arg lmout ;;
         let lmfeat := linear_lm_feat g x in
         let gate := sigmoid g (linear_lm_gate g (cat g dec_feat lmfeat)) in
         Ok (Some (mul g gate lmfeat))
       else if String.eqb lm_fusion_type FusionNames.cold_prob
       then
         x <- tensor_arg lmout ;;
         let lmfeat := linear_lm_feat g (lm_output g x) in
         let gate := sigmoid g (linear_lm_gate g (cat g dec_feat lmfeat)) in
         Ok (Some (mul g gate lmfeat))
       else Ok None) ;;
    y <- tensor_arg gated_lmfeat ;;
    Ok (gen_tanh g (output_bn g (cat g dec_feat y)))
  else
    Ok (gen_tanh g (output_bn g (cat g dout cv))).

(** [self.score]: from its arguments other than the query and the previous
    attention weights ([Args]: keys, values, mask, mode, cache flag, trigger
    point) to the context vector and the new attention weights. *)
Record attention (Tensor AttW Args : Type) : Type := {
  score : Args -> Tensor -> option AttW -> Tensor * AttW
}.

(** [decode_step]: recurrency, then attention on the score view, then
    generation from the new context vector and the generation view. [dst] is
    [dstates['dstate']]. *)
Definition decode_step {Tensor AttW Args : Type} (ops : cell_ops Tensor)
           (g : gen_ops Tensor) (att : attention Tensor AttW Args) (dec : decoder)
           (has_lm : bool) (lm_fusion_type : String.string)
           (args : Args) (dst : dstate_t Tensor) (cv y_emb : Tensor)
           (aw : option AttW) (lmout : option Tensor)
  : result (new_dstates Tensor * Tensor * AttW * Tensor) :=
  dstates <- recurrency ops dec (cat g y_emb cv) dst ;;
  q <- tensor_arg (dout_score dstates) ;;
  let (cv', aw') := score att args q aw in
  attn_v <- generate g has_lm lm_fusion_type cv' (dout_gen dstates) lmout ;;
  Ok (dstates, cv', aw', attn_v).

End DecodeStep.

(** ** [RNNDecoder.beam_search] as a call on the decoder object

    The whole call: the assertions on its arguments, the start state of every
    utterance (zero state, or the state carried over from the previous call
    for the same speaker), the batching of the recurrent states of lines
    963-966 for an LSTM or a GRU decoder, and the states stored when the call
    ends. The search itself is [BeamSearch.beam_iter]; additional decoders
    and second-pass LMs are absent as there. *)

Module Session.

Import BeamSearch.

(** The payload of a decoder whose stored recurrent state may be [None]:
    [self.dstates_final] is [None] until a search stored one. *)
Definition payload_of (D Cx A L K : Type) : payload :=
  {| DState := option D; Ctx := Cx; AttW := A; LMState := L; CTCState := K |}.

(** What the decoder object keeps between calls. *)
Record session (D L : Type) : Type := {
  prev_spk : String.string;        (* self.prev_spk, '' at construction *)
  dstates_final : option D;        (* self.dstates_final *)
  lmstate_final : option L         (* self.lmstate_final *)
}.

Arguments prev_spk {D L} s.
Arguments dstates_final {D L} s.
Arguments lmstate_final {D L} s.

(** One utterance of the batch: its collaborators and [elens[b]]. *)
Record utt_input (P : payload) : Type := {
  ui_collab : collaborators P;
  ui_elen : nat
}.

Arguments ui_collab {P} u.
Arguments ui_elen {P} u.

(** Lines 903-904 and 924-930: the start states of utterance [b] and the
    session after [self.prev_spk = speakers[b]]. [zero] is
    [self.zero_state(1)]; [lm_is_rnnlm] is [isinstance(lm, RNNLM)]. *)
Definition utt_start {D L : Type} (zero : D) (st : session D L)
           (speakers : option (list String.string)) (b : nat)
           (asr_state_carry_over lm_state_carry_over lm_is_rnnlm : bool)
  : result (option D * option L * session D L) :=
  match speakers with
  | None => Ok (Some zero, None, st)
  | Some spk =>
      s <- index spk b ;;
      let same := String.eqb s (prev_spk st) in
      let dstates := if same && asr_state_carry_over
                     then dstates_final st else Some zero in
      let lmstate := if same && (lm_state_carry_over && lm_is_rnnlm)
                     then lmstate_final st else None in
      Ok (dstates, lmstate,
          {| prev_spk := s;
             dstates_final := dstates_final st;
             lmstate_final := lmstate_final st |})
  end.

(** Lines 953-966, "preprocess for batch decoding": the previous tokens, the
    context vectors and the recurrent states of the live hypotheses are
    batched. A state that is [None] cannot be subscripted; [cxs] is bound for
    an LSTM only, and read for every decoder. *)
Definition batch_states {D Cx A L K : Type} (rnn_type : Recurrency.rnn_kind)
           (dec : decoder) (prm : params) (refs_id : list (list nat)) (b t : nat)
           (hs : list (hypothesis (payload_of D Cx A L K))) : result unit :=
  _ <- map_result (prev_idx dec prm refs_id b t) hs ;;
  _ <- torch_cat (map cv hs) ;;
  _ <- map_result (fun beam : hypothesis (payload_of D Cx A L K) =>
                     match (dstates beam : option D) with
                     | Some d => Ok d
                     | None => Raise TypeError
                     end) hs ;;
  match rnn_type with
  | Recurrency.lstm => Ok tt
  | Recurrency.gru => Raise NameError
  end.

(** The body of [for t in range(ytime)]. *)
Definition beam_iter {D Cx A L K : Type} (rnn_type : Recurrency.rnn_kind)
           (C : collaborators (payload_of D Cx A L K)) (dec : decoder) (prm : params)
           (has_lm has_ctc : bool) (elen : nat) (refs_id : list (list nat)) (b : nat)
           (t : nat) (s : beam_state (payload_of D Cx A L K))
  : result (flow (beam_state (payload_of D Cx A L K))) :=
  _ <- batch_states rnn_type dec prm refs_id b t (hyps s) ;;
  BeamSearch.beam_iter C dec prm has_lm has_ctc elen refs_id b t s.

(** Lines 946-1175 for utterance [b]: what is returned for it, and its sorted
    [end_hyps]. *)
Definition utt_search {D Cx A L K : Type} (rnn_type : Recurrency.rnn_kind)
           (C : collaborators (payload_of D Cx A L K)) (dec : decoder) (prm : params)
           (has_lm has_ctc : bool) (nbest : nat) (elen : nat)
           (refs_id : list (list nat))
           (utt_ids : option (list String.string)) (idx2token : option bool) (b : nat)
           (h0 : hypothesis (payload_of D Cx A L K))
  : result (utt_result (payload_of D Cx A L K)
            * list (hypothesis (payload_of D Cx A L K))) :=
  ytime <- ytime_of prm elen refs_id b ;;
  s <- for_break (beam_iter rnn_type C dec prm has_lm has_ctc elen refs_id b) ytime
         {| hyps := [h0]; end_hyps := [] |} ;;
  let end_hyps := sorted_desc score (global_pruning nbest s) in
  _ <- log_utt utt_ids idx2token refs_id b end_hyps ;;
  u <- nbest_list dec nbest end_hyps ;;
  Ok (u, end_hyps).

(** [for b in range(bs)]: the results so far, the [end_hyps] left by the last
    utterance ([None] while the name is unbound) and the session. An exception
    leaves the session as the statements before it made it. *)
Fixpoint utterances {D Cx A L K : Type} (rnn_type : Recurrency.rnn_kind)
         (dec : decoder) (prm : params) (has_lm lm_is_rnnlm has_ctc : bool) (nbest : nat)
         (refs_id : list (list nat))
         (utt_ids : option (list String.string)) (idx2token : option bool)
         (speakers : option (list String.string))
         (asr_state_carry_over lm_state_carry_over : bool) (zero : D) (zero_cv : Cx)
         (b : nat) (batch : list (utt_input (payload_of D Cx A L K)))
         (acc : list (utt_result (payload_of D Cx A L K)))
         (last : option (list (hypothesis (payload_of D Cx A L K))))
         (st : session D L)
  : result (list (utt_result (payload_of D Cx A L K))
            * option (list (hypothesis (payload_of D Cx A L K))))
    * session D L :=
  match batch with
  | [] => (Ok (acc, last), st)
  | u :: rest =>
      (* For joint CTC-Attention decoding *)
      if has_ctc && negb (Qlt_bool 0 (recog_ctc_weight prm))
      then (Raise AssertionError, st)
      else
        match utt_start zero st speakers b asr_state_carry_over lm_state_carry_over
                        lm_is_rnnlm with
        | Raise e => (Raise e, st)
        | Ok (dstates0, lmstate0, st') =>
            match utt_search rnn_type (ui_collab u) dec prm has_lm has_ctc nbest
                             (ui_elen u) refs_id utt_ids idx2token b
                             (initial_hyp (ui_collab u) dec has_ctc dstates0 zero_cv
                                          lmstate0) with
            | Raise e => (Raise e, st')
            | Ok (r, end_hyps) =>
                utterances rnn_type dec prm has_lm lm_is_rnnlm has_ctc nbest refs_id
                           utt_ids idx2token speakers asr_state_carry_over
                           lm_state_carry_over zero zero_cv
                           (S b) rest (acc ++ [r]) (Some end_hyps) st'
            end
        end
  end.

(** [beam_search]: the n-best sequences, the attention weights of the best
    hypothesis and the scores of every utterance, or the exception raised;
    and the session left behind. *)
Definition beam_search {D Cx A L K : Type} (rnn_type : Recurrency.rnn_kind)
           (dec : decoder) (prm : params) (has_lm lm_is_rnnlm has_ctc : bool)
           (nbest : nat) (exclude_eos : bool)
           (refs_id : list (list nat))
           (utt_ids : option (list String.string)) (idx2token : option bool)
           (speakers : option (list String.string))
           (asr_state_carry_over lm_state_carry_over : bool) (zero : D) (zero_cv : Cx)
           (batch : list (utt_input (payload_of D Cx A L K))) (st : session D L)
  : result (list (list (list nat)) * list (list (option A)) * list (list Q))
    * session D L :=
  if negb ((1 <=? nbest) && (nbest <=? recog_beam_width prm))
  then (Raise AssertionError, st)
  else if has_lm && negb (Qlt_bool 0 (recog_lm_weight prm))
  then (Raise AssertionError, st)
  else
    match utterances rnn_type dec prm has_lm lm_is_rnnlm has_ctc nbest refs_id
                     utt_ids idx2token speakers
                     asr_state_carry_over lm_state_carry_over zero zero_cv
                     0 batch [] None st with
    | (Raise e, st') => (Raise e, st')
    | (Ok (us, last), st') =>
        (* Exclude <eos> *)
        match (if exclude_eos then map_result (strip_eos dec nbest) us
               else Ok (map nbest_hyps_idx us)) with
        | Raise e => (Raise e, st')
        | Ok idx =>
            (* Store ASR/LM state: [end_hyps] is bound by the loop body only *)
            match last with
            | None => (Raise NameError, st')
            | Some end_hyps =>
                match index end_hyps 0 with
                | Raise e => (Raise e, st')
                | Ok best =>
                    (Ok (idx, map best_aws us, map nbest_scores us),
                     {| prev_spk := prev_spk st';
                        dstates_final := dstates best;
                        lmstate_final := lmstate best |})
                end
            end
        end
    end.

(** The session of a decoder that has not decoded yet. *)
Definition fresh {D L : Type} : session D L :=
  {| prev_spk := String.EmptyString; dstates_final := None; lmstate_final := None |}.

End Session.

(** ** [RNNDecoder.forward_att], [RNNDecoder.forward_mbr] and the MBR statistics
    of [RNNDecoder.forward]

    The teacher-forced decoding loops of training. The neural collaborators
    are operations on an abstract tensor type; the losses are scalars. The
    values left in [self.dstate_prev] and [self.aws] are not part of what is
    returned here. *)

Module TrainNames.
Import String.
Definition state_carry_over : string := "state_carry_over"%string.
Definition decot : string := "decot"%string.
Definition minlt : string := "minlt"%string.
Definition mocha : string := "mocha"%string.
Definition gmm : string := "gmm"%string.
End TrainNames.

Module Training.

(** What the loops call. [St] is the decoder state threaded through
    [decode_step] (recurrent state, context vector, attention weights),
    [LmSt] the state of the fused LM. *)
Record tf_ops (Tensor St LmSt : Type) : Type := {
  zero : St;                                  (* zero_state(bs), zero cv, aw = None *)
  ys_in : nat -> Tensor;                      (* ys_in[:, t:t + 1] *)
  ys_emb : nat -> Tensor;                     (* ys_emb[:, t:t + 1] *)
  predicted : Tensor -> Tensor;               (* self.output(x).detach().argmax(-1) *)
  embed : Tensor -> Tensor;                   (* self.dropout_emb(self.embed(y)) *)
  lm_decode : Tensor -> option LmSt -> Tensor * LmSt;     (* self.lm.decode *)
  (* self.decode_step(..., mode='parallel', trigger_point=...):
     new state, attention weights, attn_v *)
  decode_step : option Tensor -> St -> Tensor -> option Tensor -> St * Tensor * Tensor;
  column : Tensor -> nat -> Tensor;           (* trigger_points[:, t] *)
  output : list Tensor -> Tensor;             (* self.output(torch.cat(logits, dim=1)) *)
  random : nat -> Q                           (* the n-th value of random.random() *)
}.

Arguments zero {Tensor St LmSt} t.
Arguments ys_in {Tensor St LmSt} t.
Arguments ys_emb {Tensor St LmSt} t.
Arguments predicted {Tensor St LmSt} t.
Arguments embed {Tensor St LmSt} t.
Arguments lm_decode {Tensor St LmSt} t.
Arguments decode_step {Tensor St LmSt} t.
Arguments column {Tensor St LmSt} t.
Arguments output {Tensor St LmSt} t.
Arguments random {Tensor St LmSt} t.

(** The scalar computations after the loop of [forward_att]. *)
Record loss_ops (Tensor : Type) : Type := {
  cross_entropy_lsm : Tensor -> Q * Q;        (* loss, ppl *)
  quantity : list Tensor -> Q;                (* mean |n_tokens_pred - n_tokens_ref| *)
  latency : list Tensor -> Tensor -> Q;       (* mean |exp_trigger - trigger_points| *)
  distillation : Tensor -> Tensor -> Q;       (* kl_loss *)
  compute_accuracy : Tensor -> Q
}.

Arguments cross_entropy_lsm {Tensor} l.
Arguments quantity {Tensor} l.
Arguments latency {Tensor} l.
Arguments distillation {Tensor} l.
Arguments compute_accuracy {Tensor} l.

(** The attributes of the decoder read by the loops. [ss_prob] is
    [self._ss_prob]. *)
Record decoder : Type := {
  has_lm : bool;                              (* self.lm is not None *)
  ss_prob : Q;
  discourse_aware : String.string;
  mocha_ctc_sync : String.string;
  attn_type : String.string;
  quantity_loss_weight : Q;
  soft_label_weight : Q
}.


(** [self.dstate_prev]: [None], or the pair of lists built by [forward_att]. *)
Definition dstate_prev_t (Tensor : Type) : Type :=
  option (list (option Tensor) * list (option Tensor)).

(** The state of [for t in range(ys_in.size(1))]: the decoder state, the LM
    output and state, [logits], [aws], the number of values drawn from
    [random.random()] and [self.dstate_prev]. *)
Record loop_state (Tensor St LmSt : Type) : Type := {
  l_st : St;
  l_lmout : option Tensor;
  l_lmstate : option LmSt;
  l_logits : list Tensor;
  l_aws : list Tensor;
  l_draws : nat;
  l_prev : dstate_prev_t Tensor
}.

Arguments l_st {Tensor St LmSt} l.
Arguments l_lmout {Tensor St LmSt} l.
Arguments l_lmstate {Tensor St LmSt} l.
Arguments l_logits {Tensor St LmSt} l.
Arguments l_aws {Tensor St LmSt} l.
Arguments l_draws {Tensor St LmSt} l.
Arguments l_prev {Tensor St LmSt} l.

(** [is_sample = t > 0 and self._ss_prob > 0 and random.random() < self._ss_prob]:
    the flag and the number of values drawn so far. *)
Definition is_sample {Tensor St LmSt : Type} (ops : tf_ops Tensor St LmSt)
           (dec : decoder) (t draws : nat) : bool * nat :=
  if (0 <? t) && Qlt_bool 0 (ss_prob dec)
  then (Qlt_bool (random ops draws) (ss_prob dec), S draws)
  else (false, draws).

(** [logits[-1]] *)
Definition last_logit {Tensor : Type} (logits : list Tensor) : result Tensor :=
  index logits (length logits - 1).

(** The body of the loop of [forward_att] (lines 473-497). [bs] is the batch
    size, [ylens] is [ylens.tolist()]. *)
Definition forward_att_iter {Tensor St LmSt : Type} (ops : tf_ops Tensor St LmSt)
           (dec : decoder) (bs : nat) (ylens : list nat)
           (trigger_points : option Tensor)
           (t : nat) (s : loop_state Tensor St LmSt)
  : result (loop_state Tensor St LmSt) :=
  let (sample, draws) := is_sample ops dec t (l_draws s) in
  (* Update LM states for LM fusion *)
  lm <- (if has_lm dec then
           y_lm <- (if sample then x <- last_logit (l_logits s) ;; Ok (predicted ops x)
                    else Ok (ys_in ops t)) ;;
           let (lmout, lmstate) := lm_decode ops y_lm (l_lmstate s) in
           Ok (Some lmout, Some lmstate)
         else Ok (l_lmout s, l_lmstate s)) ;;
  (* Recurrency -> Score -> Generate *)
  y_emb <- (if sample then x <- last_logit (l_logits s) ;; Ok (embed ops (predicted ops x))
            else Ok (ys_emb ops t)) ;;
  let trigger_point :=
    match trigger_points with
    | Some tp => if String.eqb (mocha_ctc_sync dec) TrainNames.decot
                 then Some (column ops tp t) else None
    | None => None
    end in
  let '(st, aw, attn_v) := decode_step ops trigger_point (l_st s) y_emb (fst lm) in
  let s' := {| l_st := st; l_lmout := fst lm; l_lmstate := snd lm;
               l_logits := l_logits s ++ [attn_v]; l_aws := l_aws s ++ [aw];
               l_draws := draws; l_prev := l_prev s |} in
  if String.eqb (discourse_aware dec) TrainNames.state_carry_over then
    let prev := match l_prev s with
                | None => Some (repeat None bs, repeat None bs)
                | Some p => Some p
                end in
    (* [for b in ylens.tolist().index(t)]: an int is not iterable *)
    if existsb (Nat.eqb t) ylens then Raise TypeError
    else Ok {| l_st := st; l_lmout := fst lm; l_lmstate := snd lm;
               l_logits := l_logits s ++ [attn_v]; l_aws := l_aws s ++ [aw];
               l_draws := draws; l_prev := prev |}
  else Ok s'.

(** [torch.cat(l, dim=1)] on a list that may hold [None]. *)
Definition cat_optional {Tensor : Type} (l : list (option Tensor))
  : result (list Tensor) :=
  match l with
  | [] => Raise ValueError
  | _ => map_result (fun x => match x with
                             | Some t => Ok t
                             | None => Raise TypeError
                             end) l
  end.

(** What [forward_att] returns: the logits (with [return_logits]) or
    [(loss, acc, ppl, loss_qua, loss_lat)]. *)
Inductive att_result (Tensor : Type) : Type :=
| Logits (logits : Tensor)
| Losses (loss acc ppl loss_qua loss_lat : Q).

Arguments Logits {Tensor} logits.
Arguments Losses {Tensor} loss acc ppl loss_qua loss_lat.

(** [forward_att]: [len] is [ys_in.size(1)], [dstate_prev] the value of
    [self.dstate_prev] when the call starts. The number of values drawn from
    the random generator is returned beside the result. *)
Definition forward_att {Tensor St LmSt : Type} (ops : tf_ops Tensor St LmSt)
           (lops : loss_ops Tensor) (dec : decoder)
           (bs len : nat) (ylens : list nat) (return_logits : bool)
           (teacher_logits trigger_points : option Tensor)
           (dstate_prev : dstate_prev_t Tensor)
  : result (att_result Tensor * nat) :=
  let carry := String.eqb (discourse_aware dec) TrainNames.state_carry_over in
  (* [dstates['dstate']['hxs'], dstates['dstate']['cxs'] = self.dstate_prev]:
     the tuple [dstates['dstate']] does not support item assignment *)
  prev0 <- (if carry
            then match dstate_prev with
                 | Some _ => Raise TypeError
                 | None => Ok None
                 end
            else Ok dstate_prev) ;;
  s <- for_range (forward_att_iter ops dec bs ylens trigger_points) len
         {| l_st := zero ops; l_lmout := None; l_lmstate := None;
            l_logits := []; l_aws := []; l_draws := 0; l_prev := prev0 |} ;;
  (* [self.dstate_prev[0] = torch.cat(self.dstate_prev[0], dim=1)] *)
  _ <- (if carry
        then match l_prev s with
             | None => Raise TypeError
             | Some (hxs, _) =>
                 _ <- cat_optional hxs ;;
                 Raise TypeError       (* item assignment on a tuple *)
             end
        else Ok tt) ;;
  _ <- torch_cat (l_logits s) ;;
  let logits := output ops (l_logits s) in
  (* for knowledge distillation *)
  if return_logits then Ok (Logits logits, l_draws s)
  else
    (* Compute XE sequence loss (+ label smoothing) *)
    let (loss, ppl) := cross_entropy_lsm lops logits in
    (* Quantity loss *)
    loss_qua <- (if Qlt_bool 0 (quantity_loss_weight dec) then
                   _ <- py_assert (String.eqb (attn_type dec) TrainNames.mocha
                                   || String.eqb (attn_type dec) TrainNames.gmm) ;;
                   Ok (quantity lops (l_aws s))
                 else Ok 0%Q) ;;
    (* Latency loss *)
    let loss_lat :=
      match trigger_points with
      | Some tp =>
          if String.eqb (mocha_ctc_sync dec) TrainNames.decot
             || String.eqb (mocha_ctc_sync dec) TrainNames.minlt
          then latency lops (l_aws s) tp else 0%Q
      | None => 0%Q
      end in
    (* Knowledge distillation *)
    let loss :=
      match teacher_logits with
      | Some tl =>
          (loss * (1 - soft_label_weight dec)
           + distillation lops logits tl * soft_label_weight dec)%Q
      | None => loss
      end in
    (* Compute token-level accuracy in teacher-forcing *)
    let acc := compute_accuracy lops logits in
    Ok (Losses loss acc ppl loss_qua loss_lat, l_draws s).

(** The state of the loop of [forward_mbr]. *)
Record mbr_state (Tensor St LmSt : Type) : Type := {
  m_st : St;
  m_lmout : option Tensor;
  m_lmstate : option LmSt;
  m_logits : list Tensor;
  m_aws : list Tensor;
  m_draws : nat
}.

Arguments m_st {Tensor St LmSt} m.
Arguments m_lmout {Tensor St LmSt} m.
Arguments m_lmstate {Tensor St LmSt} m.
Arguments m_logits {Tensor St LmSt} m.
Arguments m_aws {Tensor St LmSt} m.
Arguments m_draws {Tensor St LmSt} m.

(** The body of the loop of [forward_mbr] (lines 571-584). *)
Definition forward_mbr_iter {Tensor St LmSt : Type} (ops : tf_ops Tensor St LmSt)
           (dec : decoder) (t : nat) (s : mbr_state Tensor St LmSt)
  : result (mbr_state Tensor St LmSt) :=
  let (sample, draws) := is_sample ops dec t (m_draws s) in
  (* Update LM states for LM fusion *)
  lm <- (if has_lm dec then
           y_lm <- (if sample then x <- last_logit (m_logits s) ;; Ok (predicted ops x)
                    else Ok (ys_in ops t)) ;;
           let (lmout, lmstate) := lm_decode ops y_lm (m_lmstate s) in
           Ok (Some lmout, Some lmstate)
         else Ok (m_lmout s, m_lmstate s)) ;;
  (* Recurrency -> Score -> Generate *)
  y_emb <- (if sample then x <- last_logit (m_logits s) ;; Ok (embed ops (predicted ops x))
            else Ok (ys_emb ops t)) ;;
  let '(st, aw, attn_v) := decode_step ops None (m_st s) y_emb (fst lm) in
  Ok {| m_st := st; m_lmout := fst lm; m_lmstate := snd lm;
        m_logits := m_logits s ++ [attn_v]; m_aws := m_aws s ++ [aw];
        m_draws := draws |}.

(** [forward_mbr]: the logits, and the number of values drawn from the random
    generator. *)
Definition forward_mbr {Tensor St LmSt : Type} (ops : tf_ops Tensor St LmSt)
           (dec : decoder) (len : nat) : result (Tensor * nat) :=
  s <- for_range (forward_mbr_iter ops dec) len
         {| m_st := zero ops; m_lmout := None; m_lmstate := None;
            m_logits := []; m_aws := []; m_draws := 0 |} ;;
  _ <- torch_cat (m_logits s) ;;
  Ok (output ops (m_logits s), m_draws s).

(** The same collaborators with another random generator and another reading
    of the predicted tokens. *)
Definition with_sampling {Tensor St LmSt : Type} (ops : tf_ops Tensor St LmSt)
           (rnd : nat -> Q) (pred : Tensor -> Tensor) : tf_ops Tensor St LmSt :=
  {| zero := zero ops; ys_in := ys_in ops; ys_emb := ys_emb ops;
     predicted := pred; embed := embed ops; lm_decode := lm_decode ops;
     decode_step := decode_step ops; column := column ops; output := output ops;
     random := rnd |}.

(** What relates the loop states of [forward_att] and of [forward_mbr]. *)
Definition same_run {Tensor St LmSt : Type} (a : loop_state Tensor St LmSt)
           (m : mbr_state Tensor St LmSt) : Prop :=
  l_st a = m_st m /\ l_lmout a = m_lmout m /\ l_lmstate a = m_lmstate m /\
  l_logits a = m_logits m /\ l_aws a = m_aws m /\ l_draws a = m_draws m.

(** *** The MBR statistics of [forward] (lines 409-416) *)

(** [t.sum()] *)
Definition tensor_sum (l : list Q) : Q := fold_right Qplus 0%Q l.

(** [a * b] on 1-d tensors: elementwise, a tensor of one element is
    broadcast, other sizes must agree. *)
Definition tensor_mul (a b : list Q) : result (list Q) :=
  if length a =? length b
  then Ok (map (fun xy => (fst xy * snd xy)%Q) (combine a b))
  else match a, b with
       | [x], _ => Ok (map (fun y => (x * y)%Q) b)
       | _, [y] => Ok (map (fun x => (x * y)%Q) a)
       | _, _ => Raise RuntimeError
       end.

(** [scores_b_norm], [exp_risk_b] and [grad_b] from the scores of the n-best
    hypotheses and their risks (edit distances to the reference). *)
Definition mbr_statistics (scores_b risks_b : list Q) : result (list Q * Q * Q) :=
  let scores_b_norm := map (fun s => (s / tensor_sum scores_b)%Q) scores_b in
  (* 2. calculate expected WER *)
  weighted <- tensor_mul scores_b_norm risks_b ;;
  let exp_risk_b := tensor_sum weighted in
  centred <- tensor_mul scores_b_norm (map (fun r => (r - exp_risk_b)%Q) risks_b) ;;
  let grad_b := tensor_sum centred in
  Ok (scores_b_norm, exp_risk_b, grad_b).

End Training.

(** ** [RNNDecoder.__init__], [reset_parameters], [start_scheduled_sampling]

    The constructor is read at the level of the dimensions of the modules it
    creates. The attention and CTC modules are created by other classes; what
    the constructor hands them (the query dimension) is kept. The call is the
    one without [lm_init]. *)

Module InitNames.
Import String.
Definition lstm : string := "lstm"%string.
Definition gru : string := "gru"%string.
Definition constant : string := "constant"%string.
Definition saturation : string := "saturation"%string.
Definition monotonic_energy_g : string := "score.monotonic_energy.v.weight_g"%string.
Definition monotonic_energy_r : string := "score.monotonic_energy.r"%string.
Definition chunk_energy_g : string := "score.chunk_energy.v.weight_g"%string.
Definition chunk_energy_r : string := "score.chunk_energy.r"%string.
Definition lm_gate_bias : string := "linear_lm_gate.fc.bias"%string.
End InitNames.

Module Init.

(** [sub in s] on strings. *)
Fixpoint contains (sub s : String.string) : bool :=
  String.prefix sub s ||
  match s with
  | String.EmptyString => false
  | String.String _ s' => contains sub s'
  end.

(** How [reset_parameters] treats one parameter. *)
Inductive initialisation : Type :=
| Skipped
| Constant (c : Q)
| Uniform (a b : Q).

(** The body of the loop of [reset_parameters] for the parameter named [n] of
    [dim] dimensions. *)
Definition reset_parameter (param_init : Q) (p : String.string * nat)
  : result initialisation :=
  let (n, dim) := p in
  if contains InitNames.monotonic_energy_g n || contains InitNames.monotonic_energy_r n
  then Ok Skipped
  else if contains InitNames.chunk_energy_g n || contains InitNames.chunk_energy_r n
  then Ok Skipped
  else if dim =? 1 then
    if contains InitNames.lm_gate_bias n
    then Ok (Constant (-(1))%Q)     (* bias in gating, for cold fusion *)
    else Ok (Constant 0%Q)          (* bias *)
  else if (dim =? 2) || (dim =? 3) || (dim =? 4) then
    Ok (Uniform (- param_init)%Q param_init)
  else Raise ValueError.

(** [reset_parameters] over what [self.named_parameters()] yields. *)
Definition reset_parameters (param_init : Q) (named_parameters : list (String.string * nat))
  : result (list initialisation) :=
  map_result (reset_parameter param_init) named_parameters.

(** What the constructor reads of [lm_fusion]. *)
Record lm_info : Type := {
  lm_n_units : nat;      (* lm_fusion.n_units *)
  lm_vocab : nat         (* lm_fusion.vocab *)
}.

(** The arguments of the constructor that decide what is built. *)
Record arguments : Type := {
  enc_n_units : nat;
  attn_type : String.string;
  rnn_type : String.string;
  n_units : nat;
  n_projs : nat;
  n_layers : nat;
  bottleneck_dim : nat;
  emb_dim : nat;
  vocab : nat;
  tie_embedding : bool;
  attn_n_heads : nat;
  ss_prob : Q;
  ss_type : String.string;
  ctc_weight : Q;
  mbr_weight : Q;
  lm_fusion : option lm_info;
  lm_fusion_type : String.string;
  global_weight : Q;
  param_init : Q
}.

(** [nn.Linear(in_features, out_features)] *)
Record linear : Type := {
  in_features : nat;
  out_features : nat
}.

(** [nn.LSTMCell(input_size, hidden_size)] or [nn.GRUCell(...)] *)
Record rnn_cell : Type := {
  input_size : nat;
  hidden_size : nat
}.

(** The modules created when [att_weight > 0]. [qdim] is the query dimension
    given to the attention module. *)
Record modules : Type := {
  qdim : nat;
  rnn : list rnn_cell;
  proj : option (list linear);     (* created only when n_projs > 0 *)
  linear_dec_feat : option linear; (* these three only with LM fusion *)
  linear_lm_feat : option linear;
  linear_lm_gate : option linear;
  output_bn : linear;
  embed : nat * nat;               (* nn.Embedding(vocab, emb_dim) *)
  output : linear
}.

(** The decoder object after construction. [_ss_prob] stays unset (here
    [None]) for an [ss_type] other than 'constant' and 'saturation'. *)
Record instance : Type := {
  i_rnn_type : Recurrency.rnn_kind;
  i_ss_prob : Q;                   (* self.ss_prob *)
  _ss_prob : option Q;
  att_weight : Q;
  loss_scale : Q;
  has_ctc : bool;                  (* self.ctc was created *)
  has_mbr : bool;                  (* self.mbr was created *)
  i_modules : option modules;
  has_lm : bool                    (* self.lm is not None *)
}.

(** [assert rnn_type in ['lstm', 'gru']] *)
Definition rnn_kind_of (s : String.string) : result Recurrency.rnn_kind :=
  if String.eqb s InitNames.lstm then Ok Recurrency.lstm
  else if String.eqb s InitNames.gru then Ok Recurrency.gru
  else Raise AssertionError.

(** The loop [for l in range(n_layers)] that creates the cells: the list
    [self.rnn] and the value of [dec_odim] after the loop. *)
Definition build_rnn (a : arguments) : list rnn_cell * nat :=
  fold_left
    (fun (acc : list rnn_cell * nat) (_ : nat) =>
       let (cells, dec_odim) := acc in
       (cells ++ [{| input_size := dec_odim; hidden_size := n_units a |}],
        if 0 <? n_projs a then n_projs a else n_units a))
    (seq 0 (n_layers a))
    ([], enc_n_units a + emb_dim a).

(** The block under [if self.att_weight > 0]. *)
Definition build_modules (a : arguments) : result modules :=
  (* Attention layer *)
  let qdim := if n_projs a =? 0 then n_units a else n_projs a in
  _ <- (if String.eqb (attn_type a) TrainNames.mocha
        then py_assert (attn_n_heads a =? 1) else Ok tt) ;;
  (* Decoder *)
  let proj := if 0 <? n_projs a
              then Some (repeat {| in_features := n_units a; out_features := n_projs a |}
                                (n_layers a))
              else None in
  let (cells, dec_odim) := build_rnn a in
  (* LM fusion *)
  fusion <-
    match lm_fusion a with
    | Some lm =>
        let dec_feat := {| in_features := dec_odim + enc_n_units a;
                           out_features := n_units a |} in
        lm_feat <-
          (if String.eqb (lm_fusion_type a) FusionNames.cold
              || String.eqb (lm_fusion_type a) FusionNames.deep
           then Ok {| in_features := lm_n_units lm; out_features := n_units a |}
           else if String.eqb (lm_fusion_type a) FusionNames.cold_prob
           then Ok {| in_features := lm_vocab lm; out_features := n_units a |}
           else Raise ValueError) ;;
        Ok (Some dec_feat, Some lm_feat,
            Some {| in_features := n_units a * 2; out_features := n_units a |},
            {| in_features := n_units a * 2; out_features := bottleneck_dim a |})
    | None =>
        Ok (None, None, None,
            {| in_features := dec_odim + enc_n_units a;
               out_features := bottleneck_dim a |})
    end ;;
  let '(dec_feat, lm_feat, lm_gate, bn) := fusion in
  _ <- (if tie_embedding a && negb (emb_dim a =? bottleneck_dim a)
        then Raise ValueError else Ok tt) ;;
  Ok {| qdim := qdim;
        rnn := cells;
        proj := proj;
        linear_dec_feat := dec_feat;
        linear_lm_feat := lm_feat;
        linear_lm_gate := lm_gate;
        output_bn := bn;
        embed := (vocab a, emb_dim a);
        output := {| in_features := bottleneck_dim a; out_features := vocab a |} |}.

(** [__init__]. [named_parameters] is what [self.named_parameters()] yields
    when [reset_parameters] is called. *)
Definition __init__ (a : arguments) (named_parameters : list (String.string * nat))
  : result instance :=
  kind <- rnn_kind_of (rnn_type a) ;;
  let _ss_prob :=
    if String.eqb (ss_type a) InitNames.constant then Some (ss_prob a)
    else if String.eqb (ss_type a) InitNames.saturation then Some 0%Q  (* start from 0 *)
    else None in
  let att_weight := (global_weight a - ctc_weight a)%Q in
  let loss_scale := if Qlt_bool 0 (mbr_weight a) then (1 # 100)%Q else 1%Q in
  ms <- (if Qlt_bool 0 att_weight
         then m <- build_modules a ;; Ok (Some m)
         else Ok None) ;;
  _ <- reset_parameters (param_init a) named_parameters ;;
  Ok {| i_rnn_type := kind;
        i_ss_prob := ss_prob a;
        _ss_prob := _ss_prob;
        att_weight := att_weight;
        loss_scale := loss_scale;
        has_ctc := Qlt_bool 0 (ctc_weight a);
        has_mbr := Qlt_bool 0 (mbr_weight a);
        i_modules := ms;
        has_lm := match lm_fusion a with Some _ => true | None => false end |}.

(** [start_scheduled_sampling] *)
Definition start_scheduled_sampling (d : instance) : instance :=
  {| i_rnn_type := i_rnn_type d;
     i_ss_prob := i_ss_prob d;
     _ss_prob := Some (i_ss_prob d);
     att_weight := att_weight d;
     loss_scale := loss_scale d;
     has_ctc := has_ctc d;
     has_mbr := has_mbr d;
     i_modules := i_modules d;
     has_lm := has_lm d |}.

(** The attributes read by [recurrency] and [zero_state]. *)
Definition decoder_of (a : arguments) (d : instance) : Recurrency.decoder :=
  {| Recurrency.rnn_type := i_rnn_type d;
     Recurrency.n_layers := n_layers a;
     Recurrency.n_projs := n_projs a |}.

(** *** Tensors by their last dimension

    A tensor is read as the size of its last dimension; [None] stands for the
    result of a module call that raised. *)
Definition shape : Type := option nat.

(** A linear layer accepts an input of [in_features]. *)
Definition apply_linear (m : option linear) (x : shape) : shape :=
  match m, x with
  | Some l, Some d => if d =? in_features l then Some (out_features l) else None
  | _, _ => None
  end.

(** A cell accepts an input of [input_size] and states of [hidden_size]. *)
Definition apply_cell (c : option rnn_cell) (x : shape) (hs : list shape) : shape :=
  match c, x with
  | Some c, Some d =>
      if (d =? input_size c)
         && forallb (fun h => match h with
                              | Some k => k =? hidden_size c
                              | None => false
                              end) hs
      then Some (hidden_size c) else None
  | _, _ => None
  end.

(** [torch.cat([a, b], dim=-1)] *)
Definition shape_cat (a b : shape) : shape :=
  match a, b with
  | Some x, Some y => Some (x + y)
  | _, _ => None
  end.

(** [a * b], with broadcasting of a dimension of size one. *)
Definition shape_mul (a b : shape) : shape :=
  match a, b with
  | Some x, Some y =>
      if x =? y then Some x
      else if x =? 1 then Some y
      else if y =? 1 then Some x
      else None
  | _, _ => None
  end.

Definition shape_cell_ops (m : modules) : Recurrency.cell_ops shape :=
  {| Recurrency.lstm_cell := fun l x hc =>
       let h := apply_cell (nth_error (rnn m) l) x [fst hc; snd hc] in (h, h);
     Recurrency.gru_cell := fun l x h => apply_cell (nth_error (rnn m) l) x [h];
     Recurrency.dropout := fun x => x;
     Recurrency.proj := fun l x =>
       apply_linear (match proj m with
                     | Some ps => nth_error ps l
                     | None => None
                     end) x;
     Recurrency.tanh := fun x => x |}.

(** [self.lm.output] maps the LM's hidden units to its vocabulary. *)
Definition shape_gen_ops (a : arguments) (m : modules) : DecodeStep.gen_ops shape :=
  {| DecodeStep.cat := shape_cat;
     DecodeStep.mul := shape_mul;
     DecodeStep.sigmoid := fun x => x;
     DecodeStep.gen_tanh := fun x => x;
     DecodeStep.linear_dec_feat := apply_linear (linear_dec_feat m);
     DecodeStep.linear_lm_feat := apply_linear (linear_lm_feat m);
     DecodeStep.linear_lm_gate := apply_linear (linear_lm_gate m);
     DecodeStep.output_bn := apply_linear (Some (output_bn m));
     DecodeStep.lm_output := fun x =>
       match lm_fusion a with
       | Some lm => apply_linear (Some {| in_features := lm_n_units lm;
                                          out_features := lm_vocab lm |}) x
       | None => None
       end |}.

(** The attention module accepts a query of [qdim] and returns a context
    vector of the encoder's dimension. *)
Definition shape_attention (a : arguments) (m : modules)
  : DecodeStep.attention shape unit unit :=
  {| DecodeStep.score := fun _ q _ =>
       (match q with
        | Some d => if d =? qdim m then Some (enc_n_units a) else None
        | None => None
        end, tt) |}.

(** The dimension that leaves a layer, and the dimension that enters layer
    [l]. *)
Definition out_dim (a : arguments) : nat :=
  if 0 <? n_projs a then n_projs a else n_units a.

Definition layer_dim (a : arguments) (l : nat) : nat :=
  match l with
  | O => enc_n_units a + emb_dim a
  | S _ => out_dim a
  end.

(** A recurrent state with one slice of [n_units] per layer. *)
Definition state_of_units (a : arguments) (d : instance)
           (dst : Recurrency.dstate_t shape) : Prop :=
  fst dst = repeat (Some (n_units a)) (n_layers a) /\
  match i_rnn_type d with
  | Recurrency.lstm => snd dst = Some (repeat (Some (n_units a)) (n_layers a))
  | Recurrency.gru => True
  end.

End Init.

(** ** Concrete decoders and inputs *)

(** A one-layer LSTM decoder with a projection, on the integer cell. *)
Definition proj_decoder : Recurrency.decoder :=
  {| Recurrency.rnn_type := Recurrency.lstm;
     Recurrency.n_layers := 1;
     Recurrency.n_projs := 1 |}.

(** Two utterances emitting [1 2 ...] and [5 6 2 ...], end symbol 2. *)
Definition two_streams : Greedy.stepper nat :=
  Greedy.stream_stepper [[1; 2; 3; 2]; [5; 6; 2; 2]] 9.


Definition fwd_decoder : Greedy.decoder :=
  {| Greedy.eos := 2; Greedy.bwd := false; Greedy.replace_sos := false |}.


(** A beam of width [w] over four tokens, without LM, CTC or coverage, with
    length-penalty weight [p] and end-symbol threshold [thr]. *)
Definition beam_params (w : nat) (p : Q) (gnmt : bool) (min_len thr : Q)
  : BeamSearch.params :=
  {| BeamSearch.recog_oracle := false;
     BeamSearch.recog_beam_width := w;
     BeamSearch.recog_ctc_weight := 0;
     BeamSearch.recog_max_len_ratio := 1;
     BeamSearch.recog_min_len_ratio := min_len;
     BeamSearch.recog_length_penalty := p;
     BeamSearch.recog_coverage_penalty := 0;
     BeamSearch.recog_coverage_threshold := 0;
     BeamSearch.recog_length_norm := false;
     BeamSearch.recog_lm_weight := 0;
     BeamSearch.recog_gnmt_decoding := gnmt;
     BeamSearch.recog_eos_threshold := thr |}.

(** Width 2, no penalties, threshold 1.5. *)
Definition plain_params : BeamSearch.params := beam_params 2 0 false 0 (3 # 2).

(** Length-penalty weight [p]. *)
Definition lp_params (p : Q) (gnmt : bool) : BeamSearch.params :=
  beam_params 2 p gnmt 0 (3 # 2).



Definition eos1_decoder : BeamSearch.decoder :=
  {| BeamSearch.eos := 1; BeamSearch.bwd := false; BeamSearch.replace_sos := false |}.

(** Log-probabilities of the first and of the later steps. *)
Definition two_step_rows (t j : nat) : list Q :=
  match t with
  | O => [-(3 # 1); -(5 # 1); -(1 # 1); -(2 # 1)]%Q
  | _ => [-(3 # 1); -(1 # 2); -(4 # 1); -(2 # 1)]%Q
  end.

Definition plain_collab : BeamSearch.collaborators BeamSearch.no_payload :=
  BeamSearch.table_collab two_step_rows [] [].

Definition eos_best_row : list Q := [-(4 # 1); -(1 # 1); -(3 # 1); -(2 # 1)]%Q.

(** The streaming LSTM decoder with MoChA attention and end symbol 1. *)
Definition mocha_decoder : ChunkSync.decoder :=
  {| ChunkSync.c_eos := 1; ChunkSync.attn_type := AttnNames.mocha;
     ChunkSync.c_rnn_type := Recurrency.lstm |}.

(** The same decoder with GRU cells. *)
Definition gru_mocha_decoder : ChunkSync.decoder :=
  {| ChunkSync.c_eos := 1; ChunkSync.attn_type := AttnNames.mocha;
     ChunkSync.c_rnn_type := Recurrency.gru |}.

(** A chunk in which no hypothesis finds a trigger point: the attention
    weights sum to zero at every step. *)
Definition silent_chunk_collab : ChunkSync.collaborators ChunkSync.sum_payload :=
  ChunkSync.table_collab two_step_rows (fun _ _ => 0%Q).

(** A chunk whose best token is the end symbol at every step, and parameters
    with [min_len_ratio = 1]. *)
Definition short_chunk_collab : ChunkSync.collaborators ChunkSync.sum_payload :=
  ChunkSync.table_collab (fun _ _ => eos_best_row) (fun _ _ => 1%Q).

Definition short_chunk_params : BeamSearch.params := beam_params 2 0 false 1 (3 # 2).

(** The state of a decoder that has not decoded yet. *)
Definition idle_session : ChunkSync.session ChunkSync.sum_payload :=
  {| ChunkSync.dstates_final := None;
     ChunkSync.lmstate_final := None;
     ChunkSync.n_frames := None;
     ChunkSync.ctc_chunks := None;
     ChunkSync.score_resets := 0 |}.


(** A step whose attention scores prefer token 0 to token 2 while the CTC
    prefix scores prefer token 2: with CTC weight 1/2 the second sort swaps
    the two candidates. The LM row scores token [i] with [-(i + 1) / 10]. *)
Definition resort_rows : list Q := [-(1 # 1); -(5 # 1); -(2 # 1); -(6 # 1)]%Q.
Definition resort_lm_row : list Q := [-(1 # 10); -(2 # 10); -(3 # 10); -(4 # 10)]%Q.
Definition resort_ctc_row : list Q := [-(10 # 1); 0; 0; 0]%Q.

Definition resort_collab : BeamSearch.collaborators BeamSearch.no_payload :=
  BeamSearch.table_collab (fun _ _ => resort_rows) resort_lm_row resort_ctc_row.

Definition resort_params : BeamSearch.params :=
  {| BeamSearch.recog_oracle := false;
     BeamSearch.recog_beam_width := 2;
     BeamSearch.recog_ctc_weight := 1 # 2;
     BeamSearch.recog_max_len_ratio := 1;
     BeamSearch.recog_min_len_ratio := 0;
     BeamSearch.recog_length_penalty := 0;
     BeamSearch.recog_coverage_penalty := 0;
     BeamSearch.recog_coverage_threshold := 0;
     BeamSearch.recog_length_norm := false;
     BeamSearch.recog_lm_weight := 1 # 10;
     BeamSearch.recog_gnmt_decoding := false;
     BeamSearch.recog_eos_threshold := 3 # 2 |}.



(** The double nearest to 0.6, which is below 0.6, as [min_len_ratio]. *)
Definition double_six_tenths : Q := 5404319552844595 # 9007199254740992.

Definition min_len_params : BeamSearch.params :=
  beam_params 2 0 false double_six_tenths (3 # 2).

(** A hypothesis of 15 tokens after the start symbol. *)
Definition long_hyp : BeamSearch.hypothesis BeamSearch.no_payload :=
  @BeamSearch.Build_hypothesis BeamSearch.no_payload
    (1 :: repeat 3 15) 0 0 (Some 0%Q) 0 0 tt tt (None :: repeat (Some tt) 15) None None.

(** A decoder object whose payloads are trivial: the collaborators return the
    attention scores [rows t j] and a recurrent state for every row. *)
Definition unit_payload : BeamSearch.payload := Session.payload_of unit unit unit unit unit.

Definition session_collab (rows : nat -> nat -> list Q)
  : BeamSearch.collaborators unit_payload :=
  @BeamSearch.Build_collaborators unit_payload
    (fun t _ _ j => @BeamSearch.Build_step_out unit_payload (Some tt) tt tt (rows t j) None [])
    (fun _ _ _ _ => (0%Q, tt))
    tt
    (fun _ _ _ _ => 0%Q)
    (fun x p => Qpower x (Qfloor p))
    by_index.

(** An utterance of three frames. *)
Definition short_utt : Session.utt_input unit_payload :=
  {| Session.ui_collab := session_collab two_step_rows; Session.ui_elen := 3 |}.

Module SpeakerNames.
Import String.
Definition anna : string := "anna"%string.
End SpeakerNames.

(** The session of a decoder that decoded an utterance of [anna] before. *)
Definition anna_session : Session.session unit unit :=
  {| Session.prev_spk := SpeakerNames.anna;
     Session.dstates_final := Some tt;
     Session.lmstate_final := None |}.

(** Streaming parameters with a negative length-penalty weight. *)
Definition mocha_decoder_params_neg : BeamSearch.params :=
  beam_params 2 (-(1 # 4)) true 0 (3 # 2).

(** Training collaborators over integer "tensors": the decoder state counts
    the steps, and a logit is the state plus the embedded token. *)
Definition count_tf_ops : Training.tf_ops nat nat nat :=
  {| Training.zero := 0;
     Training.ys_in := fun t => 10 + t;
     Training.ys_emb := fun t => 10 + t;
     Training.predicted := fun x => 2 * x;
     Training.embed := fun y => y;
     Training.lm_decode := fun y _ => (y, 0);
     Training.decode_step := fun _ st y_emb _ => (S st, st, st + y_emb);
     Training.column := fun tp t => tp + t;
     Training.output := fun logits => list_sum logits;
     Training.random := fun _ => 0%Q |}.

Definition count_loss_ops : Training.loss_ops nat :=
  {| Training.cross_entropy_lsm := fun logits => (inject_Z (Z.of_nat logits), 1%Q);
     Training.quantity := fun aws => inject_Z (Z.of_nat (length aws));
     Training.latency := fun aws tp => inject_Z (Z.of_nat tp);
     Training.distillation := fun _ _ => 0%Q;
     Training.compute_accuracy := fun _ => 1%Q |}.

(** A decoder without LM fusion, with the given [discourse_aware] and
    [_ss_prob]. *)
Definition train_decoder (discourse : String.string) (p : Q) : Training.decoder :=
  {| Training.has_lm := false;
     Training.ss_prob := p;
     Training.discourse_aware := discourse;
     Training.mocha_ctc_sync := String.EmptyString;
     Training.attn_type := String.EmptyString;
     Training.quantity_loss_weight := 0;
     Training.soft_label_weight := 0 |}.

Module ParameterNames.
Import String.
Definition embed_weight : string := "embed.weight"%string.
Definition output_bias : string := "output.bias"%string.
Definition gate_bias : string := "linear_lm_gate.bias"%string.
End ParameterNames.

(** A two-layer LSTM decoder with projection and cold fusion on the LM's
    output probabilities. *)
Definition las_arguments : Init.arguments :=
  {| Init.enc_n_units := 4;
     Init.attn_type := TrainNames.mocha;
     Init.rnn_type := InitNames.lstm;
     Init.n_units := 8;
     Init.n_projs := 3;
     Init.n_layers := 2;
     Init.bottleneck_dim := 5;
     Init.emb_dim := 6;
     Init.vocab := 10;
     Init.tie_embedding := false;
     Init.attn_n_heads := 1;
     Init.ss_prob := 1 # 5;
     Init.ss_type := InitNames.saturation;
     Init.ctc_weight := 3 # 10;
     Init.mbr_weight := 0;
     Init.lm_fusion := Some {| Init.lm_n_units := 7; Init.lm_vocab := 10 |};
     Init.lm_fusion_type := FusionNames.cold_prob;
     Init.global_weight := 1;
     Init.param_init := 1 # 10 |}.

Definition las_parameters : list (String.string * nat) :=
  [(ParameterNames.embed_weight, 2); (ParameterNames.gate_bias, 1);
   (ParameterNames.output_bias, 1)].

(** * Properties *)

Unset Implicit Arguments.

(** ** The error monad and the loop combinator *)

Lemma bind_ok {A B : Type} (m : result A) (k : A -> result B) (b : B) :
  bind m k = Ok b -> exists a, m = Ok a /\ k a = Ok b.
Proof.
  destruct m as [a|e]; simpl; intros H.
  - exists a; split; [reflexivity | exact H].
  - discriminate H.
Qed.

Lemma index_ok {A : Type} (l : list A) (i : nat) :
  i < length l -> exists a, index l i = Ok a /\ nth_error l i = Some a.
Proof.
  intros Hi. unfold index.
  destruct (nth_error l i) as [a|] eqn:E.
  - exists a; split; reflexivity.
  - apply nth_error_None in E. lia.
Qed.

(** Invariant rule for [for i in range(...)]: an invariant established before the
    loop and carried by every body run holds after the loop, which then
    returns normally. *)
Lemma for_range_from_inv {St : Type} (body : nat -> St -> result St)
      (I : nat -> St -> Prop) :
  forall n i s,
    I i s ->
    (forall k t, i <= k < i + n -> I k t -> exists t', body k t = Ok t' /\ I (S k) t') ->
    exists s', for_range_from body i n s = Ok s' /\ I (i + n) s'.
Proof.
  induction n as [|n IH]; intros i s Hi Hbody; simpl.
  - exists s. rewrite Nat.add_0_r. split; [reflexivity | exact Hi].
  - destruct (Hbody i s) as (t' & Ht' & HI'); [lia | exact Hi |].
    rewrite Ht'. simpl.
    destruct (IH (S i) t' HI') as (s' & Hs' & HIs').
    + intros k t Hk. apply Hbody. lia.
    + exists s'. split; [exact Hs' |].
      replace (i + S n) with (S i + n) by lia. exact HIs'.
Qed.

Lemma for_range_from_post {St : Type} (body : nat -> St -> result St)
      (I : nat -> St -> Prop) :
  forall n i s s',
    I i s ->
    (forall k t t', i <= k < i + n -> I k t -> body k t = Ok t' -> I (S k) t') ->
    for_range_from body i n s = Ok s' -> I (i + n) s'.
Proof.
  induction n as [|n IH]; intros i s s' Hi Hbody; simpl; intros Hrun.
  - injection Hrun as <-. rewrite Nat.add_0_r. exact Hi.
  - apply bind_ok in Hrun. destruct Hrun as (t' & Ht' & Hrest).
    replace (i + S n) with (S i + n) by lia.
    apply (IH (S i) t' s').
    + apply (Hbody i s t'); [lia | exact Hi | exact Ht'].
    + intros k t u Hk. apply Hbody. lia.
    + exact Hrest.
Qed.

(** Invariant rules for a loop with [break]: [I] holds at the loop head, [Q]
    holds wherever the loop is left. *)
Lemma for_break_from_total {St : Type} (body : nat -> St -> result (flow St))
      (I : nat -> St -> Prop) (Q : St -> Prop) :
  forall n i s,
    I i s ->
    (forall k t, i <= k < i + n -> I k t ->
       exists r, body k t = Ok r /\
                 match r with Continue t' => I (S k) t' | Break t' => Q t' end) ->
    (forall t, I (i + n) t -> Q t) ->
    exists s', for_break_from body i n s = Ok s' /\ Q s'.
Proof.
  induction n as [|n IH]; intros i s Hi Hbody Hend; simpl.
  - exists s. split; [reflexivity|]. apply Hend. rewrite Nat.add_0_r. exact Hi.
  - destruct (Hbody i s) as (r & Hr & Hpost); [lia | exact Hi |].
    rewrite Hr. simpl. destruct r as [t'|t'].
    + apply (IH (S i) t' Hpost).
      * intros k t Hk. apply Hbody. lia.
      * intros t Ht. apply Hend. replace (i + S n) with (S i + n) by lia. exact Ht.
    + exists t'. split; [reflexivity | exact Hpost].
Qed.

Lemma for_break_from_post {St : Type} (body : nat -> St -> result (flow St))
      (I : nat -> St -> Prop) (Q : St -> Prop) :
  forall n i s s',
    I i s ->
    (forall k t r, i <= k < i + n -> I k t -> body k t = Ok r ->
       match r with Continue t' => I (S k) t' | Break t' => Q t' end) ->
    (forall t, I (i + n) t -> Q t) ->
    for_break_from body i n s = Ok s' -> Q s'.
Proof.
  induction n as [|n IH]; intros i s s' Hi Hbody Hend; simpl; intros Hrun.
  - injection Hrun as <-. apply Hend. rewrite Nat.add_0_r. exact Hi.
  - apply bind_ok in Hrun. destruct Hrun as (r & Hr & Hrest).
    pose proof (Hbody i s r ltac:(lia) Hi Hr) as Hpost.
    destruct r as [t'|t'].
    + apply (IH (S i) t' s' Hpost).
      * intros k t u Hk. apply Hbody. lia.
      * intros t Ht. apply Hend. replace (i + S n) with (S i + n) by lia. exact Ht.
      * exact Hrest.
    + injection Hrest as <-. exact Hpost.
Qed.

(** ** Lists updated by index *)

Lemma length_set_nth {A : Type} (l : list A) (i : nat) (v : A) :
  length (set_nth l i v) = length l.
Proof.
  revert i; induction l as [|h t IH]; intros [|i]; simpl; try reflexivity.
  rewrite IH. reflexivity.
Qed.

Lemma nth_set_nth_eq {A : Type} (l : list A) (i : nat) (v d : A) :
  i < length l -> nth i (set_nth l i v) d = v.
Proof.
  revert i; induction l as [|h t IH]; intros [|i] Hi; simpl in *; try lia.
  - reflexivity.
  - apply IH. lia.
Qed.

Lemma nth_set_nth_neq {A : Type} (l : list A) (i j : nat) (v d : A) :
  i <> j -> nth j (set_nth l i v) d = nth j l d.
Proof.
  revert i j; induction l as [|h t IH]; intros [|i] [|j] Hij; simpl; try reflexivity.
  - lia.
  - apply IH. lia.
Qed.

Lemma index_nth {A : Type} (l : list A) (i : nat) (d : A) :
  i < length l -> index l i = Ok (nth i l d).
Proof.
  intros Hi. unfold index.
  rewrite (nth_error_nth' l d Hi). reflexivity.
Qed.

Lemma index_ok_inv {A : Type} (l : list A) (i : nat) (a : A) :
  index l i = Ok a -> i < length l /\ forall d, nth i l d = a.
Proof.
  unfold index. destruct (nth_error l i) as [x|] eqn:E; [|discriminate].
  intros H; injection H as <-. split.
  - apply nth_error_Some. congruence.
  - intros d. apply nth_error_nth. exact E.
Qed.

Lemma map_result_app {A B : Type} (f : A -> result B) (l1 l2 : list A) :
  map_result f (l1 ++ l2) =
  (ys1 <- map_result f l1 ;; ys2 <- map_result f l2 ;; Ok (ys1 ++ ys2)).
Proof.
  induction l1 as [|x t IH]; simpl.
  - destruct (map_result f l2); reflexivity.
  - destruct (f x) as [y|e]; simpl; [|reflexivity].
    rewrite IH. destruct (map_result f t) as [ys|e]; simpl; [|reflexivity].
    destruct (map_result f l2); reflexivity.
Qed.

Lemma map_result_length {A B : Type} (f : A -> result B) (l : list A) (ys : list B) :
  map_result f l = Ok ys -> length ys = length l.
Proof.
  revert ys; induction l as [|x t IH]; simpl; intros ys H.
  - injection H as <-. reflexivity.
  - apply bind_ok in H. destruct H as (y & _ & H).
    apply bind_ok in H. destruct H as (ys' & Hys' & H).
    injection H as <-. simpl. rewrite (IH ys' Hys'). reflexivity.
Qed.

Lemma map_result_total {A B : Type} (f : A -> result B) (P : A -> Prop) (R : A -> B -> Prop)
      (l : list A) :
  Forall P l ->
  (forall x, P x -> exists y, f x = Ok y /\ R x y) ->
  exists ys, map_result f l = Ok ys /\ Forall2 R l ys.
Proof.
  intros Hl Hf. induction Hl as [|x t Hx Ht IH]; simpl.
  - exists []. split; [reflexivity | constructor].
  - destruct (Hf x Hx) as (y & Ey & Ry). destruct IH as (ys & Eys & Rys).
    rewrite Ey, Eys. simpl. exists (y :: ys). split; [reflexivity|].
    constructor; assumption.
Qed.
Lemma map_result_Forall2 {A B : Type} (f : A -> result B) (l : list A) (ys : list B) :
  map_result f l = Ok ys -> Forall2 (fun x y => f x = Ok y) l ys.
Proof.
  revert ys; induction l as [|x t IH]; simpl; intros ys H.
  - injection H as <-. constructor.
  - apply bind_ok in H. destruct H as (y & Ey & H).
    apply bind_ok in H. destruct H as (ys' & Eys' & H).
    injection H as <-. constructor; [exact Ey | apply IH; exact Eys'].
Qed.

(** ** Rounding keeps the sign *)















(** ** Recurrent state cell *)

Section RecurrencyFacts.
Import Recurrency.
Context {Tensor : Type} (ops : cell_ops Tensor) (dec : decoder).
Context (dst : dstate_t Tensor) (inputs : Tensor).

Lemma run_cell_ok (l : nat) (x : Tensor) :
  well_shaped dec dst -> l < n_layers dec ->
  exists h c, run_cell ops dec dst l x = Ok (h, c) /\
              (rnn_type dec = lstm -> c <> None) /\
              (rnn_type dec = gru -> c = None).
Proof.
  intros [Hh Hc] Hl. unfold run_cell.
  destruct (index_ok (fst dst) l) as (hx & Ehx & _); [lia|].
  destruct (rnn_type dec) eqn:Ety.
  - destruct Hc as (cs & Ecs & Hlen).
    destruct (index_ok cs l) as (cx & Ecx & _); [lia|].
    rewrite Ehx, Ecs. simpl. rewrite Ecx. simpl.
    destruct (lstm_cell ops l x (hx, cx)) as [h c].
    exists h, (Some c). repeat split; congruence.
  - rewrite Ehx. simpl.
    exists (gru_cell ops l x hx), None. repeat split; congruence.
Qed.

Lemma layer_body_inv (k : nat) (s : loop_state Tensor) :
  well_shaped dec dst -> k < n_layers dec -> layers_inv ops dec dst inputs k s ->
  exists s', layer_body ops dec dst k s = Ok s' /\ layers_inv ops dec dst inputs (S k) s'.
Proof.
  intros Hws Hk (Hin & Hhx & Hcx & Hsc).
  destruct (run_cell_ok k (ls_dout s) Hws Hk) as (h & c & Erun & Hl & Hg).
  unfold layer_body. rewrite Erun. simpl.
  eexists. split; [reflexivity|].
  unfold layers_inv; simpl.
  repeat split.
  - rewrite Hin. simpl. rewrite Erun. reflexivity.
  - rewrite length_app. simpl. lia.
  - intros Ety. destruct c as [c|].
    + rewrite length_app. simpl. rewrite (Hcx Ety). lia.
    + exfalso. apply (Hl Ety). reflexivity.
  - destruct k as [|k]; simpl.
    + exists (layer_output ops dec 0 h). split; [|reflexivity].
      simpl in Hin. injection Hin as Hd. rewrite Hd, Erun. reflexivity.
    + exact Hsc.
Qed.

Lemma layers_loop :
  well_shaped dec dst ->
  exists s,
    for_range (layer_body ops dec dst) (n_layers dec)
      {| ls_dout := inputs; ls_hxs := []; ls_cxs := []; ls_score := None |} = Ok s /\
    layers_inv ops dec dst inputs (n_layers dec) s.
Proof.
  intros Hws. unfold for_range.
  destruct (for_range_from_inv (layer_body ops dec dst) (layers_inv ops dec dst inputs) (n_layers dec) 0
              {| ls_dout := inputs; ls_hxs := []; ls_cxs := []; ls_score := None |})
    as (s & Es & Hs).
  - unfold layers_inv; simpl. repeat split; reflexivity.
  - intros k t Hk Ht. apply layer_body_inv; [exact Hws | lia | exact Ht].
  - exists s. split; [exact Es | exact Hs].
Qed.

(** C4 (amended). With at least one layer and a state slice per layer,
    [recurrency] returns; its score view is the first layer's output after
    dropout AND after the projection with tanh when [n_projs > 0] (it is the
    plain post-dropout output only when no projection is configured); its
    generation view is the last layer's output, likewise after the projection
    when one is configured. *)
Theorem recurrency_views :
  0 < n_layers dec -> well_shaped dec dst ->
  exists r h0 c0 x h c,
    recurrency ops dec inputs dst = Ok r /\
    run_cell ops dec dst 0 inputs = Ok (h0, c0) /\
    dout_score r =
      Some (if 0 <? n_projs dec
            then tanh ops (proj ops 0 (dropout ops h0))
            else dropout ops h0) /\
    layer_input ops dec dst inputs (n_layers dec - 1) = Ok x /\
    run_cell ops dec dst (n_layers dec - 1) x = Ok (h, c) /\
    dout_gen r =
      (if 0 <? n_projs dec
       then tanh ops (proj ops (n_layers dec - 1) (dropout ops h))
       else dropout ops h).
Proof.
  intros Hpos Hws.
  destruct (layers_loop Hws) as (s & Es & Hin & Hhx & Hcx & Hsc).
  destruct (n_layers dec) as [|n] eqn:En; [lia|].
  destruct Hsc as (d & Ed & Esc).
  simpl in Ed.
  destruct (run_cell ops dec dst 0 inputs) as [[h0 c0]|e] eqn:E0; [|discriminate Ed].
  simpl in Ed. injection Ed as <-.
  simpl in Hin. replace (S n - 1) with n by lia.
  destruct (layer_input ops dec dst inputs n) as [x|e] eqn:Ex; [|discriminate Hin].
  simpl in Hin.
  destruct (run_cell ops dec dst n x) as [[h c]|e] eqn:Er; [|discriminate Hin].
  simpl in Hin. injection Hin as Hd.
  unfold recurrency. rewrite En, Es. simpl.
  assert (Hst : torch_stack (ls_hxs s) = Ok (ls_hxs s)).
  { destruct (ls_hxs s); [simpl in Hhx; lia | reflexivity]. }
  rewrite Hst. simpl.
  destruct (rnn_type dec) eqn:Ety.
  - assert (Hsc : torch_stack (ls_cxs s) = Ok (ls_cxs s)).
    { specialize (Hcx eq_refl). destruct (ls_cxs s); [simpl in Hcx; lia | reflexivity]. }
    rewrite Hsc. simpl.
    eexists _, h0, c0, x, h, c. simpl.
    repeat split; try reflexivity; try assumption. symmetry; exact Hd.
  - simpl.
    eexists _, h0, c0, x, h, c. simpl.
    repeat split; try reflexivity; try assumption. symmetry; exact Hd.
Qed.

End RecurrencyFacts.

Lemma recurrency_views_witness :
  exists r h0 c0 x h c,
    Recurrency.recurrency Recurrency.z_ops proj_decoder 3%Z ([0%Z], Some [0%Z]) = Ok r /\
    Recurrency.run_cell Recurrency.z_ops proj_decoder ([0%Z], Some [0%Z]) 0 3%Z = Ok (h0, c0) /\
    Recurrency.dout_score r = Some 7%Z /\
    Recurrency.layer_input Recurrency.z_ops proj_decoder ([0%Z], Some [0%Z]) 3%Z 0 = Ok x /\
    Recurrency.run_cell Recurrency.z_ops proj_decoder ([0%Z], Some [0%Z]) 0 x = Ok (h, c) /\
    Recurrency.dout_gen r = 7%Z.
Proof.
  destruct (@recurrency_views Z Recurrency.z_ops proj_decoder ([0%Z], Some [0%Z]) 3%Z)
    as (r & h0 & c0 & x & h & c & H1 & H2 & H3 & H4 & H5 & H6).
  - simpl. lia.
  - split; simpl; [lia | exists [0%Z]; split; [reflexivity | simpl; lia]].
  - exists r, h0, c0, x, h, c.
    simpl in H2. injection H2 as <- <-.
    simpl in H4. injection H4 as <-.
    simpl in H5. injection H5 as <- <-.
    simpl in H3, H6.
    repeat split; assumption.
Defined.

(** C4 as stated fails: with a projection configured the score view is not the
    first layer's pre-projection (post-dropout) output. *)
Lemma score_view_is_projected :
  exists r h0 c0,
    Recurrency.recurrency Recurrency.z_ops proj_decoder 3%Z ([0%Z], Some [0%Z]) = Ok r /\
    Recurrency.run_cell Recurrency.z_ops proj_decoder ([0%Z], Some [0%Z]) 0 3%Z = Ok (h0, c0) /\
    Recurrency.dout_score r <> Some (Recurrency.dropout Recurrency.z_ops h0).
Proof.
  eexists _, _, _. split; [reflexivity|]. split; [reflexivity|].
  simpl. discriminate.
Qed.

(** ** Greedy decoding *)

Section GreedyFacts.
Import Greedy.
Context {St : Type} (m : stepper St) (dec : decoder).

(** *** The length counter of one step *)

Lemma count_body_inv (y : list nat) (bs : nat) (fl : list bool) (yl : list nat)
      (k : nat) (s : list bool * list nat) :
  length y = bs -> k < bs -> count_inv dec y bs fl yl k s ->
  exists s', count_body dec y k s = Ok s' /\ count_inv dec y bs fl yl (S k) s'.
Proof.
  intros Hy Hk (Hlf & Hly & Hnth). destruct s as [cf cl]. simpl in *.
  unfold count_body.
  rewrite (index_nth cf k false) by lia. simpl.
  destruct (Hnth k Hk) as [Hfk Hlk].
  rewrite Nat.ltb_irrefl in Hfk, Hlk.
  destruct (nth k cf false) eqn:Ef; simpl.
  - eexists. split; [reflexivity|]. unfold count_inv. simpl.
    split; [exact Hlf|]. split; [exact Hly|].
    intros b Hb. destruct (Hnth b Hb) as [H1 H2].
    destruct (Nat.eq_dec b k) as [->|Hne].
    + assert (Hlt : (k <? S k) = true) by (apply Nat.ltb_lt; lia).
      rewrite Hlt, <- Hfk. simpl. split; [exact Ef | exact Hlk].
    + destruct (b <? k) eqn:Ebk.
      * assert (Hlt : (b <? S k) = true)
          by (apply Nat.ltb_lt; apply Nat.ltb_lt in Ebk; lia).
        rewrite Hlt. split; assumption.
      * assert (Hlt : (b <? S k) = false)
          by (apply Nat.ltb_ge; apply Nat.ltb_ge in Ebk; lia).
        rewrite Hlt. split; assumption.
  - rewrite (index_nth y k 0) by lia. simpl.
    rewrite (index_nth cl k 0) by lia. simpl.
    eexists. split; [reflexivity|]. unfold count_inv. simpl.
    split; [destruct (nth k y 0 =? eos dec); [rewrite length_set_nth|]; exact Hlf|].
    split; [rewrite length_set_nth; exact Hly|].
    intros b Hb. destruct (Hnth b Hb) as [H1 H2].
    destruct (Nat.eq_dec b k) as [->|Hne].
    + assert (Hlt : (k <? S k) = true) by (apply Nat.ltb_lt; lia).
      rewrite Hlt, <- Hfk. simpl. split.
      * destruct (nth k y 0 =? eos dec).
        -- apply nth_set_nth_eq. lia.
        -- exact Ef.
      * rewrite nth_set_nth_eq by lia. rewrite Hlk. reflexivity.
    + assert (Hf' : nth b (if nth k y 0 =? eos dec then set_nth cf k true else cf) false
                    = nth b cf false).
      { destruct (nth k y 0 =? eos dec); [apply nth_set_nth_neq; lia | reflexivity]. }
      rewrite Hf'. rewrite nth_set_nth_neq by lia.
      destruct (b <? k) eqn:Ebk.
      * assert (Hlt : (b <? S k) = true)
          by (apply Nat.ltb_lt; apply Nat.ltb_lt in Ebk; lia).
        rewrite Hlt. split; assumption.
      * assert (Hlt : (b <? S k) = false)
          by (apply Nat.ltb_ge; apply Nat.ltb_ge in Ebk; lia).
        rewrite Hlt. split; assumption.
Qed.

(** The counting loop returns, sets the flag of every utterance that emitted
    the end symbol and adds one to the length of every unflagged utterance. *)
Lemma count_loop_total (y : list nat) (bs : nat) (fl : list bool) (yl : list nat) :
  length y = bs -> length fl = bs -> length yl = bs ->
  exists fl' yl',
    for_range (count_body dec y) bs (fl, yl) = Ok (fl', yl') /\
    length fl' = bs /\ length yl' = bs /\
    forall b, b < bs ->
      nth b fl' false = (nth b fl false || (nth b y 0 =? eos dec)) /\
      nth b yl' 0 = (if nth b fl false then nth b yl 0 else nth b yl 0 + 1).
Proof.
  intros Hy Hf Hl. unfold for_range.
  destruct (for_range_from_inv (count_body dec y) (count_inv dec y bs fl yl) bs 0 (fl, yl))
    as ([fl' yl'] & Erun & Hlf & Hly & Hnth).
  - split; [exact Hf|]. split; [exact Hl|]. intros b Hb. simpl. split; reflexivity.
  - intros k t Hk Ht. apply count_body_inv; [exact Hy | lia | exact Ht].
  - exists fl', yl'. split; [exact Erun|]. simpl in *.
    split; [exact Hlf|]. split; [exact Hly|].
    intros b Hb. destruct (Hnth b Hb) as [H1 H2].
    assert (Hlt : (b <? bs) = true) by (apply Nat.ltb_lt; lia).
    rewrite Hlt in H1, H2. split; assumption.
Qed.


(** *** The per-utterance counter *)


Lemma track_app (col : list nat) (y : nat) (f : bool) (n : nat) :
  track (eos dec) (col ++ [y]) f n =
  (let (f', n') := track (eos dec) col f n in
   if f' then (f', n') else (y =? eos dec, n' + 1)).
Proof.
  revert f n; induction col as [|x rest IH]; intros f n; simpl.
  - destruct f; reflexivity.
  - destruct f; apply IH.
Qed.


End GreedyFacts.

Section GreedyLoop.
Import Greedy.
Context {St : Type} (m : stepper St) (dec : decoder).
Context (bs : nat).
(** Shape contract of the collaborators: a step returns one token per
    utterance. *)
Hypothesis step_shape : forall st y, length (snd (step m st y)) = length y.

Lemma column_snoc (hb : list (list nat)) (y col : list nat) (b : nat) :
  column hb b = Ok col -> b < length y ->
  column (hb ++ [y]) b = Ok (col ++ [nth b y 0]).
Proof.
  intros Hcol Hb. unfold column in *.
  rewrite map_result_app, Hcol. simpl.
  rewrite (index_nth y b 0 Hb). reflexivity.
Qed.

(** One iteration keeps the invariant, whether it breaks or not. *)
Lemma greedy_iter_post (oracle : bool) (refs_id : list (list nat)) (ytime k : nat)
      (s : loop_state St) (r : flow (loop_state St)) :
  k < ytime ->
  loop_inv dec bs s /\ length (g_hyps_batch s) = k ->
  greedy_iter m dec oracle refs_id bs ytime k s = Ok r ->
  match r with
  | Continue s' => loop_inv dec bs s' /\ length (g_hyps_batch s') = S k
  | Break s' => loop_post dec bs ytime s'
  end.
Proof.
  intros Hk [(Hhb & Hfl & Hyl & Hy & Htr) Hlen] Hrun.
  unfold greedy_iter in Hrun.
  pose proof (step_shape (g_st s) (g_y s)) as Hshape.
  destruct (step m (g_st s) (g_y s)) as [st' y]. simpl in Hshape.
  assert (Hylen : length y = bs) by congruence.
  destruct (count_loop_total dec y bs (g_eos_flags s) (g_ylens s) Hylen Hfl Hyl)
    as (fl' & yl' & Ecount & Hfl' & Hyl' & Hupd).
  rewrite Ecount in Hrun. simpl in Hrun.
  assert (Hhb' : Forall (fun y0 => length y0 = bs) (g_hyps_batch s ++ [y])).
  { apply Forall_app. split; [exact Hhb | constructor; [exact Hylen | constructor]]. }
  assert (Htr' : forall b, b < bs ->
            exists col, column (g_hyps_batch s ++ [y]) b = Ok col /\
                        track (eos dec) col false 0 = (nth b fl' false, nth b yl' 0)).
  { intros b Hb. destruct (Htr b Hb) as (col & Ecol & Etr).
    exists (col ++ [nth b y 0]). split.
    - apply column_snoc; [exact Ecol | lia].
    - rewrite track_app, Etr. destruct (Hupd b Hb) as [-> ->].
      destruct (nth b (g_eos_flags s) false); reflexivity. }
  assert (Hlen' : length (g_hyps_batch s ++ [y]) = S k).
  { rewrite length_app. simpl. lia. }
  destruct (count_true fl' =? bs) eqn:Eall.
  - injection Hrun as <-. apply Nat.eqb_eq in Eall.
    unfold loop_post, loop_inv; simpl.
    repeat split; try assumption; try lia.
  - destruct (k =? ytime - 1) eqn:Elast.
    + injection Hrun as <-. apply Nat.eqb_eq in Elast.
      unfold loop_post, loop_inv; simpl.
      repeat split; try assumption; try lia.
    + apply bind_ok in Hrun. destruct Hrun as (y' & Ey' & Hrun).
      injection Hrun as <-.
      unfold loop_inv; simpl.
      repeat split; try assumption.
      destruct oracle.
      * apply map_result_length in Ey'. rewrite Ey'. apply length_seq.
      * injection Ey' as <-. exact Hylen.
Qed.


Lemma loop_inv_at_end (ytime : nat) (s : loop_state St) :
  loop_inv dec bs s /\ length (g_hyps_batch s) = ytime -> loop_post dec bs ytime s.
Proof.
  intros [Hinv Hlen]. unfold loop_post.
  split; [exact Hinv|]. split; [lia|]. split; intros; lia.
Qed.

Lemma greedy_loop_post (oracle : bool) (refs_id : list (list nat)) (ytime : nat)
      (s0 s : loop_state St) :
  loop_inv dec bs s0 -> g_hyps_batch s0 = [] ->
  greedy_loop m dec oracle refs_id bs ytime s0 = Ok s ->
  loop_post dec bs ytime s.
Proof.
  intros Hinv Hnil Hrun. unfold greedy_loop, for_break in Hrun.
  apply (for_break_from_post (greedy_iter m dec oracle refs_id bs ytime)
           (fun k t => loop_inv dec bs t /\ length (g_hyps_batch t) = k)
           (loop_post dec bs ytime) ytime 0 s0 s).
  - split; [exact Hinv | rewrite Hnil; reflexivity].
  - intros k t r Hk Ht Hr. apply (greedy_iter_post oracle refs_id ytime k t r);
      [lia | exact Ht | exact Hr].
  - intros t Ht. apply loop_inv_at_end. exact Ht.
  - exact Hrun.
Qed.


Lemma initial_state_inv (refs_id : list (list nat)) (st0 : St) (s0 : loop_state St) :
  initial_state dec refs_id bs st0 = Ok s0 ->
  loop_inv dec bs s0 /\ g_hyps_batch s0 = [].
Proof.
  unfold initial_state. intros H.
  apply bind_ok in H. destruct H as (y0 & _ & H). injection H as <-.
  unfold loop_inv; simpl.
  repeat split; try apply repeat_length; try constructor.
  intros b Hb. exists []. split; [reflexivity|]. simpl.
  rewrite !nth_repeat. reflexivity.
Qed.
End GreedyLoop.

Section GreedyOutput.
Import Greedy.
Context {St : Type} (m : stepper St) (dec : decoder).
Context (bs : nat).
Hypothesis step_shape : forall st y, length (snd (step m st y)) = length y.











End GreedyOutput.

Lemma stream_stepper_shape (streams : list (list nat)) (pad : nat) :
  forall st y,
    length (snd (Greedy.step (Greedy.stream_stepper streams pad) st y)) = length y.
Proof. intros st y. simpl. rewrite length_map. apply length_seq. Qed.



(** ** Sorting and top-k *)

Lemma in_firstn {A : Type} (k : nat) (l : list A) (x : A) :
  In x (firstn k l) -> In x l.
Proof.
  intros H. rewrite <- (firstn_skipn k l). apply in_or_app. left. exact H.
Qed.

Lemma in_skipn {A : Type} (k : nat) (l : list A) (x : A) :
  In x (skipn k l) -> In x l.
Proof.
  intros H. rewrite <- (firstn_skipn k l). apply in_or_app. right. exact H.
Qed.

Section Sorting.
Context {A : Type} (key : A -> Q).

Lemma insert_desc_perm (x : A) (l : list A) :
  Permutation (insert_desc key x l) (x :: l).
Proof.
  induction l as [|h t IH]; simpl.
  - apply Permutation_refl.
  - destruct (Qle_bool (key h) (key x)).
    + apply Permutation_refl.
    + apply perm_trans with (h :: x :: t).
      * apply perm_skip. exact IH.
      * apply perm_swap.
Qed.

Lemma sorted_desc_perm (l : list A) : Permutation (sorted_desc key l) l.
Proof.
  induction l as [|x t IH]; simpl.
  - apply perm_nil.
  - apply perm_trans with (x :: sorted_desc key t).
    + apply insert_desc_perm.
    + apply perm_skip. exact IH.
Qed.

Lemma sorted_desc_length (l : list A) : length (sorted_desc key l) = length l.
Proof. apply Permutation_length. apply sorted_desc_perm. Qed.

Lemma sorted_desc_In (l : list A) (x : A) : In x (sorted_desc key l) <-> In x l.
Proof.
  split; apply Permutation_in;
    [apply sorted_desc_perm | apply Permutation_sym; apply sorted_desc_perm].
Qed.

Lemma insert_desc_sorted (x : A) (l : list A) :
  StronglySorted (desc key) l -> StronglySorted (desc key) (insert_desc key x l).
Proof.
  induction l as [|h t IH]; simpl; intros Hs.
  - constructor; constructor.
  - apply StronglySorted_inv in Hs. destruct Hs as [Ht Hh].
    destruct (Qle_bool (key h) (key x)) eqn:E.
    + apply Qle_bool_iff in E.
      constructor.
      * constructor; assumption.
      * constructor; [exact E|].
        eapply Forall_impl; [|exact Hh].
        intros a Ha. unfold desc in *. eapply Qle_trans; eassumption.
    + assert (Hlt : (key x < key h)%Q).
      { apply Qnot_le_lt. intros H. apply Qle_bool_iff in H. congruence. }
      constructor.
      * apply IH. exact Ht.
      * apply Forall_forall. intros a Ha.
        apply (Permutation_in _ (insert_desc_perm x t)) in Ha.
        destruct Ha as [<-|Ha].
        -- unfold desc. apply Qlt_le_weak. exact Hlt.
        -- rewrite Forall_forall in Hh. apply Hh. exact Ha.
Qed.

Lemma sorted_desc_sorted (l : list A) : StronglySorted (desc key) (sorted_desc key l).
Proof.
  induction l as [|x t IH]; simpl.
  - constructor.
  - apply insert_desc_sorted. exact IH.
Qed.

(** In a sorted list every element of a prefix dominates every element of the
    rest. *)
Lemma sorted_prefix_dominates (l : list A) (k : nat) :
  StronglySorted (desc key) l ->
  forall a b, In a (firstn k l) -> In b (skipn k l) -> desc key a b.
Proof.
  revert k; induction l as [|h t IH]; intros k Hs a b Ha Hb.
  - rewrite firstn_nil in Ha. destruct Ha.
  - apply StronglySorted_inv in Hs. destruct Hs as [Ht Hh].
    destruct k as [|k]; simpl in *; [destruct Ha|].
    destruct Ha as [<-|Ha].
    + rewrite Forall_forall in Hh. apply Hh.
      apply (in_skipn k t). exact Hb.
    + apply (IH k Ht a b Ha Hb).
Qed.

Lemma sorted_firstn (l : list A) (k : nat) :
  StronglySorted (desc key) l -> StronglySorted (desc key) (firstn k l).
Proof.
  revert k; induction l as [|h t IH]; intros k Hs.
  - rewrite firstn_nil. constructor.
  - apply StronglySorted_inv in Hs. destruct Hs as [Ht Hh].
    destruct k as [|k]; simpl; constructor.
    + apply IH. exact Ht.
    + apply Forall_forall. intros a Ha.
      rewrite Forall_forall in Hh. apply Hh.
      apply (in_firstn k t). exact Ha.
Qed.
End Sorting.

Lemma combine_seq_In {A : Type} (l : list A) (s : nat) (v : A) (i : nat) :
  In (v, i) (combine l (seq s (length l))) <-> s <= i /\ nth_error l (i - s) = Some v.
Proof.
  revert s; induction l as [|h t IH]; intros s; simpl.
  - split; [intros [] | intros [_ H]].
    destruct (i - s); discriminate H.
  - split.
    + intros [Heq|Hin].
      * injection Heq as <- <-. split; [lia|]. rewrite Nat.sub_diag. reflexivity.
      * apply IH in Hin. destruct Hin as [Hle Hn]. split; [lia|].
        replace (i - s) with (S (i - S s)) by lia. exact Hn.
    + intros [Hle Hn]. destruct (i - s) as [|d] eqn:Ed.
      * left. simpl in Hn. injection Hn as <-. f_equal. lia.
      * right. apply IH. split; [lia|].
        simpl in Hn. replace (i - S s) with d by lia. exact Hn.
Qed.

Lemma map_snd_combine_seq {A : Type} (l : list A) (s : nat) :
  map snd (combine l (seq s (length l))) = seq s (length l).
Proof.
  revert s; induction l as [|h t IH]; intros s; simpl; [reflexivity|].
  rewrite IH. reflexivity.
Qed.

Lemma NoDup_firstn {A : Type} (k : nat) (l : list A) : NoDup l -> NoDup (firstn k l).
Proof.
  intros H. rewrite <- (firstn_skipn k l) in H.
  apply NoDup_app_remove_r in H. exact H.
Qed.

(** [topk] returns exactly when [k] does not exceed the row, and then returns
    the [k] largest entries. *)
Lemma topk_spec (rank : tie_rank) (k : nat) (row : list Q) :
  k <= length row -> exists r, topk rank k row = Ok r /\ is_topk k row r.
Proof.
  intros Hk. unfold topk.
  assert (E : (length row <? k) = false) by (apply Nat.ltb_ge; exact Hk).
  rewrite E. cbv zeta. eexists. split; [reflexivity|].
  set (all := combine row (seq 0 (length row))).
  set (R := sorted_desc (fun p : Q * nat => (- inject_Z (Z.of_nat (rank k row (snd p))))%Q)
                        all).
  set (S := sorted_desc fst R).
  assert (Hperm : Permutation S all).
  { apply perm_trans with R; apply sorted_desc_perm. }
  assert (Hlen : length S = length row).
  { rewrite (Permutation_length Hperm). unfold all.
    rewrite length_combine, length_seq. lia. }
  assert (Hnd : NoDup (map snd S)).
  { apply (Permutation_NoDup (l := map snd all)).
    - apply Permutation_map. apply Permutation_sym. exact Hperm.
    - unfold all. rewrite map_snd_combine_seq. apply seq_NoDup. }
  unfold is_topk. repeat split.
  - rewrite length_firstn. lia.
  - rewrite <- firstn_map. apply NoDup_firstn. exact Hnd.
  - apply Forall_forall. intros [v i] Hin. simpl.
    apply in_firstn in Hin. apply (Permutation_in _ Hperm) in Hin.
    apply combine_seq_In in Hin. destruct Hin as [_ Hn].
    rewrite Nat.sub_0_r in Hn. exact Hn.
  - apply (sorted_firstn fst). apply sorted_desc_sorted.
  - intros i v Hn Hnotin. apply Forall_forall. intros p Hp.
    assert (Hall : In (v, i) S).
    { apply (Permutation_in _ (Permutation_sym Hperm)).
      apply combine_seq_In. split; [lia|]. rewrite Nat.sub_0_r. exact Hn. }
    rewrite <- (firstn_skipn k S) in Hall. apply in_app_or in Hall.
    destruct Hall as [Hf|Hs].
    + exfalso. apply Hnotin. apply (in_map snd) in Hf. exact Hf.
    + apply (sorted_prefix_dominates fst S k (sorted_desc_sorted fst R) p (v, i) Hp Hs).
Qed.

Lemma topk_raises (rank : tie_rank) (k : nat) (row : list Q) :
  length row < k -> topk rank k row = Raise RuntimeError.
Proof.
  intros Hk. unfold topk.
  assert (E : (length row <? k) = true) by (apply Nat.ltb_lt; exact Hk).
  rewrite E. reflexivity.
Qed.

Lemma topk_ok_inv (rank : tie_rank) (k : nat) (row : list Q) (r : list (Q * nat)) :
  topk rank k row = Ok r -> k <= length row /\ is_topk k row r.
Proof.
  intros H. destruct (Nat.lt_ge_cases (length row) k) as [Hlt|Hge].
  - rewrite (topk_raises rank k row Hlt) in H. discriminate H.
  - split; [exact Hge|]. destruct (topk_spec rank k row Hge) as (r' & Er' & Hr').
    rewrite Er' in H. injection H as <-. exact Hr'.
Qed.

Lemma is_topk_ids_in_range (k : nat) (row : list Q) (r : list (Q * nat)) :
  is_topk k row r -> Forall (fun i => i < length row) (map snd r).
Proof.
  intros (_ & _ & Hn & _). apply Forall_forall. intros i Hi.
  apply in_map_iff in Hi. destruct Hi as (p & <- & Hp).
  rewrite Forall_forall in Hn. specialize (Hn p Hp).
  apply nth_error_Some. congruence.
Qed.

Lemma map_nth_seq {A : Type} (l : list A) (d : A) :
  map (fun q => nth q l d) (seq 0 (length l)) = l.
Proof.
  apply nth_error_ext. intros n.
  destruct (Nat.lt_ge_cases n (length l)) as [Hlt|Hge].
  - rewrite nth_error_map, nth_error_seq.
    assert (E : (n <? length l) = true) by (apply Nat.ltb_lt; exact Hlt).
    rewrite E. simpl. symmetry. apply nth_error_nth'. exact Hlt.
  - assert (H1 : nth_error l n = None) by (apply nth_error_None; exact Hge).
    rewrite H1. apply nth_error_None. rewrite length_map, length_seq. exact Hge.
Qed.

(** A duplicate-free list of [n] indices below [n] lists them all. *)
Lemma indices_permutation (l : list nat) (n : nat) :
  NoDup l -> length l = n -> Forall (fun i => i < n) l -> Permutation l (seq 0 n).
Proof.
  intros Hnd Hlen Hlt. apply NoDup_Permutation_bis.
  - exact Hnd.
  - rewrite length_seq. lia.
  - intros i Hi. rewrite Forall_forall in Hlt. apply in_seq. specialize (Hlt i Hi). lia.
Qed.

(** ** Candidate selection of one live hypothesis *)

Section Candidates.
Import BeamSearch.
Context {P : payload} (C : collaborators P) (prm : params).

Lemma length_add_weighted (a b : list Q) (w : Q) :
  length (add_weighted a b w) = Nat.min (length a) (length b).
Proof. unfold add_weighted. rewrite length_map. apply length_combine. Qed.

Lemma length_add_length_penalty (beam : hypothesis P) (scores : list Q) :
  length (add_length_penalty C prm beam scores) = length scores.
Proof.
  unfold add_length_penalty.
  destruct (Qlt_bool 0 (recog_length_penalty prm)); [|reflexivity].
  destruct (recog_gnmt_decoding prm); apply length_map.
Qed.

Lemma length_total_scores (beam : hypothesis P) (row : list Q) :
  length (total_scores prm beam row) = length row.
Proof. unfold total_scores, total_scores_attn. rewrite !length_map. reflexivity. Qed.

Lemma length_fused_scores (has_lm : bool) (aw : list (AttW P)) (beam : hypothesis P)
      (out : step_out P) (pre : list (Q * nat)) :
  length (fused_scores C prm has_lm aw beam out pre) = length pre.
Proof.
  unfold fused_scores.
  assert (H1 : length (if has_lm
                       then add_weighted (map fst pre)
                              (map (fun id => (score_lm beam + nth id (so_scores_lm out) 0)%Q)
                                   (map snd pre)) (recog_lm_weight prm)
                       else map fst pre) = length pre).
  { destruct has_lm.
    - rewrite length_add_weighted, !length_map. lia.
    - apply length_map. }
  destruct (Qlt_bool 0 (recog_coverage_penalty prm)).
  - rewrite length_map, length_add_length_penalty. exact H1.
  - rewrite length_add_length_penalty. exact H1.
Qed.

(** The batched attention weights can be stacked with those of [beam]: at
    the first step, or with a single live hypothesis. *)
Lemma stack_check (aw : list (AttW P)) (beam : hypothesis P) :
  negb (length (tl (aws beam)) =? 0) && negb (length aw =? 1) = false <->
  length (aws beam) <= 1 \/ length aw = 1.
Proof.
  assert (Hl : length (tl (aws beam)) = length (aws beam) - 1)
    by (destruct (aws beam); simpl; lia).
  rewrite andb_false_iff, !negb_false_iff, !Nat.eqb_eq, Hl. lia.
Qed.

Lemma coverage_term (aw : list (AttW P)) (beam : hypothesis P) :
  (Qlt_bool 0 (recog_coverage_penalty prm) = true ->
   length (aws beam) <= 1 \/ length aw = 1) ->
  (if Qlt_bool 0 (recog_coverage_penalty prm)
   then
     if negb (length (tl (aws beam)) =? 0) && negb (length aw =? 1)
     then Raise RuntimeError
     else Ok (coverage C (recog_gnmt_decoding prm) (recog_coverage_threshold prm)
                       (aws beam) aw)
   else Ok 0%Q)
  = Ok (if Qlt_bool 0 (recog_coverage_penalty prm)
        then coverage C (recog_gnmt_decoding prm) (recog_coverage_threshold prm)
                      (aws beam) aw
        else 0%Q).
Proof.
  intros Hcov. destruct (Qlt_bool 0 (recog_coverage_penalty prm)); [|reflexivity].
  apply stack_check in Hcov; [|reflexivity]. rewrite Hcov. reflexivity.
Qed.

(** What [select_candidates] returns, in terms of the attention-only top-k
    [pre]. *)
Lemma select_candidates_spec (has_lm has_ctc : bool) (aw : list (AttW P))
      (beam : hypothesis P) (out : step_out P) :
  recog_beam_width prm <= length (so_scores_attn out) ->
  (Qlt_bool 0 (recog_coverage_penalty prm) = true ->
   length (aws beam) <= 1 \/ length aw = 1) ->
  exists pre c,
    topk (topk_rank C) (recog_beam_width prm)
         (total_scores prm beam (so_scores_attn out)) = Ok pre /\
    is_topk (recog_beam_width prm) (total_scores prm beam (so_scores_attn out)) pre /\
    select_candidates C prm has_lm has_ctc aw beam out = Ok c /\
    length (total_scores_lm c) = recog_beam_width prm /\
    length (total_scores_ctc c) = recog_beam_width prm /\
    (has_ctc = false ->
       topk_ids c = map snd pre /\
       total_scores_topk c = fused_scores C prm has_lm aw beam out pre) /\
    (has_ctc = true ->
       exists topk2,
         let joint := add_weighted (fused_scores C prm has_lm aw beam out pre)
                        (total_scores_ctc c) (recog_ctc_weight prm) in
         length joint = recog_beam_width prm /\
         topk (topk_rank C) (recog_beam_width prm) joint = Ok topk2 /\
         is_topk (recog_beam_width prm) joint topk2 /\
         total_scores_topk c = map fst topk2 /\
         topk_ids c = map (fun q => nth q (map snd pre) 0) (map snd topk2)).
Proof.
  intros Hbw Hcov.
  destruct (topk_spec (topk_rank C) (recog_beam_width prm)
              (total_scores prm beam (so_scores_attn out)))
    as (pre & Epre & Hpre).
  { rewrite length_total_scores. exact Hbw. }
  assert (Hlen : length pre = recog_beam_width prm) by (apply Hpre).
  exists pre. unfold select_candidates. rewrite Epre. cbn [bind]. cbv zeta.
  rewrite (coverage_term aw beam Hcov). cbn [bind].
  assert (Hlm : length (if has_lm
                        then map (fun id => (score_lm beam + nth id (so_scores_lm out) 0)%Q)
                                 (map snd pre)
                        else repeat 0%Q (recog_beam_width prm)) = recog_beam_width prm).
  { destruct has_lm; [rewrite !length_map; exact Hlen | apply repeat_length]. }
  destruct has_ctc.
  - set (ctc_scores := map (fun k => fst (ctc_prefix_score C (hyp beam) (map snd pre)
                                            (ctc_state beam) k))
                           (seq 0 (length (map snd pre)))).
    assert (Hctc : length ctc_scores = recog_beam_width prm).
    { unfold ctc_scores. rewrite length_map, length_seq, length_map. exact Hlen. }
    assert (Hjoint : length (add_weighted (fused_scores C prm has_lm aw beam out pre)
                               ctc_scores (recog_ctc_weight prm)) = recog_beam_width prm).
    { rewrite length_add_weighted, length_fused_scores. lia. }
    destruct (topk_spec (topk_rank C) (recog_beam_width prm) _
                (Nat.eq_le_incl _ _ (eq_sym Hjoint)))
      as (topk2 & Etopk2 & Htopk2).
    unfold fused_scores in Etopk2. cbv zeta in Etopk2. fold ctc_scores.
    destruct has_lm; rewrite Etopk2; cbn [bind];
      (eexists; split; [reflexivity|]; split; [exact Hpre|]; split; [reflexivity|];
       cbn [total_scores_lm total_scores_ctc total_scores_topk topk_ids];
       split; [exact Hlm|]; split; [exact Hctc|];
       split; [discriminate|]; intros _;
       exists topk2; cbv zeta;
       split; [exact Hjoint|]; split; [exact Etopk2|]; split; [exact Htopk2|];
       split; reflexivity).
  - eexists. split; [reflexivity|]. split; [exact Hpre|]. split; [reflexivity|].
    cbn [total_scores_lm total_scores_ctc total_scores_topk topk_ids].
    split; [exact Hlm|]. split; [apply repeat_length|].
    split; [|discriminate]. intros _. split; [reflexivity|].
    unfold fused_scores. cbv zeta. destruct has_lm; reflexivity.
Qed.

Lemma select_candidates_raises (has_lm has_ctc : bool) (aw : list (AttW P))
      (beam : hypothesis P) (out : step_out P) :
  length (so_scores_attn out) < recog_beam_width prm ->
  select_candidates C prm has_lm has_ctc aw beam out = Raise RuntimeError.
Proof.
  intros Hbw. unfold select_candidates.
  rewrite topk_raises by (rewrite length_total_scores; exact Hbw).
  reflexivity.
Qed.

(** Under a coverage penalty the candidates of a hypothesis that is not the
    beginning-of-sequence hypothesis cannot be selected when another
    hypothesis is live. *)
Lemma select_candidates_raises_coverage (has_lm has_ctc : bool) (aw : list (AttW P))
      (beam : hypothesis P) (out : step_out P) :
  Qlt_bool 0 (recog_coverage_penalty prm) = true ->
  2 <= length (aws beam) -> length aw <> 1 ->
  select_candidates C prm has_lm has_ctc aw beam out = Raise RuntimeError.
Proof.
  intros Hcp Haws Haw.
  destruct (Nat.lt_ge_cases (length (so_scores_attn out)) (recog_beam_width prm))
    as [Hlt|Hge]; [apply select_candidates_raises; exact Hlt|].
  unfold select_candidates.
  destruct (topk_spec (topk_rank C) (recog_beam_width prm)
              (total_scores prm beam (so_scores_attn out)))
    as (pre & Epre & _); [rewrite length_total_scores; exact Hge|].
  rewrite Epre. cbn [bind]. rewrite Hcp.
  assert (E : negb (length (tl (aws beam)) =? 0) && negb (length aw =? 1) = true).
  { destruct (negb (length (tl (aws beam)) =? 0) && negb (length aw =? 1)) eqn:E;
      [reflexivity|].
    apply stack_check in E. lia. }
  rewrite E. reflexivity.
Qed.

Lemma select_candidates_ok_inv (has_lm has_ctc : bool) (aw : list (AttW P))
      (beam : hypothesis P) (out : step_out P) (c : candidates P) :
  select_candidates C prm has_lm has_ctc aw beam out = Ok c ->
  recog_beam_width prm <= length (so_scores_attn out) /\
  (Qlt_bool 0 (recog_coverage_penalty prm) = true ->
   length (aws beam) <= 1 \/ length aw = 1).
Proof.
  intros Hsel. split.
  - destruct (Nat.lt_ge_cases (length (so_scores_attn out)) (recog_beam_width prm))
      as [Hlt|Hge]; [|exact Hge].
    rewrite (select_candidates_raises _ _ _ _ _ Hlt) in Hsel. discriminate Hsel.
  - intros Hcp.
    destruct (Nat.le_gt_cases (length (aws beam)) 1) as [Hle|Hgt]; [left; exact Hle|].
    destruct (Nat.eq_dec (length aw) 1) as [Heq|Hne]; [right; exact Heq|].
    rewrite (select_candidates_raises_coverage _ _ _ _ _ Hcp Hgt Hne) in Hsel.
    discriminate Hsel.
Qed.

(** The candidate tokens are those of the attention-only top-k, possibly
    in another order, and there are [beam_width] of them. *)
Lemma select_candidates_ids (has_lm has_ctc : bool) (aw : list (AttW P))
      (beam : hypothesis P) (out : step_out P) (c : candidates P) :
  select_candidates C prm has_lm has_ctc aw beam out = Ok c ->
  exists pre,
    topk (topk_rank C) (recog_beam_width prm)
         (total_scores prm beam (so_scores_attn out)) = Ok pre /\
    is_topk (recog_beam_width prm) (total_scores prm beam (so_scores_attn out)) pre /\
    Permutation (topk_ids c) (map snd pre) /\
    length (total_scores_topk c) = recog_beam_width prm /\
    length (total_scores_lm c) = recog_beam_width prm /\
    length (total_scores_ctc c) = recog_beam_width prm.
Proof.
  intros Hsel.
  destruct (select_candidates_ok_inv _ _ _ _ _ _ Hsel) as [Hge Hcov].
  destruct (select_candidates_spec has_lm has_ctc aw beam out Hge Hcov)
    as (pre & c' & Epre & Hpre & Esel & Hlm & Hctc & Hno & Hyes).
  rewrite Esel in Hsel. injection Hsel as <-.
  assert (Hlen : length pre = recog_beam_width prm) by (apply Hpre).
  exists pre. split; [exact Epre|]. split; [exact Hpre|].
  destruct has_ctc.
  - destruct (Hyes eq_refl) as (topk2 & Hjl & Etopk2 & Htopk2 & Hsc & Hids).
    cbv zeta in *.
    split; [|split; [|split; assumption]].
    + rewrite Hids.
      apply perm_trans with (map (fun q => nth q (map snd pre) 0)
                                 (seq 0 (length (map snd pre)))).
      * apply Permutation_map. rewrite length_map, Hlen.
        apply indices_permutation.
        -- apply Htopk2.
        -- rewrite length_map. apply Htopk2.
        -- pose proof (is_topk_ids_in_range _ _ _ Htopk2) as Hr.
           rewrite Hjl in Hr. exact Hr.
      * rewrite map_nth_seq. apply Permutation_refl.
    + rewrite Hsc, length_map. apply Htopk2.
  - destruct (Hno eq_refl) as [Hids Hsc].
    split; [rewrite Hids; apply Permutation_refl|].
    split; [|split; assumption].
    rewrite Hsc, length_fused_scores. exact Hlen.
Qed.
End Candidates.

(** ** Maxima *)

Lemma Qlt_bool_iff (a b : Q) : Qlt_bool a b = true <-> (a < b)%Q.
Proof.
  unfold Qlt_bool. rewrite negb_true_iff. split.
  - intros H. apply Qnot_le_lt. intros Hle. apply Qle_bool_iff in Hle. congruence.
  - intros H. destruct (Qle_bool b a) eqn:E; [|reflexivity].
    apply Qle_bool_iff in E. exfalso. exact (Qlt_not_le _ _ H E).
Qed.

Lemma Qlt_bool_false_iff (a b : Q) : Qlt_bool a b = false <-> (b <= a)%Q.
Proof.
  unfold Qlt_bool. rewrite negb_false_iff. apply Qle_bool_iff.
Qed.

Lemma py_max_cases (a b : Q) :
  (py_max a b = a \/ py_max a b = b) /\ (a <= py_max a b)%Q /\ (b <= py_max a b)%Q.
Proof.
  unfold py_max. destruct (Qlt_bool a b) eqn:E.
  - apply Qlt_bool_iff in E. split; [right; reflexivity|].
    split; [apply Qlt_le_weak; exact E | apply Qle_refl].
  - apply Qlt_bool_false_iff in E. split; [left; reflexivity|].
    split; [apply Qle_refl | exact E].
Qed.

Lemma fold_py_max (t : list Q) (x : Q) :
  (fold_left py_max t x = x \/ In (fold_left py_max t x) t) /\
  (x <= fold_left py_max t x)%Q /\
  Forall (fun v => (v <= fold_left py_max t x)%Q) t.
Proof.
  revert x; induction t as [|h t IH]; intros x; simpl.
  - split; [left; reflexivity|]. split; [apply Qle_refl | constructor].
  - destruct (IH (py_max x h)) as (Hin & Hle & Hall).
    destruct (py_max_cases x h) as (Hc & Hx & Hh).
    split; [|split].
    + destruct Hin as [Heq|Hin].
      * rewrite Heq. destruct Hc as [->| ->]; [left; reflexivity | right; left; reflexivity].
      * right; right; exact Hin.
    + eapply Qle_trans; eassumption.
    + constructor; [eapply Qle_trans; eassumption | exact Hall].
Qed.

(** [tensor_max] fails exactly on the empty tensor, and returns the largest
    entry otherwise. *)
Lemma tensor_max_spec (l : list Q) :
  l <> [] ->
  exists m, tensor_max l = Ok m /\ In m l /\ Forall (fun v => (v <= m)%Q) l.
Proof.
  destruct l as [|x t]; [congruence|]. intros _. simpl.
  destruct (fold_py_max t x) as (Hin & Hle & Hall).
  eexists. split; [reflexivity|]. split.
  - destruct Hin as [->|Hin]; [left; reflexivity | right; exact Hin].
  - constructor; assumption.
Qed.

Lemma tensor_max_empty : tensor_max [] = Raise IndexError.
Proof. reflexivity. Qed.

Lemma in_firstn_nth {A : Type} (k : nat) (l : list A) (x : A) :
  In x (firstn k l) <-> exists i, i < k /\ nth_error l i = Some x.
Proof.
  split.
  - intros H. apply In_nth_error in H. destruct H as (i & Hi).
    assert (Hlt : i < length (firstn k l)) by (apply nth_error_Some; congruence).
    rewrite length_firstn in Hlt.
    exists i. split; [lia|].
    rewrite nth_error_firstn in Hi.
    assert (E : (i <? k) = true) by (apply Nat.ltb_lt; lia).
    rewrite E in Hi. exact Hi.
  - intros (i & Hi & Hn). apply (nth_error_In _ i).
    rewrite nth_error_firstn.
    assert (E : (i <? k) = true) by (apply Nat.ltb_lt; lia).
    rewrite E. exact Hn.
Qed.

Lemma in_skipn_nth {A : Type} (k : nat) (l : list A) (x : A) :
  In x (skipn k l) <-> exists i, k <= i /\ nth_error l i = Some x.
Proof.
  split.
  - intros H. apply In_nth_error in H. destruct H as (i & Hi).
    rewrite nth_error_skipn in Hi. exists (k + i). split; [lia | exact Hi].
  - intros (i & Hi & Hn). apply (nth_error_In _ (i - k)).
    rewrite nth_error_skipn. replace (k + (i - k)) with i by lia. exact Hn.
Qed.

(** The two slices around [idx] together hold the entries other than [idx]. *)
Lemma max_of_slices (row : list Q) (idx : nat) :
  0 < idx -> S idx < length row ->
  exists m1 m2,
    tensor_max (firstn idx row) = Ok m1 /\
    tensor_max (skipn (idx + 1) row) = Ok m2 /\
    max_excluding row idx (py_max m1 m2).
Proof.
  intros H0 Hlen.
  destruct (tensor_max_spec (firstn idx row)) as (m1 & E1 & Hin1 & Hall1).
  { intros E. apply (f_equal (@length Q)) in E. rewrite length_firstn in E. simpl in E. lia. }
  destruct (tensor_max_spec (skipn (idx + 1) row)) as (m2 & E2 & Hin2 & Hall2).
  { intros E. apply (f_equal (@length Q)) in E. rewrite length_skipn in E. simpl in E. lia. }
  exists m1, m2. split; [exact E1|]. split; [exact E2|].
  destruct (py_max_cases m1 m2) as (Hc & Hm1 & Hm2).
  split.
  - destruct Hc as [-> | ->].
    + apply in_firstn_nth in Hin1. destruct Hin1 as (i & Hi & Hn).
      exists i. split; [lia | exact Hn].
    + apply in_skipn_nth in Hin2. destruct Hin2 as (i & Hi & Hn).
      exists i. split; [lia | exact Hn].
  - intros i v Hne Hn.
    destruct (Nat.lt_ge_cases i idx) as [Hlt|Hge].
    + rewrite Forall_forall in Hall1.
      apply Qle_trans with m1; [|exact Hm1].
      apply Hall1. apply in_firstn_nth. exists i. split; assumption.
    + rewrite Forall_forall in Hall2.
      apply Qle_trans with m2; [|exact Hm2].
      apply Hall2. apply in_skipn_nth. exists i. split; [lia | exact Hn].
Qed.

(** ** The end-symbol test and the extension of a hypothesis *)

Section Extension.
Import BeamSearch.
Context {P : payload} (dec : decoder) (prm : params).

Lemma eos_rejected_short (elen : nat) (beam : hypothesis P) (row : list Q) (idx : nat) :
  too_short prm elen beam -> eos_rejected prm elen beam row idx = Ok true.
Proof.
  intros H. unfold eos_rejected. unfold too_short in H. apply Qlt_bool_iff in H.
  rewrite H. reflexivity.
Qed.

Lemma eos_rejected_threshold (elen : nat) (beam : hypothesis P) (row : list Q)
      (idx : nat) :
  ~ too_short prm elen beam -> 0 < idx -> S idx < length row ->
  exists m s,
    max_excluding row idx m /\ nth_error row idx = Some s /\
    eos_rejected prm elen beam row idx =
      Ok (Qle_bool s (float64 (recog_eos_threshold prm * m))).
Proof.
  intros Hshort H0 Hlen. unfold eos_rejected.
  destruct (Qlt_bool _ _) eqn:E.
  { exfalso. apply Hshort. apply Qlt_bool_iff. exact E. }
  destruct (max_of_slices row idx H0 Hlen) as (m1 & m2 & E1 & E2 & Hmax).
  destruct (index_ok row idx) as (s & Es & Hs); [lia|].
  exists (py_max m1 m2), s. split; [exact Hmax|]. split; [exact Hs|].
  rewrite E1, E2. cbn [bind]. rewrite Es. reflexivity.
Qed.

(** With the end symbol first or last in the vocabulary one of the slices is
    empty and the test raises, unless the length test already rejected. *)
Lemma eos_rejected_raises (elen : nat) (beam : hypothesis P) (row : list Q) (idx : nat) :
  ~ too_short prm elen beam -> idx = 0 \/ length row <= S idx ->
  eos_rejected prm elen beam row idx = Raise IndexError.
Proof.
  intros Hshort Hedge. unfold eos_rejected.
  destruct (Qlt_bool _ _) eqn:E.
  { exfalso. apply Hshort. apply Qlt_bool_iff. exact E. }
  destruct Hedge as [-> | Hlast].
  - reflexivity.
  - assert (E2 : skipn (idx + 1) row = []) by (apply skipn_all2; lia).
    rewrite E2. destruct (firstn idx row); reflexivity.
Qed.

Lemma extend_some (elen : nat) (beam : hypothesis P) (out : step_out P)
      (c : candidates P) (k : nat) (h : hypothesis P) :
  extend dec prm elen beam out c k = Ok (Some h) ->
  exists idx,
    nth_error (topk_ids c) k = Some idx /\
    hyp h = hyp beam ++ [idx] /\
    aws h = aws beam ++ [Some (so_aw out)] /\
    (idx = eos dec ->
     eos_rejected prm elen beam (so_scores_attn out) idx = Ok false) /\
    score_cp h = Some (cp c) /\
    dstates h = so_dstates out.
Proof.
  unfold extend. intros H.
  apply bind_ok in H. destruct H as (idx & Eidx & H).
  apply bind_ok in H. destruct H as (s & _ & H).
  apply bind_ok in H. destruct H as (skip & Eskip & H).
  destruct skip; [discriminate H|].
  apply bind_ok in H. destruct H as (sa & _ & H).
  apply bind_ok in H. destruct H as (sc & _ & H).
  apply bind_ok in H. destruct H as (sl & _ & H).
  injection H as <-. exists idx. cbn [hyp aws score_cp dstates].
  split; [|split; [reflexivity | split; [reflexivity|split; [|split; reflexivity]]]].
  - unfold index in Eidx. destruct (nth_error (topk_ids c) k); congruence.
  - intros ->. rewrite Nat.eqb_refl in Eskip. exact Eskip.
Qed.

Lemma extend_none (elen : nat) (beam : hypothesis P) (out : step_out P)
      (c : candidates P) (k : nat) :
  extend dec prm elen beam out c k = Ok None ->
  nth_error (topk_ids c) k = Some (eos dec) /\
  eos_rejected prm elen beam (so_scores_attn out) (eos dec) = Ok true.
Proof.
  unfold extend. intros H.
  apply bind_ok in H. destruct H as (idx & Eidx & H).
  apply bind_ok in H. destruct H as (s & _ & H).
  apply bind_ok in H. destruct H as (skip & Eskip & H).
  destruct skip.
  - destruct (idx =? eos dec) eqn:E; [|discriminate Eskip].
    apply Nat.eqb_eq in E. subst idx. split; [|exact Eskip].
    unfold index in Eidx. destruct (nth_error (topk_ids c) k); congruence.
  - apply bind_ok in H. destruct H as (sa & _ & H).
    apply bind_ok in H. destruct H as (sc & _ & H).
    apply bind_ok in H. destruct H as (sl & _ & H). discriminate H.
Qed.

Lemma in_somes {A : Type} (l : list (option A)) (a : A) :
  In a (somes l) <-> In (Some a) l.
Proof.
  induction l as [|[x|] t IH]; simpl.
  - tauto.
  - rewrite IH. split; intros [H|H]; auto; left; congruence.
  - rewrite IH. split; [auto | intros [H|H]; [discriminate | exact H]].
Qed.

(** Every hypothesis that [beam] contributes is [beam] with one candidate
    token appended. *)
Lemma expand_beam_children (C : collaborators P) (has_lm has_ctc : bool) (elen : nat)
      (aw : list (AttW P)) (beam : hypothesis P) (out : step_out P)
      (news : list (hypothesis P)) :
  expand_beam C dec prm has_lm has_ctc elen aw beam out = Ok news ->
  exists c,
    select_candidates C prm has_lm has_ctc aw beam out = Ok c /\
    Forall (fun h => exists idx,
              In idx (topk_ids c) /\ hyp h = hyp beam ++ [idx] /\
              aws h = aws beam ++ [Some (so_aw out)] /\
              score_cp h = Some (cp c) /\
              dstates h = so_dstates out) news.
Proof.
  unfold expand_beam. intros H.
  apply bind_ok in H. destruct H as (c & Ec & H).
  apply bind_ok in H. destruct H as (opts & Eopts & H).
  injection H as <-. exists c. split; [exact Ec|].
  apply Forall_forall. intros h Hh. apply in_somes in Hh.
  apply map_result_Forall2 in Eopts.
  assert (Hk : exists k, extend dec prm elen beam out c k = Ok (Some h)).
  { clear -Hh Eopts. induction Eopts as [|k o ks os Hk _ IH].
    - destruct Hh.
    - destruct Hh as [->|Hh]; [exists k; exact Hk | apply IH; exact Hh]. }
  destruct Hk as (k & Hk). apply extend_some in Hk.
  destruct Hk as (idx & Hidx & Hhyp & Haws & _ & Hcp & Hst).
  exists idx. split; [apply (nth_error_In _ _ Hidx)|]. repeat split; assumption.
Qed.
End Extension.

(** ** One iteration of the decoding loop *)

Lemma in_concat_map_result {A B : Type} (f : A -> result (list B)) (l : list A)
      (ys : list (list B)) (y : B) :
  map_result f l = Ok ys -> In y (concat ys) ->
  exists x out, In x l /\ f x = Ok out /\ In y out.
Proof.
  intros Hm Hin. apply map_result_Forall2 in Hm.
  induction Hm as [|x out xs outs Hx _ IH]; simpl in Hin.
  - destruct Hin.
  - apply in_app_or in Hin. destruct Hin as [Hin|Hin].
    + exists x, out. split; [left; reflexivity|]. split; assumption.
    + destruct (IH Hin) as (x' & out' & Hx' & Hf & Hy).
      exists x', out'. split; [right; exact Hx'|]. split; assumption.
Qed.

Section Iteration.
Import BeamSearch.
Context {P : payload} (C : collaborators P) (dec : decoder) (prm : params).
Context (has_lm has_ctc : bool) (elen : nat) (refs_id : list (list nat)) (b : nat).

(** What an iteration that returns has done: it pruned the children of the
    live hypotheses to at most [beam_width], and split them. *)
Lemma beam_iter_inv (t : nat) (s : beam_state P) (r : flow (beam_state P)) :
  beam_iter C dec prm has_lm has_ctc elen refs_id b t s = Ok r ->
  exists pruned reflen,
    Forall (child_of (hyps s)) pruned /\
    length pruned <= recog_beam_width prm /\
    (recog_oracle prm = false -> reflen = 0) /\
    match r with
    | Continue s' =>
        hyps s' = filter (fun h => negb (completes dec prm reflen t h)) pruned /\
        end_hyps s' = end_hyps s ++ filter (completes dec prm reflen t) pruned /\
        length (end_hyps s') < recog_beam_width prm
    | Break s' =>
        hyps s' = hyps s /\
        end_hyps s' = firstn (recog_beam_width prm)
                        (end_hyps s ++ filter (completes dec prm reflen t) pruned) /\
        recog_beam_width prm
          <= length (end_hyps s ++ filter (completes dec prm reflen t) pruned)
    end.
Proof.
  unfold beam_iter. intros H.
  apply bind_ok in H. destruct H as (y & _ & H).
  apply bind_ok in H. destruct H as (cvs & _ & H).
  apply bind_ok in H. destruct H as (news & Enews & H).
  apply bind_ok in H. destruct H as (reflen & Eref & H).
  exists (firstn (recog_beam_width prm) (sorted_desc score (concat news))), reflen.
  split; [|split; [|split]].
  - apply Forall_forall. intros h Hh.
    apply in_firstn in Hh. apply sorted_desc_In in Hh.
    destruct (in_concat_map_result _ _ _ _ Enews Hh) as ([j beam] & out & Hjb & Hexp & Hin).
    cbn [fst snd] in Hexp.
    apply expand_beam_children in Hexp. destruct Hexp as (c & _ & Hall).
    rewrite Forall_forall in Hall. destruct (Hall h Hin) as (idx & _ & Hhyp & _).
    exists beam, idx. split; [|exact Hhyp].
    apply in_combine_r in Hjb. exact Hjb.
  - rewrite length_firstn. lia.
  - intros Hor. rewrite Hor in Eref. injection Eref as <-. reflexivity.
  - destruct (recog_beam_width prm <=? _) eqn:E; injection H as <-; cbn [hyps end_hyps].
    + apply Nat.leb_le in E. repeat split; [exact E].
    + apply Nat.leb_gt in E. repeat split; [exact E].
Qed.


Lemma filter_children (parents pruned : list (hypothesis P))
      (f : hypothesis P -> bool) :
  Forall (child_of parents) pruned -> Forall (child_of parents) (filter f pruned).
Proof.
  intros H. apply Forall_forall. intros h Hh. apply filter_In in Hh.
  rewrite Forall_forall in H. apply H. apply Hh.
Qed.

Lemma head_inv_step (t : nat) (s s' : beam_state P) :
  head_inv dec prm s ->
  beam_iter C dec prm has_lm has_ctc elen refs_id b t s = Ok (Continue s') ->
  head_inv dec prm s'.
Proof.
  intros [Hlen Hmode] Hit.
  destruct (beam_iter_inv t s _ Hit) as (pruned & reflen & Hch & Hpl & Href & Hl & He & Hlt).
  split.
  - rewrite Hl. eapply Nat.le_trans; [apply filter_length_le | exact Hpl].
  - unfold completes in *. destruct (recog_oracle prm) eqn:Eor.
    + destruct (t =? reflen) eqn:Et.
      * right. rewrite Hl. clear. induction pruned; [reflexivity | exact IHpruned].
      * left. rewrite He.
        assert (Hnil : filter (fun _ : hypothesis P => false) pruned = []).
        { clear. induction pruned; [reflexivity | exact IHpruned]. }
        rewrite Hnil, app_nil_r.
        destruct Hmode as [Hnil'|Hnil']; [exact Hnil'|].
        exfalso. unfold beam_iter in Hit. rewrite Hnil' in Hit. simpl in Hit.
        discriminate Hit.
    + destruct Hmode as [Hlive Hend]. split.
      * rewrite Hl. apply Forall_forall. intros h Hh. apply filter_In in Hh.
        destruct Hh as [_ Hh]. apply negb_true_iff in Hh. exact Hh.
      * rewrite He. apply Forall_app. split; [exact Hend|].
        apply Forall_forall. intros h Hh. apply filter_In in Hh. apply Hh.
Qed.

Lemma reachable_head_inv (h0 : hypothesis P) (t : nat) (s : beam_state P) :
  1 <= recog_beam_width prm -> hyp h0 = [eos dec] ->
  reachable C dec prm has_lm has_ctc elen refs_id b h0 t s -> head_inv dec prm s.
Proof.
  intros Hbw Hh0 Hreach. induction Hreach as [|t s s' _ IH Hit].
  - split; [simpl; exact Hbw|].
    destruct (recog_oracle prm); [left; reflexivity|].
    split; [|constructor]. constructor; [|constructor].
    unfold ended. rewrite Hh0. reflexivity.
  - apply (head_inv_step t s s' IH Hit).
Qed.

(** C6. At every loop head of a search started from the beginning-of-sequence
    hypothesis with [beam_width >= 1]: the live set holds at most
    [beam_width] hypotheses; no completed hypothesis is live (without teacher
    forcing the live ones do not end in the end symbol and the completed ones
    do); and whatever the next iteration adds to the live set or to the
    completed set is a live hypothesis with exactly one token appended. *)
Theorem extension_invariants (h0 : hypothesis P) (t : nat) (s : beam_state P) :
  1 <= recog_beam_width prm -> hyp h0 = [eos dec] ->
  reachable C dec prm has_lm has_ctc elen refs_id b h0 t s ->
  length (hyps s) <= recog_beam_width prm /\
  (forall h, In h (end_hyps s) -> ~ In h (hyps s)) /\
  (recog_oracle prm = false ->
     Forall (fun h => ended dec h = false) (hyps s) /\
     Forall (fun h => ended dec h = true) (end_hyps s)) /\
  (forall r, beam_iter C dec prm has_lm has_ctc elen refs_id b t s = Ok r ->
     exists done,
       Forall (child_of (hyps s)) done /\
       match r with
       | Continue s' =>
           Forall (child_of (hyps s)) (hyps s') /\
           length (hyps s') <= recog_beam_width prm /\
           end_hyps s' = end_hyps s ++ done
       | Break s' =>
           end_hyps s' = firstn (recog_beam_width prm) (end_hyps s ++ done)
       end).
Proof.
  intros Hbw Hh0 Hreach.
  destruct (reachable_head_inv h0 t s Hbw Hh0 Hreach) as [Hlen Hmode].
  split; [exact Hlen|]. split; [|split].
  - intros h He Hl. destruct (recog_oracle prm).
    + destruct Hmode as [Hnil|Hnil]; [rewrite Hnil in He | rewrite Hnil in Hl];
        contradiction.
    + destruct Hmode as [Hlive Hend].
      rewrite Forall_forall in Hlive, Hend.
      specialize (Hlive h Hl). specialize (Hend h He). congruence.
  - intros Hor. rewrite Hor in Hmode. exact Hmode.
  - intros r Hit.
    destruct (beam_iter_inv t s r Hit) as (pruned & reflen & Hch & Hpl & _ & Hr).
    exists (filter (completes dec prm reflen t) pruned).
    split; [apply filter_children; exact Hch|].
    destruct r as [s'|s'].
    + destruct Hr as (Hl & He & _). split; [|split].
      * rewrite Hl. apply filter_children. exact Hch.
      * rewrite Hl. eapply Nat.le_trans; [apply filter_length_le | exact Hpl].
      * exact He.
    + apply Hr.
Qed.
End Iteration.

(** ** Order of the score fusion *)

Section Fusion.
Import BeamSearch.
Context {P : payload} (C : collaborators P) (prm : params).





(** C7 (amended). The length penalty acts on the accumulated scores [acc] of
    the pre-selected candidates, and only under a positive weight [p]:
    in GNMT mode each score is divided by [(6 + len)^p / 6^p], otherwise
    [(len + 1) * p] is added, with [len] the hypothesis length without the
    start symbol; with [p <= 0] the scores are left as they are. Without
    coverage penalty and CTC the result is the candidate score. *)
Theorem length_penalty_gated (has_lm : bool) (aw : list (AttW P))
        (beam : hypothesis P) (out : step_out P) (acc : list Q) :
  let p := recog_length_penalty prm in
  let len := inject_Z (Z.of_nat (length (hyp beam) - 1)) in
  ((0 < p)%Q -> recog_gnmt_decoding prm = true ->
     add_length_penalty C prm beam acc
     = map (fun s => (s / (pow C (6 + len) p / pow C 6 p))%Q) acc) /\
  ((0 < p)%Q -> recog_gnmt_decoding prm = false ->
     add_length_penalty C prm beam acc = map (fun s => (s + (len + 1) * p)%Q) acc) /\
  ((p <= 0)%Q -> add_length_penalty C prm beam acc = acc) /\
  (forall pre c,
      topk (topk_rank C) (recog_beam_width prm)
           (total_scores prm beam (so_scores_attn out)) = Ok pre ->
      select_candidates C prm has_lm false aw beam out = Ok c ->
      Qlt_bool 0 (recog_coverage_penalty prm) = false ->
      total_scores_topk c
      = add_length_penalty C prm beam
          (if has_lm
           then add_weighted (map fst pre)
                  (map (fun id => (score_lm beam + nth id (so_scores_lm out) 0)%Q)
                       (map snd pre))
                  (recog_lm_weight prm)
           else map fst pre)).
Proof.
  cbv zeta.
  assert (Hlen : length (tl (hyp beam)) = length (hyp beam) - 1).
  { destruct (hyp beam); simpl; lia. }
  unfold add_length_penalty. rewrite Hlen.
  split; [|split; [|split]].
  - intros Hp Hg. apply Qlt_bool_iff in Hp. rewrite Hp, Hg. reflexivity.
  - intros Hp Hg. apply Qlt_bool_iff in Hp. rewrite Hp, Hg. reflexivity.
  - intros Hp. apply Qlt_bool_false_iff in Hp. rewrite Hp. reflexivity.
  - intros pre c Epre Esel Hcp.
    unfold select_candidates in Esel. rewrite Epre in Esel.
    cbn [bind] in Esel. cbv zeta in Esel. rewrite Hcp in Esel.
    cbn [bind] in Esel.
    injection Esel as <-. cbn [total_scores_topk].
    unfold add_length_penalty. rewrite Hlen.
    destruct has_lm; reflexivity.
Qed.
End Fusion.


Lemma length_penalty_gated_witness :
  BeamSearch.add_length_penalty plain_collab (lp_params (1 # 2) false)
    (BeamSearch.bos eos1_decoder) [-(1 # 1); -(2 # 1)]%Q
  = map (fun s => (s + (inject_Z (Z.of_nat (1 - 1)) + 1) * (1 # 2))%Q) [-(1 # 1); -(2 # 1)]%Q.
Proof.
  destruct (@length_penalty_gated BeamSearch.no_payload plain_collab (lp_params (1 # 2) false)
              false [] (BeamSearch.bos eos1_decoder)
              (BeamSearch.decode_step plain_collab 0 [1] [BeamSearch.bos eos1_decoder] 0)
              [-(1 # 1); -(2 # 1)]%Q) as (_ & H & _).
  apply H.
  - reflexivity.
  - reflexivity.
Defined.

(** C7 as stated fails under a negative weight: the guard [lp_weight > 0] skips
    the penalty, so the candidate score stays [-1] instead of becoming
    [-1 + (0 + 1) * (-1) = -2]. *)
Lemma length_penalty_skipped_when_negative :
  exists c,
    BeamSearch.select_candidates plain_collab (lp_params (-(1 # 1)) false) false false []
      (BeamSearch.bos eos1_decoder)
      (BeamSearch.decode_step plain_collab 0 [1] [BeamSearch.bos eos1_decoder] 0) = Ok c /\
    BeamSearch.topk_ids c = [2; 3] /\
    (nth 0 (BeamSearch.total_scores_topk c) 0 == -(1 # 1))%Q /\
    ~ (nth 0 (BeamSearch.total_scores_topk c) 0
       == -(1 # 1) + (inject_Z (Z.of_nat (1 - 1)) + 1) * -(1 # 1))%Q.
Proof.
  eexists. split; [reflexivity|]. split; [reflexivity|]. split.
  - vm_compute. reflexivity.
  - vm_compute. discriminate.
Qed.

(** ** Totality of one expansion *)

Lemma Forall2_seq_nth {B : Type} (R : nat -> B -> Prop) (s n : nat) (l : list B) :
  Forall2 R (seq s n) l ->
  length l = n /\ forall k o, nth_error l k = Some o -> R (s + k) o.
Proof.
  revert s l; induction n as [|n IH]; intros s l H; simpl in H.
  - inversion H; subst. split; [reflexivity|]. intros [|k] o Hk; discriminate Hk.
  - inversion H as [|x o0 xs os Hx Hrest]; subst.
    destruct (IH (S s) os Hrest) as [Hlen Hnth].
    split; [simpl; rewrite Hlen; reflexivity|].
    intros [|k] o Hk; simpl in Hk.
    + injection Hk as <-. rewrite Nat.add_0_r. exact Hx.
    + replace (s + S k) with (S s + k) by lia. apply Hnth. exact Hk.
Qed.

Lemma somes_all {A : Type} (l : list (option A)) :
  (forall k, nth_error l k <> Some None) -> length (somes l) = length l.
Proof.
  induction l as [|[a|] t IH]; intros Hno; simpl.
  - reflexivity.
  - rewrite IH; [reflexivity|]. intros k. apply (Hno (S k)).
  - exfalso. apply (Hno 0). reflexivity.
Qed.

(** A list with at most one [None] keeps all its other entries. *)
Lemma somes_length_ge {A : Type} (opts : list (option A)) :
  (forall k1 k2, nth_error opts k1 = Some None -> nth_error opts k2 = Some None ->
                 k1 = k2) ->
  length opts <= S (length (somes opts)).
Proof.
  induction opts as [|[a|] t IH]; intros Huniq; simpl.
  - lia.
  - assert (H : length t <= S (length (somes t))).
    { apply IH. intros k1 k2 H1 H2.
      specialize (Huniq (S k1) (S k2) H1 H2). lia. }
    lia.
  - rewrite somes_all; [lia|].
    intros k Hk. specialize (Huniq 0 (S k) eq_refl Hk). discriminate Huniq.
Qed.

Section Totality.
Import BeamSearch.
Context {P : payload} (C : collaborators P) (dec : decoder) (prm : params).
Context (has_lm has_ctc : bool) (elen : nat).
Context (V : nat).
(** The end symbol is strictly inside the vocabulary, which holds at least
    [beam_width >= 2] tokens. *)
Hypothesis eos_inside : 0 < eos dec /\ S (eos dec) < V.
Hypothesis width : 2 <= recog_beam_width prm <= V.
Hypothesis no_coverage : (recog_coverage_penalty prm <= 0)%Q.

Lemma eos_rejected_total (beam : hypothesis P) (row : list Q) :
  length row = V ->
  exists r, eos_rejected prm elen beam row (eos dec) = Ok r.
Proof.
  intros Hrow. unfold eos_rejected.
  destruct (Qlt_bool _ _); [eexists; reflexivity|].
  destruct (max_of_slices row (eos dec)) as (m1 & m2 & E1 & E2 & _);
    [apply eos_inside | rewrite Hrow; apply eos_inside |].
  destruct (index_ok row (eos dec)) as (s & Es & _); [rewrite Hrow; lia|].
  rewrite E1, E2. cbn [bind]. rewrite Es. eexists. reflexivity.
Qed.

Lemma extend_total (beam : hypothesis P) (out : step_out P) (c : candidates P)
      (k : nat) (idx : nat) :
  length (so_scores_attn out) = V ->
  nth_error (topk_ids c) k = Some idx -> idx < V ->
  k < length (total_scores_topk c) ->
  k < length (total_scores_ctc c) ->
  k < length (total_scores_lm c) ->
  exists o, extend dec prm elen beam out c k = Ok o /\
            (o = None -> idx = eos dec) /\
            (forall h, o = Some h ->
               hyp h = hyp beam ++ [idx] /\ aws h = aws beam ++ [Some (so_aw out)] /\
               score_cp h <> None).
Proof.
  intros Hrow Hidx HidxV Hs Hc Hl. unfold extend.
  unfold index at 1. rewrite Hidx. cbn [bind].
  destruct (index_ok (total_scores_topk c) k Hs) as (s & Es & _).
  rewrite Es. cbn [bind].
  assert (Hskip : exists skip,
             (if idx =? eos dec
              then eos_rejected prm elen beam (so_scores_attn out) idx
              else Ok false) = Ok skip /\ (skip = true -> idx = eos dec)).
  { destruct (idx =? eos dec) eqn:E.
    - apply Nat.eqb_eq in E. subst idx.
      destruct (eos_rejected_total beam (so_scores_attn out) Hrow) as (r & Er).
      exists r. split; [exact Er | reflexivity].
    - exists false. split; [reflexivity | discriminate]. }
  destruct Hskip as (skip & Eskip & Hskip). rewrite Eskip. cbn [bind].
  destruct skip.
  - exists None. split; [reflexivity|]. split; [intros _; apply Hskip; reflexivity|].
    intros h Hh. discriminate Hh.
  - destruct (index_ok (total_scores_attn beam (so_scores_attn out)) idx) as (sa & Esa & _).
    { unfold total_scores_attn. rewrite length_map, Hrow. exact HidxV. }
    destruct (index_ok (total_scores_ctc c) k Hc) as (sc & Esc & _).
    destruct (index_ok (total_scores_lm c) k Hl) as (sl & Esl & _).
    rewrite Esa, Esc, Esl. cbn [bind].
    eexists. split; [reflexivity|]. split; [discriminate|].
    intros h Hh. injection Hh as <-. cbn [hyp aws score_cp].
    split; [reflexivity|]. split; [reflexivity | discriminate].
Qed.

(** Every live hypothesis contributes all its candidates but possibly the
    end symbol: at least [beam_width - 1] children, one of them not ended. *)
Lemma expand_beam_total (aw : list (AttW P)) (beam : hypothesis P) (out : step_out P) :
  length (so_scores_attn out) = V ->
  exists news,
    expand_beam C dec prm has_lm has_ctc elen aw beam out = Ok news /\
    recog_beam_width prm - 1 <= length news /\
    Forall (fun h => length (hyp h) = S (length (hyp beam)) /\
                     length (aws h) = S (length (aws beam)) /\
                     score_cp h <> None) news /\
    exists h, In h news /\ ended dec h = false.
Proof.
  intros Hrow.
  destruct (select_candidates_spec C prm has_lm has_ctc aw beam out) as
    (pre & c & Epre & Hpre & Esel & _); [rewrite Hrow; apply width | |].
  { intros Hcp. apply Qlt_bool_iff in Hcp.
    exfalso. exact (Qlt_not_le _ _ Hcp no_coverage). }
  destruct (select_candidates_ids C prm has_lm has_ctc aw beam out c Esel)
    as (pre0 & Epre0 & _ & Hperm & Hls & Hll & Hlc).
  rewrite Epre in Epre0. injection Epre0 as <-.
  assert (Hlen : length (topk_ids c) = recog_beam_width prm).
  { rewrite (Permutation_length Hperm), length_map. apply Hpre. }
  assert (Hnd : NoDup (topk_ids c)).
  { apply (Permutation_NoDup (Permutation_sym Hperm)). apply Hpre. }
  assert (Hrange : forall i, In i (topk_ids c) -> i < V).
  { intros i Hi. apply (Permutation_in _ Hperm) in Hi.
    pose proof (is_topk_ids_in_range _ _ _ Hpre) as Hr.
    rewrite Forall_forall in Hr. specialize (Hr i Hi).
    rewrite length_total_scores, Hrow in Hr. exact Hr. }
  assert (Hext : forall k, k < recog_beam_width prm ->
             exists o, extend dec prm elen beam out c k = Ok o /\
               (o = None -> nth_error (topk_ids c) k = Some (eos dec)) /\
               (forall h, o = Some h ->
                  exists idx, nth_error (topk_ids c) k = Some idx /\
                    hyp h = hyp beam ++ [idx] /\
                    aws h = aws beam ++ [Some (so_aw out)] /\
                    score_cp h <> None)).
  { intros k Hk.
    destruct (nth_error (topk_ids c) k) as [idx|] eqn:Eidx;
      [|apply nth_error_None in Eidx; lia].
    destruct (extend_total beam out c k idx Hrow Eidx) as (o & Eo & Hnone & Hsome);
      try lia.
    { apply Hrange. apply (nth_error_In _ _ Eidx). }
    exists o. split; [exact Eo|]. split.
    - intros Ho. rewrite (Hnone Ho). reflexivity.
    - intros h Hh. exists idx. split; [reflexivity | apply Hsome; exact Hh]. }
  destruct (map_result_total (extend dec prm elen beam out c)
              (fun k => k < recog_beam_width prm)
              (fun k o => extend dec prm elen beam out c k = Ok o)
              (seq 0 (recog_beam_width prm))) as (opts & Eopts & Hopts).
  { apply Forall_forall. intros k Hk. apply in_seq in Hk. lia. }
  { intros k Hk. destruct (Hext k Hk) as (o & Eo & _). exists o. split; exact Eo. }
  apply Forall2_seq_nth in Hopts. destruct Hopts as [Hol Hon].
  assert (Hshape : forall k o, nth_error opts k = Some o ->
             (o = None -> nth_error (topk_ids c) k = Some (eos dec)) /\
             (forall h, o = Some h ->
                exists idx, nth_error (topk_ids c) k = Some idx /\
                  hyp h = hyp beam ++ [idx] /\
                  aws h = aws beam ++ [Some (so_aw out)] /\
                  score_cp h <> None)).
  { intros k o Hk. specialize (Hon k o Hk). simpl in Hon.
    assert (Hlt : k < recog_beam_width prm).
    { rewrite <- Hol. apply nth_error_Some. congruence. }
    destruct (Hext k Hlt) as (o' & Eo' & Hn & Hs).
    rewrite Eo' in Hon. injection Hon as ->. split; assumption. }
  exists (somes opts). unfold expand_beam. rewrite Esel. cbn [bind].
  rewrite Eopts. cbn [bind]. split; [reflexivity|]. split; [|split].
  - assert (Hge : length opts <= S (length (somes opts))).
    { apply somes_length_ge. intros k1 k2 H1 H2.
      destruct (Hshape k1 None H1) as [E1 _]. destruct (Hshape k2 None H2) as [E2 _].
      specialize (E1 eq_refl). specialize (E2 eq_refl).
      rewrite NoDup_nth_error in Hnd. apply Hnd.
      - apply nth_error_Some. congruence.
      - congruence. }
    lia.
  - apply Forall_forall. intros h Hh. apply in_somes in Hh.
    apply In_nth_error in Hh. destruct Hh as (k & Hk).
    destruct (Hshape k (Some h) Hk) as [_ Hs].
    destruct (Hs h eq_refl) as (idx & _ & Hhyp & Haws & Hcp).
    rewrite Hhyp, Haws, !length_app. simpl. split; [lia|]. split; [lia | exact Hcp].
  - (* two distinct candidates: one of them is not the end symbol *)
    destruct (nth_error opts 0) as [o0|] eqn:E0;
      [|apply nth_error_None in E0; lia].
    destruct (nth_error opts 1) as [o1|] eqn:E1;
      [|apply nth_error_None in E1; lia].
    assert (Hpick : exists k h idx,
               nth_error opts k = Some (Some h) /\ idx <> eos dec /\
               hyp h = hyp beam ++ [idx]).
    { destruct (Hshape 0 o0 E0) as [Hn0 Hs0]. destruct (Hshape 1 o1 E1) as [Hn1 Hs1].
      destruct o0 as [h0|].
      - destruct (Hs0 h0 eq_refl) as (i0 & Ei0 & Hh0 & _).
        destruct (Nat.eq_dec i0 (eos dec)) as [Heq|Hne].
        + destruct o1 as [h1|].
          * destruct (Hs1 h1 eq_refl) as (i1 & Ei1 & Hh1 & _).
            exists 1, h1, i1. split; [exact E1|]. split; [|exact Hh1].
            intros Heq1. rewrite NoDup_nth_error in Hnd.
            assert (H01 : 0 = 1) by (apply Hnd; [lia | congruence]).
            discriminate H01.
          * specialize (Hn1 eq_refl). rewrite NoDup_nth_error in Hnd.
            assert (H01 : 0 = 1) by (apply Hnd; [lia | congruence]).
            discriminate H01.
        + exists 0, h0, i0. split; [exact E0|]. split; assumption.
      - specialize (Hn0 eq_refl).
        destruct o1 as [h1|].
        + destruct (Hs1 h1 eq_refl) as (i1 & Ei1 & Hh1 & _).
          exists 1, h1, i1. split; [exact E1|]. split; [|exact Hh1].
          intros Heq1. rewrite NoDup_nth_error in Hnd.
          assert (H01 : 0 = 1) by (apply Hnd; [lia | congruence]).
          discriminate H01.
        + specialize (Hn1 eq_refl). rewrite NoDup_nth_error in Hnd.
          assert (H01 : 0 = 1) by (apply Hnd; [lia | congruence]).
          discriminate H01. }
    destruct Hpick as (k & h & idx & Hk & Hne & Hhyp).
    exists h. split.
    + apply in_somes. apply (nth_error_In _ _ Hk).
    + unfold ended. rewrite Hhyp, last_last.
      apply andb_false_iff. right. apply Nat.eqb_neq. exact Hne.
Qed.
End Totality.

(** ** The search completes *)

Lemma filter_true {A : Type} (f : A -> bool) (l : list A) :
  (forall x, In x l -> f x = true) -> filter f l = l.
Proof.
  induction l as [|x t IH]; intros H; simpl; [reflexivity|].
  rewrite (H x (or_introl eq_refl)). rewrite IH; [reflexivity|].
  intros y Hy. apply H. right. exact Hy.
Qed.

Section Completion.
Import BeamSearch.
Context {P : payload} (C : collaborators P) (dec : decoder) (prm : params).
Context (has_lm has_ctc : bool) (elen : nat) (refs_id : list (list nat)) (b : nat).
Context (V nbest ytime : nat).
Hypothesis eos_inside : 0 < eos dec /\ S (eos dec) < V.
Hypothesis width : 2 <= recog_beam_width prm <= V.
Hypothesis nbest_below : 1 <= nbest < recog_beam_width prm.
Hypothesis vocab :
  forall t y hs j, length (so_scores_attn (decode_step C t y hs j)) = V.
Hypothesis no_replace : replace_sos dec = false.
Hypothesis no_coverage : (recog_coverage_penalty prm <= 0)%Q.
Hypothesis ytime_pos : 1 <= ytime.
Hypothesis oracle_refs :
  recog_oracle prm = true ->
  exists r, nth_error refs_id b = Some r /\ ytime = length r + 1.

Lemma prev_idx_total (t : nat) (h : hypothesis P) :
  t < ytime -> live_ok t h ->
  exists y, prev_idx dec prm refs_id b t h = Ok y.
Proof.
  intros Ht (Hh & _). unfold prev_idx. rewrite no_replace. cbn [andb].
  destruct (recog_oracle prm) eqn:Eor.
  - destruct (oracle_refs eq_refl) as (r & Er & Ey).
    unfold index at 1. rewrite Er. cbn [bind].
    destruct (index_ok (eos dec :: r) t) as (y & Ey' & _); [simpl; lia|].
    exists y. exact Ey'.
  - destruct (index_ok (hyp h) (length (hyp h) - 1)) as (y & Ey & _); [lia|].
    exists y. exact Ey.
Qed.

(** The children of all live hypotheses, before pruning. *)
Lemma children_total (t : nat) (y : list nat) (live : list (hypothesis P)) :
  live <> [] -> Forall (live_ok t) live ->
  forall (all : list (hypothesis P)) (j0 : nat),
  exists news,
    map_result
      (fun jb => expand_beam C dec prm has_lm has_ctc elen
                   (map (fun j => so_aw (decode_step C t y all j)) (seq 0 (length all)))
                   (snd jb) (decode_step C t y all (fst jb)))
      (combine (seq j0 (length live)) live) = Ok news /\
    recog_beam_width prm - 1 <= length (concat news) /\
    Forall (live_ok (S t)) (concat news) /\
    exists h, In h (concat news) /\ ended dec h = false.
Proof.
  intros Hne Hlive all.
  induction live as [|beam rest IH]; [congruence|]. intros j0.
  apply Forall_cons_iff in Hlive. destruct Hlive as [(Hbh & Hba & _) Hrest].
  cbn [length seq combine map_result fst snd].
  destruct (expand_beam_total C dec prm has_lm has_ctc elen V eos_inside width
              no_coverage
              (map (fun j => so_aw (decode_step C t y all j)) (seq 0 (length all)))
              beam (decode_step C t y all j0) (vocab t y all j0))
    as (n0 & En0 & Hlen0 & Hshape0 & h & Hh & Hended).
  rewrite En0. cbn [bind].
  assert (Hn0 : Forall (live_ok (S t)) n0).
  { eapply Forall_impl; [|exact Hshape0]. intros x (Hx1 & Hx2 & Hx3).
    split; [congruence|]. split; [congruence | intros _; exact Hx3]. }
  destruct rest as [|beam' rest'].
  - cbn [length seq combine map_result bind]. eexists. split; [reflexivity|].
    cbn [concat]. rewrite app_nil_r. split; [exact Hlen0|]. split; [exact Hn0|].
    exists h. split; assumption.
  - destruct (IH ltac:(discriminate) Hrest (S j0)) as (ns & Ens & _ & Hshape & _).
    rewrite Ens. cbn [bind]. eexists. split; [reflexivity|].
    cbn [concat]. split; [rewrite length_app; lia|]. split.
    + apply Forall_app. split; assumption.
    + exists h. split; [apply in_or_app; left; exact Hh | exact Hended].
Qed.

Lemma live_ok_done_ok (t : nat) (h : hypothesis P) : live_ok (S t) h -> done_ok h.
Proof. intros (H1 & H2 & H3). split; [lia|]. split; [lia | apply H3; lia]. Qed.

(** One iteration never raises and keeps the invariant. *)
Lemma beam_iter_total (t : nat) (s : beam_state P) :
  t < ytime -> run_inv prm ytime t s ->
  exists r,
    beam_iter C dec prm has_lm has_ctc elen refs_id b t s = Ok r /\
    match r with
    | Continue s' => run_inv prm ytime (S t) s'
    | Break s' => run_post nbest s'
    end.
Proof.
  intros Ht (Hne & Hend & Hsum & Hlive & Hdone). specialize (Hne Ht).
  unfold beam_iter.
  destruct (map_result_total (prev_idx dec prm refs_id b t) (live_ok t)
              (fun _ _ => True) (hyps s) Hlive) as (y & Ey & _).
  { intros h Hh. destruct (prev_idx_total t h Ht Hh) as (v & Ev).
    exists v. split; [exact Ev | exact I]. }
  rewrite Ey. cbn [bind].
  assert (Hst : torch_cat (map cv (hyps s)) = Ok (map cv (hyps s))).
  { destruct (hyps s); [congruence | reflexivity]. }
  rewrite Hst. cbn [bind].
  destruct (children_total t y (hyps s) Hne Hlive (hyps s) 0)
    as (news & Enews & Hcl & Hcs & hne & Hhne & Hended).
  rewrite Enews. cbn [bind].
  set (pruned := firstn (recog_beam_width prm) (sorted_desc score (concat news))).
  assert (Hpl : recog_beam_width prm - 1 <= length pruned).
  { unfold pruned. rewrite length_firstn, sorted_desc_length. lia. }
  assert (Hps : Forall (live_ok (S t)) pruned).
  { apply Forall_forall. intros h Hh. unfold pruned in Hh.
    apply in_firstn in Hh. apply sorted_desc_In in Hh.
    rewrite Forall_forall in Hcs. apply Hcs. exact Hh. }
  assert (Href : exists reflen,
             (if recog_oracle prm then r <- index refs_id b ;; Ok (length r) else Ok 0)
             = Ok reflen /\
             (recog_oracle prm = true -> ytime = reflen + 1)).
  { destruct (recog_oracle prm) eqn:Eor.
    - destruct (oracle_refs eq_refl) as (r & Er & Ey').
      exists (length r). unfold index. rewrite Er. split; [reflexivity | intros _; exact Ey'].
    - exists 0. split; [reflexivity | discriminate]. }
  destruct Href as (reflen & Eref & Hreflen). rewrite Eref. cbn [bind].
  set (done := filter (completes dec prm reflen t) pruned).
  set (live := filter (fun h => negb (completes dec prm reflen t h)) pruned).
  assert (Hsplit : length done + length live = length pruned)
    by apply filter_length.
  assert (Hdone' : Forall done_ok (end_hyps s ++ done)).
  { apply Forall_app. split; [exact Hdone|].
    apply Forall_forall. intros h Hh. apply filter_In in Hh.
    rewrite Forall_forall in Hps. apply (live_ok_done_ok t). apply Hps. apply Hh. }
  destruct (recog_beam_width prm <=? length (end_hyps s ++ done)) eqn:Ebr.
  - (* break *)
    apply Nat.leb_le in Ebr.
    eexists. split; [reflexivity|].
    assert (Hfl : length (firstn (recog_beam_width prm) (end_hyps s ++ done))
                  = recog_beam_width prm).
    { rewrite length_firstn. lia. }
    assert (Hgp : global_pruning nbest
                    {| hyps := hyps s;
                       end_hyps := firstn (recog_beam_width prm) (end_hyps s ++ done) |}
                  = firstn (recog_beam_width prm) (end_hyps s ++ done)).
    { unfold global_pruning. cbn [hyps end_hyps]. rewrite Hfl.
      assert (E1 : (recog_beam_width prm =? 0) = false) by (apply Nat.eqb_neq; lia).
      assert (E2 : (recog_beam_width prm <? nbest) = false) by (apply Nat.ltb_ge; lia).
      rewrite E1, E2. reflexivity. }
    unfold run_post. rewrite Hgp. split; [lia|]. split.
    + apply Forall_forall. intros h Hh. apply in_firstn in Hh.
      rewrite Forall_forall in Hdone'. apply Hdone'. exact Hh.
    + cbn [end_hyps]. intros Hnil. rewrite Hnil in Hfl. simpl in Hfl. lia.
  - (* next iteration *)
    apply Nat.leb_gt in Ebr. rewrite length_app in Ebr.
    eexists. split; [reflexivity|].
    unfold run_inv. cbn [hyps end_hyps].
    split; [|split; [|split; [|split]]].
    + intros Hnext. fold done live.
      destruct (recog_oracle prm) eqn:Eor.
      * assert (Hall : live = pruned).
        { unfold live. apply filter_true. intros h _.
          unfold completes. rewrite Eor.
          specialize (Hreflen eq_refl).
          assert (E : (t =? reflen) = false) by (apply Nat.eqb_neq; lia).
          rewrite E. reflexivity. }
        rewrite Hall. intros Hnil. rewrite Hnil in Hpl. simpl in Hpl. lia.
      * destruct (Nat.le_gt_cases (length (concat news)) (recog_beam_width prm))
          as [Hsmall|Hbig].
        -- assert (Hin : In hne live).
           { unfold live. apply filter_In. split.
             - unfold pruned. rewrite firstn_all2 by (rewrite sorted_desc_length; exact Hsmall).
               apply sorted_desc_In. exact Hhne.
             - unfold completes. rewrite Eor, Hended. reflexivity. }
           intros Hnil. rewrite Hnil in Hin. destruct Hin.
        -- assert (Hfull : length pruned = recog_beam_width prm).
           { unfold pruned. rewrite length_firstn, sorted_desc_length. lia. }
           intros Hnil. rewrite Hnil in Hsplit. simpl in Hsplit. lia.
    + rewrite length_app. exact Ebr.
    + intros _. rewrite length_app. fold done live. lia.
    + apply Forall_forall. intros h Hh. apply filter_In in Hh.
      rewrite Forall_forall in Hps. apply Hps. apply Hh.
    + exact Hdone'.
Qed.

Lemma run_inv_at_end (s : beam_state P) :
  run_inv prm ytime ytime s -> run_post nbest s.
Proof.
  intros (_ & Hend & Hsum & Hlive & Hdone). specialize (Hsum ytime_pos).
  assert (Hlive' : Forall done_ok (hyps s)).
  { eapply Forall_impl; [|exact Hlive]. intros h (H1 & H2 & H3).
    split; [lia|]. split; [lia | apply H3; exact ytime_pos]. }
  unfold run_post, global_pruning.
  destruct (length (end_hyps s) =? 0) eqn:E0.
  - apply Nat.eqb_eq in E0. split; [lia|]. split; [exact Hlive'|].
    intros _. split; [|reflexivity]. intros Hnil. rewrite Hnil in Hsum. simpl in Hsum. lia.
  - apply Nat.eqb_neq in E0.
    assert (Hnn : end_hyps s = [] -> hyps s <> [] /\
                  (if (length (end_hyps s) <? nbest) && (1 <? nbest)
                   then end_hyps s ++ firstn (nbest - length (end_hyps s)) (hyps s)
                   else end_hyps s) = hyps s).
    { intros Hnil. rewrite Hnil in E0. simpl in E0. lia. }
    destruct ((length (end_hyps s) <? nbest) && (1 <? nbest)) eqn:E1.
    + apply andb_true_iff in E1. destruct E1 as [E1 _]. apply Nat.ltb_lt in E1.
      split; [rewrite length_app, length_firstn; lia|]. split; [|exact Hnn].
      apply Forall_app. split; [exact Hdone|].
      apply Forall_forall. intros h Hh. apply in_firstn in Hh.
      rewrite Forall_forall in Hlive'. apply Hlive'. exact Hh.
    + apply andb_false_iff in E1. split; [|split; [exact Hdone | exact Hnn]].
      destruct E1 as [E1|E1].
      * apply Nat.ltb_ge in E1. exact E1.
      * apply Nat.ltb_ge in E1. lia.
Qed.

Lemma beam_loop_total (h0 : hypothesis P) :
  hyp h0 = [eos dec] -> aws h0 = [None] ->
  exists s,
    for_break (beam_iter C dec prm has_lm has_ctc elen refs_id b) ytime
              {| hyps := [h0]; end_hyps := [] |} = Ok s /\
    run_post nbest s.
Proof.
  intros Hh0 Ha0. unfold for_break.
  apply (for_break_from_total (beam_iter C dec prm has_lm has_ctc elen refs_id b)
           (run_inv prm ytime) (run_post nbest) ytime 0).
  - unfold run_inv. cbn [hyps end_hyps].
    split; [discriminate|]. split; [simpl; lia|]. split; [lia|].
    split; [|constructor]. constructor; [|constructor].
    unfold live_ok. rewrite Hh0, Ha0.
    split; [reflexivity|]. split; [reflexivity | lia].
  - intros k t Hk Hinv. apply beam_iter_total; [lia | exact Hinv].
  - intros t Ht. apply run_inv_at_end. exact Ht.
Qed.
End Completion.

Section NBest.
Import BeamSearch.
Context {P : payload} (dec : decoder) (nbest : nat).

End NBest.

Section Logging.
Import BeamSearch.
Context {P : payload}.


End Logging.

Lemma two_step_rows_length :
  forall t (y : list nat) (hs : list (BeamSearch.hypothesis BeamSearch.no_payload)) j,
    length (BeamSearch.so_scores_attn (BeamSearch.decode_step plain_collab t y hs j)) = 4.
Proof. intros [|t] y hs j; reflexivity. Qed.

Lemma extension_invariants_witness :
  exists s1,
    BeamSearch.reachable plain_collab eos1_decoder plain_params false false 3 [] 0
      (BeamSearch.bos eos1_decoder) 1 s1 /\
    length (BeamSearch.hyps s1) <= 2 /\
    (forall h, In h (BeamSearch.end_hyps s1) -> ~ In h (BeamSearch.hyps s1)).
Proof.
  assert (Hreach : exists s1,
             BeamSearch.reachable plain_collab eos1_decoder plain_params false false 3 [] 0
               (BeamSearch.bos eos1_decoder) 1 s1).
  { eexists. eapply BeamSearch.reach_next; [apply BeamSearch.reach_start|].
    vm_compute. reflexivity. }
  destruct Hreach as (s1 & Hreach). exists s1. split; [exact Hreach|].
  destruct (@extension_invariants BeamSearch.no_payload plain_collab eos1_decoder
              plain_params false false 3 [] 0 (BeamSearch.bos eos1_decoder) 1 s1)
    as (Hlen & Hapart & _).
  - simpl. lia.
  - reflexivity.
  - exact Hreach.
  - split; [exact Hlen | exact Hapart].
Defined.

(** ** The end-symbol test in both searches *)

Section EosRule.
Import BeamSearch.
Context {P : payload} (prm : params).

Lemma chunk_eos_rejected_threshold (row : list Q) (idx : nat) :
  0 < idx -> S idx < length row ->
  exists m s,
    max_excluding row idx m /\ nth_error row idx = Some s /\
    ChunkSync.eos_rejected prm row idx =
      Ok (Qle_bool s (float64 (recog_eos_threshold prm * m))).
Proof.
  intros H0 Hlen. unfold ChunkSync.eos_rejected.
  destruct (max_of_slices row idx H0 Hlen) as (m1 & m2 & E1 & E2 & Hmax).
  destruct (index_ok row idx) as (s & Es & Hs); [lia|].
  exists (py_max m1 m2), s. split; [exact Hmax|]. split; [exact Hs|].
  rewrite E1, E2. cbn [bind]. rewrite Es. reflexivity.
Qed.

Lemma too_short_dec (elen : nat) (beam : hypothesis P) :
  too_short prm elen beam \/ ~ too_short prm elen beam.
Proof.
  unfold too_short.
  destruct (Qlt_le_dec (float32 (inject_Z (Z.of_nat (length (hyp beam)) - 1)))
                       (float32 (float32 (inject_Z (Z.of_nat elen))
                                 * float32 (recog_min_len_ratio prm)))) as [H|H].
  - left. exact H.
  - right. intros Hlt. exact (Qlt_not_le _ _ Hlt H).
Qed.

(** C5 (amended). For an end symbol strictly inside the vocabulary:
    - in the whole-utterance search the end-symbol candidate of a hypothesis
      is rejected exactly when the length of the hypothesis without its
      start symbol is below the product [elens[b] * min_len_ratio] as it is
      computed, in single precision, or the log-probability of the end
      symbol does not exceed the double product of [eos_threshold] and the
      largest log-probability of the other tokens; a candidate is dropped
      only by this test;
    - in the chunk-synchronous search there is no length test: the
      candidate is rejected exactly when the threshold test fails. *)
Theorem eos_rejection_rule (row : list Q) (idx : nat) :
  0 < idx -> S idx < length row ->
  exists m s,
    max_excluding row idx m /\ nth_error row idx = Some s /\
    (forall (elen : nat) (beam : hypothesis P),
        exists r,
          eos_rejected prm elen beam row idx = Ok r /\
          (r = true <->
           (float32 (inject_Z (Z.of_nat (length (hyp beam)) - 1))
            < float32 (float32 (inject_Z (Z.of_nat elen))
                       * float32 (recog_min_len_ratio prm)))%Q \/
           (s <= float64 (recog_eos_threshold prm * m))%Q)) /\
    (exists r,
        ChunkSync.eos_rejected prm row idx = Ok r /\
        (r = true <-> (s <= float64 (recog_eos_threshold prm * m))%Q)) /\
    (forall (dec : decoder) (elen : nat) (beam : hypothesis P) (out : step_out P)
            (c : candidates P) (k : nat),
        extend dec prm elen beam out c k = Ok None ->
        nth_error (topk_ids c) k = Some (eos dec) /\
        eos_rejected prm elen beam (so_scores_attn out) (eos dec) = Ok true).
Proof.
  intros H0 Hlen.
  destruct (chunk_eos_rejected_threshold row idx H0 Hlen) as (m & s & Hmax & Hs & Echunk).
  exists m, s. split; [exact Hmax|]. split; [exact Hs|]. split; [|split].
  - intros elen beam.
    destruct (too_short_dec elen beam) as [Hshort|Hlong].
    + exists true. split; [apply eos_rejected_short; exact Hshort|].
      split; [intros _; left; exact Hshort | reflexivity].
    + unfold eos_rejected.
      assert (E : Qlt_bool (float32 (inject_Z (Z.of_nat (length (hyp beam)) - 1)))
                    (float32 (float32 (inject_Z (Z.of_nat elen))
                              * float32 (recog_min_len_ratio prm))) = false).
      { apply Qlt_bool_false_iff. apply Qnot_lt_le. exact Hlong. }
      rewrite E. unfold ChunkSync.eos_rejected in Echunk. rewrite Echunk.
      eexists. split; [reflexivity|]. rewrite Qle_bool_iff.
      split; [intros H; right; exact H | intros [H|H]; [contradiction | exact H]].
  - eexists. split; [exact Echunk|]. apply Qle_bool_iff.
  - intros dec elen beam out c k. apply extend_none.
Qed.
End EosRule.

Lemma eos_rejection_rule_witness :
  exists m s,
    max_excluding eos_best_row 1 m /\ nth_error eos_best_row 1 = Some s /\
    exists r, ChunkSync.eos_rejected plain_params eos_best_row 1 = Ok r /\
              (r = true <->
               (s <= float64 (BeamSearch.recog_eos_threshold plain_params * m))%Q).
Proof.
  destruct (@eos_rejection_rule BeamSearch.no_payload plain_params eos_best_row 1)
    as (m & s & Hmax & Hs & _ & Hchunk & _).
  - lia.
  - simpl. lia.
  - exists m, s. split; [exact Hmax|]. split; [exact Hs | exact Hchunk].
Defined.

(** C5 as stated fails in the chunk-synchronous search: with
    [min_len_ratio = 1] and a chunk of 10 frames the bare start hypothesis
    [[1]] is shorter than [1 * 10], yet its end-symbol candidate is kept and
    [[1; 1]] is returned as a completed hypothesis. *)
Lemma chunk_keeps_short_eos :
  exists ends live st,
    ChunkSync.beam_search_chunk_sync short_chunk_collab mocha_decoder short_chunk_params
      1 10 false false false None false idle_session = (Ok (ends, live), st) /\
    map ChunkSync.hyp ends = [[1; 1]; [1; 3; 1]] /\
    ChunkSync.c_eos mocha_decoder = 1 /\
    (inject_Z (Z.of_nat (length [1]) - 1)
     < inject_Z (Z.of_nat 10) * BeamSearch.recog_min_len_ratio short_chunk_params)%Q.
Proof.
  eexists. eexists. eexists.
  split; [vm_compute; reflexivity|].
  split; [reflexivity|]. split; [reflexivity|].
  vm_compute. reflexivity.
Qed.

(** The length test of line 1080 is a single-precision comparison. With
    [elens[b] = 25] and [min_len_ratio = 0.6] (as a double,
    [double_six_tenths]) the product is [15728641 / 1048576], just above 15,
    and a hypothesis of 15 tokens is rejected although 15 is not below the
    exact product and the threshold test would keep the end symbol. *)
Lemma short_by_rounding :
  (float64 (6 # 10) == double_six_tenths)%Q /\
  (float32 (float32 (inject_Z (Z.of_nat 25)) * float32 double_six_tenths)
   == 15728641 # 1048576)%Q /\
  length (BeamSearch.hyp long_hyp) - 1 = 15 /\
  BeamSearch.eos_rejected min_len_params 25 long_hyp eos_best_row 1 = Ok true /\
  ~ (inject_Z (Z.of_nat (length (BeamSearch.hyp long_hyp)) - 1)
     < inject_Z (Z.of_nat 25) * double_six_tenths)%Q /\
  ~ (inject_Z (Z.of_nat (length (BeamSearch.hyp long_hyp)) - 1)
     < inject_Z (Z.of_nat 25) * (6 # 10))%Q /\
  BeamSearch.eos_rejected plain_params 25 long_hyp eos_best_row 1 = Ok false.
Proof.
  split; [vm_compute; reflexivity|].
  split; [vm_compute; reflexivity|].
  split; [reflexivity|].
  split; [vm_compute; reflexivity|].
  split; [vm_compute; discriminate|].
  split; [vm_compute; discriminate|].
  vm_compute. reflexivity.
Qed.

(** ** The [no_trigger] flag *)

Section NoTrigger.
Import BeamSearch.
Context {P : payload} (C : ChunkSync.collaborators P) (dec : ChunkSync.decoder).
Context (prm : params) (has_lm has_ctc : bool).

Lemma chunk_extend_unflagged (beam : ChunkSync.hypothesis P) (out : step_out P)
      (c : candidates P) (k : nat) (h : ChunkSync.hypothesis P) :
  ChunkSync.extend dec prm beam out c k = Ok (Some h) ->
  ChunkSync.no_trigger h = false /\ exists idx, ChunkSync.hyp h = ChunkSync.hyp beam ++ [idx].
Proof.
  unfold ChunkSync.extend. intros H.
  apply bind_ok in H. destruct H as (idx & _ & H).
  apply bind_ok in H. destruct H as (s & _ & H).
  apply bind_ok in H. destruct H as (skip & _ & H).
  destruct skip; [discriminate H|].
  apply bind_ok in H. destruct H as (sa & _ & H).
  apply bind_ok in H. destruct H as (sc & _ & H).
  apply bind_ok in H. destruct H as (sl & _ & H).
  injection H as <-. split; [reflexivity|]. exists idx. reflexivity.
Qed.

(** No turn of the loop sets the flag: a hypothesis left or appended by
    [expand_beam] is unflagged if [beam] is. *)
Lemma chunk_expand_unflagged (t : nat) (beam beam' : ChunkSync.hypothesis P)
      (out : step_out P) (news : list (ChunkSync.hypothesis P)) :
  ChunkSync.no_trigger beam = false ->
  ChunkSync.expand_beam C dec prm has_lm has_ctc t beam out = Ok (beam', news) ->
  ChunkSync.no_trigger beam' = false /\
  Forall (fun h => ChunkSync.no_trigger h = false) news.
Proof.
  intros Hb. unfold ChunkSync.expand_beam.
  destruct (ChunkSync.untriggered C out).
  - unfold ChunkSync.overwrite_last_aw.
    destruct (ChunkSync.aws beam); [discriminate|].
    cbn [bind]. intros H. injection H as <- <-.
    split; [exact Hb|]. constructor; [exact Hb | constructor].
  - intros H.
    apply bind_ok in H. destruct H as (c & _ & H).
    apply bind_ok in H. destruct H as (opts & Eopts & H).
    injection H as <- <-. split; [exact Hb|].
    apply Forall_forall. intros h Hh. apply in_somes in Hh.
    apply map_result_Forall2 in Eopts.
    assert (Hk : exists k, ChunkSync.extend dec prm beam out c k = Ok (Some h)).
    { clear -Hh Eopts. induction Eopts as [|k o ks os Hk _ IH].
      - destruct Hh.
      - destruct Hh as [->|Hh]; [exists k; exact Hk | apply IH; exact Hh]. }
    destruct Hk as (k & Hk). apply (chunk_extend_unflagged _ _ _ _ _ Hk).
Qed.

Lemma chunk_outs_unflagged (t : nat) (f : nat -> step_out P)
      (live : list (ChunkSync.hypothesis P)) :
  Forall (fun h => ChunkSync.no_trigger h = false) live ->
  forall (j0 : nat) (outs : list (ChunkSync.hypothesis P * list (ChunkSync.hypothesis P))),
    map_result
      (fun jb => ChunkSync.expand_beam C dec prm has_lm has_ctc t (snd jb) (f (fst jb)))
      (combine (seq j0 (length live)) live) = Ok outs ->
    Forall (fun h => ChunkSync.no_trigger h = false) (map fst outs) /\
    Forall (fun h => ChunkSync.no_trigger h = false) (concat (map snd outs)).
Proof.
  intros Hlive. induction Hlive as [|beam rest Hb _ IH]; intros j0 outs H.
  - cbn in H. injection H as <-. split; constructor.
  - cbn [length seq combine map_result fst snd] in H.
    apply bind_ok in H. destruct H as ([beam' news] & E0 & H).
    apply bind_ok in H. destruct H as (outs' & Erest & H).
    injection H as <-.
    destruct (chunk_expand_unflagged t beam beam' (f j0) news Hb E0) as [Hb' Hnews].
    destruct (IH (S j0) outs' Erest) as [Hfst Hsnd].
    cbn [map concat fst snd]. split.
    + constructor; assumption.
    + apply Forall_app. split; assumption.
Qed.

(** The flag is never set: from unflagged hypotheses an iteration leads to
    unflagged hypotheses only. *)
Lemma no_trigger_stays_false (t : nat) (s : ChunkSync.chunk_state P)
      (r : flow (ChunkSync.chunk_state P)) :
  Forall (fun h => ChunkSync.no_trigger h = false) (ChunkSync.hyps_segment s) ->
  ChunkSync.chunk_iter C dec prm has_lm has_ctc t s = Ok r ->
  Forall (fun h => ChunkSync.no_trigger h = false)
         (ChunkSync.hyps_segment match r with Continue s' => s' | Break s' => s' end).
Proof.
  intros Hlive. unfold ChunkSync.chunk_iter.
  destruct (ChunkSync.all_untriggered t (ChunkSync.hyps_segment s)).
  { intros H. injection H as <-. exact Hlive. }
  intros H.
  apply bind_ok in H. destruct H as (y & _ & H).
  apply bind_ok in H. destruct H as (cvs & _ & H).
  apply bind_ok in H. destruct H as (ds & _ & H).
  apply bind_ok in H. destruct H as (cell & _ & H).
  apply bind_ok in H. destruct H as (outs & Eouts & H).
  destruct (chunk_outs_unflagged t _ _ Hlive 0 outs Eouts) as [Hold Hnew].
  destruct (_ <=? _); injection H as <-; cbn [ChunkSync.hyps_segment].
  - exact Hold.
  - apply Forall_forall. intros h Hh. apply filter_In in Hh. destruct Hh as [Hh _].
    apply in_firstn in Hh. apply sorted_desc_In in Hh.
    rewrite Forall_forall in Hnew. apply Hnew. exact Hh.
Qed.

(** With no flag set the halting test holds only on an empty live set. *)
Lemma halts_only_when_empty (t : nat) (live : list (ChunkSync.hypothesis P)) :
  Forall (fun h => ChunkSync.no_trigger h = false) live ->
  ChunkSync.all_untriggered t live = true -> live = [].
Proof.
  intros Hlive H. unfold ChunkSync.all_untriggered in H.
  apply andb_true_iff in H. destruct H as [_ H]. apply Nat.eqb_eq in H.
  assert (Hz : count_true (map ChunkSync.no_trigger live) = 0).
  { clear H. unfold count_true. induction Hlive as [|h rest Hh _ IH]; [reflexivity|].
    cbn [map filter]. rewrite Hh. exact IH. }
  rewrite Hz in H. destruct live; [reflexivity | discriminate H].
Qed.
End NoTrigger.

(** C2, evaluated on a chunk whose attention weights sum to zero at every
    step: the start hypothesis is passed through by step 0 with its flag still
    [false] (and its last attention entry overwritten), so the halting test of
    step 1 fails and step 1 decodes again. *)
Theorem untriggered_hypothesis_not_flagged :
  exists s1 s2 h,
    ChunkSync.chunk_iter silent_chunk_collab mocha_decoder plain_params false false 0
      {| ChunkSync.hyps_segment :=
           [ChunkSync.initial_hyp silent_chunk_collab mocha_decoder false (Some tt) None];
         ChunkSync.end_hyps := [];
         ChunkSync.n_hyps_prev := 1 |} = Ok (Continue s1) /\
    ChunkSync.hyps_segment s1 = [h] /\
    ChunkSync.hyp h = [1] /\
    ChunkSync.aws h = [Some 0%Q] /\
    ChunkSync.no_trigger h = false /\
    ChunkSync.all_untriggered 1 (ChunkSync.hyps_segment s1) = false /\
    ChunkSync.chunk_iter silent_chunk_collab mocha_decoder plain_params false false 1 s1
    = Ok (Continue s2) /\
    ChunkSync.hyps_segment s2 = [h].
Proof.
  eexists. eexists. eexists.
  split; [vm_compute; reflexivity|].
  split; [reflexivity|].
  split; [reflexivity|]. split; [reflexivity|]. split; [reflexivity|].
  split; [reflexivity|].
  split; [vm_compute; reflexivity|]. reflexivity.
Qed.

(** ** Preconditions of the chunk-synchronous search *)

Section ChunkPreconditions.
Import BeamSearch.
Context {P : payload} (C : ChunkSync.collaborators P) (dec : ChunkSync.decoder).
Context (prm : params) (bs chunk_len : nat) (has_lm lm_is_rnnlm has_ctc : bool).
Context (segment : option (list (ChunkSync.hypothesis P))) (state_carry_over : bool).
Context (st : ChunkSync.session P).

(** C10. A call on a chunk whose batch size is not 1, or on a decoder whose
    attention type is not ['mocha'], raises [AssertionError] and leaves the
    decoder state as it was; a call that meets both (and the LM weight
    assertion) goes on to reset the attention cache. *)
Theorem chunk_sync_preconditions :
  (bs <> 1 \/ ChunkSync.attn_type dec <> AttnNames.mocha ->
   ChunkSync.beam_search_chunk_sync C dec prm bs chunk_len has_lm lm_is_rnnlm has_ctc
     segment state_carry_over st = (Raise AssertionError, st)) /\
  (bs = 1 -> ChunkSync.attn_type dec = AttnNames.mocha ->
   (has_lm = true -> (0 < recog_lm_weight prm)%Q) ->
   ChunkSync.score_resets
     (snd (ChunkSync.beam_search_chunk_sync C dec prm bs chunk_len has_lm lm_is_rnnlm
             has_ctc segment state_carry_over st))
   = S (ChunkSync.score_resets st)).
Proof.
  split.
  - intros Hpre. unfold ChunkSync.beam_search_chunk_sync.
    destruct (bs =? 1) eqn:Ebs; [|reflexivity]. cbn [negb].
    apply Nat.eqb_eq in Ebs.
    destruct (String.eqb (ChunkSync.attn_type dec) AttnNames.mocha) eqn:Eat;
      [|reflexivity].
    apply String.eqb_eq in Eat. destruct Hpre as [H|H]; contradiction.
  - intros Hbs Hat Hlm. unfold ChunkSync.beam_search_chunk_sync.
    rewrite Hbs, Hat, String.eqb_refl. cbn [Nat.eqb negb].
    assert (E : has_lm && negb (Qlt_bool 0 (recog_lm_weight prm)) = false).
    { destruct has_lm; [|reflexivity].
      specialize (Hlm eq_refl). apply Qlt_bool_iff in Hlm. rewrite Hlm. reflexivity. }
    rewrite E.
    destruct (has_ctc && negb (Qlt_bool 0 (recog_ctc_weight prm))); [reflexivity|].
    destruct (if has_ctc
              then match segment with
                   | None => Ok (Some 1)
                   | Some _ => match ChunkSync.ctc_chunks _ with
                               | Some n => Ok (Some (S n))
                               | None => Raise AttributeError
                               end
                   end
              else Ok _) as [chunks|e0]; [|reflexivity].
    destruct (for_break _ _ _) as [s|e].
    + destruct (sorted_desc ChunkSync.score (ChunkSync.end_hyps s)) as [|best rest];
        destruct segment as [hs|];
        cbn [ChunkSync.n_frames ChunkSync.dstates_final ChunkSync.lmstate_final
             ChunkSync.ctc_chunks ChunkSync.score_resets];
        try reflexivity;
        destruct (ChunkSync.n_frames st); reflexivity.
    + cbn [snd]. destruct segment; reflexivity.
Qed.
End ChunkPreconditions.

Lemma chunk_sync_preconditions_witness :
  ChunkSync.beam_search_chunk_sync silent_chunk_collab mocha_decoder plain_params 2 3
    false false false None false idle_session = (Raise AssertionError, idle_session).
Proof.
  apply (@chunk_sync_preconditions ChunkSync.sum_payload silent_chunk_collab mocha_decoder
           plain_params 2 3 false false false None false idle_session).
  left. discriminate.
Defined.

(** ** The ensemble branch *)

Section EnsembleFacts.
Import Ensemble.
Context {T : Type}.

Lemma int_key_missing (hxs cxs : T) (i : nat) :
  getitem (dstates_dict hxs cxs) (KInt i) = Raise KeyError.
Proof. reflexivity. Qed.

Lemma not_ok_raises {A : Type} (r : result A) :
  (forall a, r <> Ok a) -> exists e, r = Raise e.
Proof.
  destruct r as [a|e]; intros H.
  - exfalso. apply (H a). reflexivity.
  - exists e. reflexivity.
Qed.

(** Lines 996 and 1003 index the one-key dict [beam['dstates']] by the
    position of the additional decoder: no additional decoder gets through. *)
Lemma member_step_raises (rnn_type : rnn_kind) (t : nat) (hyps : list (pyval T))
      (i_e : nat) (dec : member T) :
  Forall search_built hyps ->
  exists e, member_step rnn_type t hyps i_e dec = Raise e.
Proof.
  intros Hbuilt. apply not_ok_raises. intros r H.
  unfold member_step in H.
  apply bind_ok in H. destruct H as (cv_e & _ & H).
  apply bind_ok in H. destruct H as (aw_e & _ & H).
  apply bind_ok in H. destruct H as (hxs_e & _ & H).
  apply bind_ok in H. destruct H as (cxs_e & _ & H).
  apply bind_ok in H. destruct H as (u & _ & H).
  apply bind_ok in H. destruct H as (beam & Ebeam & H).
  apply bind_ok in H. destruct H as (d & Ed & H).
  apply bind_ok in H. destruct H as (d' & Ed' & _).
  assert (Hin : In beam hyps).
  { unfold index in Ebeam.
    destruct (nth_error hyps (length hyps - 1)) eqn:E; [|discriminate Ebeam].
    injection Ebeam as <-. apply (nth_error_In _ _ E). }
  rewrite Forall_forall in Hbuilt. destruct (Hbuilt beam Hin) as (hxs & cxs & Eb).
  rewrite Eb in Ed. injection Ed as <-.
  rewrite int_key_missing in Ed'. discriminate Ed'.
Qed.

Lemma fold_raise {A B : Type} (f : result A -> B -> result A) (l : list B) (e : pyerror) :
  (forall b e', f (Raise e') b = Raise e') ->
  fold_left f l (Raise e) = Raise e.
Proof.
  intros Hf. induction l as [|b rest IH]; simpl; [reflexivity|].
  rewrite Hf. exact IH.
Qed.

(** C8, on the code: with at least one additional decoder the computation of
    [scores_attn] raises on every list of hypotheses built by the search, so
    the averaged log-score is never produced. *)
Theorem ensemble_branch_raises (log : Q -> Q) (rnn_type : rnn_kind) (t : nat)
        (hyps : list (pyval T)) (probs : list (list Q)) (ensmbl_decs : list (member T)) :
  ensmbl_decs <> [] -> Forall search_built hyps ->
  exists e, scores_attn log rnn_type t hyps probs ensmbl_decs = Raise e.
Proof.
  intros Hdecs Hbuilt. destruct ensmbl_decs as [|d0 rest]; [congruence|].
  unfold scores_attn. cbn [length].
  assert (E : (1 <? S (length rest) + 1) = true) by (apply Nat.ltb_lt; lia).
  rewrite E. cbn [seq combine fold_left bind fst snd].
  destruct (member_step_raises rnn_type t hyps 0 d0 Hbuilt) as (e & Ee).
  rewrite Ee. cbn [bind].
  rewrite fold_raise; [exists e; reflexivity|].
  intros b e'. reflexivity.
Qed.
End EnsembleFacts.

Lemma initial_hyp_search_built (n : nat) :
  Ensemble.search_built (Ensemble.initial_hyp tt n).
Proof. exists tt, tt. reflexivity. Qed.

Lemma ensemble_branch_raises_witness :
  exists e,
    Ensemble.scores_attn (fun x => x) Ensemble.lstm 0 [Ensemble.initial_hyp tt 1]
      [[1 # 2; 1 # 2]%Q] [Ensemble.uniform_member] = Raise e.
Proof.
  apply (@ensemble_branch_raises unit (fun x => x) Ensemble.lstm 0
           [Ensemble.initial_hyp tt 1] [[1 # 2; 1 # 2]%Q] [Ensemble.uniform_member]).
  - discriminate.
  - constructor; [apply initial_hyp_search_built | constructor].
Defined.

(** The first step of a search with one additional decoder: [KeyError] for an
    LSTM decoder (line 996), [NameError] for a GRU decoder (line 997). *)
Lemma ensemble_first_step :
  Ensemble.scores_attn (fun x => x) Ensemble.lstm 0 [Ensemble.initial_hyp tt 1]
    [[1 # 2; 1 # 2]%Q] [Ensemble.uniform_member] = Raise KeyError /\
  Ensemble.scores_attn (fun x => x) Ensemble.gru 0 [Ensemble.initial_hyp tt 1]
    [[1 # 2; 1 # 2]%Q] [Ensemble.uniform_member] = Raise NameError.
Proof. split; reflexivity. Qed.

(** ** Greedy decoding: what is returned, and when it raises *)

Lemma until_eos_split (e : nat) (col : list nat) :
  if has_eos e col
  then until_eos e col = before_eos e col ++ [e]
  else until_eos e col = col /\ before_eos e col = col.
Proof.
  induction col as [|y rest IH]; simpl.
  - split; reflexivity.
  - destruct (y =? e) eqn:Ey; simpl.
    + apply Nat.eqb_eq in Ey. subst y. reflexivity.
    + destruct (has_eos e rest).
      * rewrite IH. reflexivity.
      * destruct IH as [-> ->]. split; reflexivity.
Qed.

Lemma firstn_until_eos (e : nat) (col : list nat) :
  firstn (length (until_eos e col)) col = until_eos e col.
Proof.
  induction col as [|y rest IH]; simpl; [reflexivity|].
  destruct (y =? e); simpl; [reflexivity|]. rewrite IH. reflexivity.
Qed.

Lemma track_until_eos (e : nat) (col : list nat) (n : nat) :
  Greedy.track e col false n = (has_eos e col, n + length (until_eos e col)).
Proof.
  revert n; induction col as [|y rest IH]; intros n; simpl.
  - rewrite Nat.add_0_r. reflexivity.
  - destruct (y =? e) eqn:Ey; simpl.
    + clear IH. replace (n + 1) with (n + 1) by reflexivity.
      assert (H : forall l k, Greedy.track e l true k = (true, k)).
      { induction l as [|x l IHl]; intros k; simpl; [reflexivity | apply IHl]. }
      rewrite H. reflexivity.
    + rewrite IH. f_equal. lia.
Qed.

Section GreedyResult.
Import Greedy.
Context {St : Type} (m : stepper St) (dec : decoder).
Context (bs : nat).
Hypothesis step_shape : forall st y, length (snd (step m st y)) = length y.

Lemma hyp_of_until_eos (exclude_eos : bool) (s : loop_state St) (b : nat) :
  loop_inv dec bs s -> b < bs ->
  exists col,
    column (g_hyps_batch s) b = Ok col /\
    hyp_of dec exclude_eos (g_hyps_batch s) (g_ylens s) (g_eos_flags s) b =
      Ok ((if bwd dec then @rev nat else fun l => l)
            ((if exclude_eos then before_eos else until_eos) (eos dec) col)).
Proof.
  intros (Hhb & Hfl & Hyl & Hy & Htr) Hb.
  destruct (Htr b Hb) as (col & Ecol & Etr).
  exists col. split; [exact Ecol|].
  rewrite track_until_eos in Etr. simpl in Etr.
  injection Etr as Hflag Hlen.
  unfold hyp_of. rewrite Ecol. cbn [bind].
  rewrite (index_nth (g_ylens s) b 0) by lia. cbn [bind].
  rewrite <- Hlen, firstn_until_eos.
  pose proof (until_eos_split (eos dec) col) as Hsplit.
  destruct exclude_eos.
  - rewrite (index_nth (g_eos_flags s) b false) by lia. cbn [bind].
    rewrite <- Hflag.
    destruct (has_eos (eos dec) col).
    + rewrite Hsplit. destruct (bwd dec).
      * rewrite rev_app_distr. reflexivity.
      * rewrite removelast_last. reflexivity.
    + destruct Hsplit as [-> ->]. destruct (bwd dec); reflexivity.
  - destruct (bwd dec); reflexivity.
Qed.

(** X1. Every sequence that [greedy] returns is the column of tokens its
    utterance emitted, cut after the first end symbol (before it with
    [exclude_eos]), and reversed for a backward decoder. *)
Theorem greedy_returns_first_eos_prefix (xtime : nat) (max_len_ratio : Q)
        (exclude_eos oracle : bool) (refs_id : list (list nat))
        (utt_ids : option (list String.string)) (log_ref : bool) (st0 : St)
        (hyps : list (list nat)) :
  greedy m dec st0 bs xtime max_len_ratio exclude_eos oracle refs_id utt_ids log_ref
  = Ok hyps ->
  exists s0 ytime s,
    initial_state dec refs_id bs st0 = Ok s0 /\
    ytime_of oracle refs_id bs xtime max_len_ratio = Ok ytime /\
    greedy_loop m dec oracle refs_id bs ytime s0 = Ok s /\
    length hyps = bs /\
    forall b, b < bs ->
      exists col,
        column (g_hyps_batch s) b = Ok col /\
        nth_error hyps b =
          Some ((if bwd dec then @rev nat else fun l => l)
                  ((if exclude_eos then before_eos else until_eos) (eos dec) col)).
Proof.
  intros Hrun. unfold greedy in Hrun.
  apply bind_ok in Hrun. destruct Hrun as (s0 & Hinit & Hrun).
  apply bind_ok in Hrun. destruct Hrun as (ytime & Hyt & Hrun).
  apply bind_ok in Hrun. destruct Hrun as (s & Hloop & Hrun).
  apply bind_ok in Hrun. destruct Hrun as (hb & _ & Hrun).
  apply bind_ok in Hrun. destruct Hrun as (hyps' & Hrun & Hlog).
  apply bind_ok in Hlog. destruct Hlog as (lg & _ & Hlog). injection Hlog as ->.
  exists s0, ytime, s. split; [exact Hinit|]. split; [exact Hyt|]. split; [exact Hloop|].
  destruct (initial_state_inv dec bs refs_id st0 s0 Hinit) as [Hinv Hnil].
  destruct (greedy_loop_post m dec bs step_shape oracle refs_id ytime s0 s Hinv Hnil Hloop)
    as (Hinv' & _).
  pose proof (map_result_length _ _ _ Hrun) as Hlen. rewrite length_seq in Hlen.
  split; [exact Hlen|].
  intros b Hb.
  destruct (hyp_of_until_eos exclude_eos s b Hinv' Hb) as (col & Ecol & Ehyp).
  exists col. split; [exact Ecol|].
  apply map_result_Forall2 in Hrun.
  assert (Hnth : forall (l : list nat) (ys : list (list nat)) i x,
             Forall2 (fun b0 h =>
                        hyp_of dec exclude_eos (g_hyps_batch s) (g_ylens s)
                               (g_eos_flags s) b0 = Ok h) l ys ->
             nth_error l i = Some x ->
             exists h, nth_error ys i = Some h /\
                       hyp_of dec exclude_eos (g_hyps_batch s) (g_ylens s)
                              (g_eos_flags s) x = Ok h).
  { intros l ys i x HF. revert i. induction HF as [|a h l' ys' Hah _ IH]; intros i Hi.
    - destruct i; discriminate Hi.
    - destruct i as [|i]; simpl in *.
      + injection Hi as <-. exists h. split; [reflexivity | exact Hah].
      + apply IH. exact Hi. }
  destruct (Hnth _ _ b b Hrun) as (h & Eh & Hh).
  { rewrite nth_error_nth' with (d := 0) by (rewrite length_seq; exact Hb).
    rewrite seq_nth by exact Hb. reflexivity. }
  rewrite Eh. rewrite Ehyp in Hh. injection Hh as <-. reflexivity.
Qed.
End GreedyResult.

Lemma greedy_returns_first_eos_prefix_witness :
  exists s0 ytime s,
    Greedy.initial_state fwd_decoder [] 2 0 = Ok s0 /\
    Greedy.ytime_of false [] 2 10 1 = Ok ytime /\
    Greedy.greedy_loop two_streams fwd_decoder false [] 2 ytime s0 = Ok s /\
    length [[1; 2]; [5; 6; 2]] = 2 /\
    forall b, b < 2 ->
      exists col,
        Greedy.column (Greedy.g_hyps_batch s) b = Ok col /\
        nth_error [[1; 2]; [5; 6; 2]] b = Some (until_eos 2 col).
Proof.
  apply (greedy_returns_first_eos_prefix two_streams fwd_decoder 2
           (stream_stepper_shape _ _) 10 1%Q false false [] None false 0
           [[1; 2]; [5; 6; 2]]).
  reflexivity.
Defined.

Section GreedyEdges.
Import Greedy.
Context {St : Type} (m : stepper St) (dec : decoder).


Lemma column_length (hb : list (list nat)) (b : nat) (col : list nat) :
  column hb b = Ok col -> length col = length hb.
Proof. apply map_result_length. Qed.

Lemma hyp_of_length (exclude_eos : bool) (hb : list (list nat)) (yl : list nat)
      (fl : list bool) (b : nat) (h : list nat) :
  hyp_of dec exclude_eos hb yl fl b = Ok h -> length h <= length hb.
Proof.
  unfold hyp_of. intros H.
  apply bind_ok in H. destruct H as (col & Ecol & H).
  apply bind_ok in H. destruct H as (n & _ & H).
  apply column_length in Ecol.
  assert (Hcut : length (if bwd dec then rev (firstn n col) else firstn n col)
                 <= length hb).
  { destruct (bwd dec); [rewrite length_rev|]; rewrite length_firstn; lia. }
  destruct exclude_eos.
  - apply bind_ok in H. destruct H as (f & _ & H). injection H as <-.
    destruct f; [|exact Hcut].
    destruct (bwd dec).
    + destruct (rev (firstn n col)) as [|x l]; simpl in *; lia.
    + assert (Hrl : forall l : list nat, length (removelast l) <= length l).
      { induction l as [|x [|x' l] IH]; simpl in *; lia. }
      eapply Nat.le_trans; [apply Hrl | exact Hcut].
  - injection H as <-. exact Hcut.
Qed.

(** The state that an iteration hands on holds one more step, and with
    teacher forcing the next tokens were read from every reference. *)
Lemma greedy_iter_steps (oracle : bool) (refs_id : list (list nat)) (bs ytime k : nat)
      (s : loop_state St) (r : flow (loop_state St)) :
  greedy_iter m dec oracle refs_id bs ytime k s = Ok r ->
  match r with
  | Continue s' =>
      length (g_hyps_batch s') = S (length (g_hyps_batch s)) /\
      (oracle = true ->
       forall b ref, b < bs -> nth_error refs_id b = Some ref -> k < length ref)
  | Break s' => length (g_hyps_batch s') = S (length (g_hyps_batch s))
  end.
Proof.
  unfold greedy_iter. intros H.
  destruct (step m (g_st s) (g_y s)) as [st' y].
  apply bind_ok in H. destruct H as ([fl yl] & _ & H).
  assert (Hlen : length (g_hyps_batch s ++ [y]) = S (length (g_hyps_batch s))).
  { rewrite length_app. simpl. lia. }
  destruct (count_true fl =? bs); [injection H as <-; exact Hlen|].
  destruct (k =? ytime - 1); [injection H as <-; exact Hlen|].
  apply bind_ok in H. destruct H as (y' & Ey' & H). injection H as <-.
  cbn [g_hyps_batch]. split; [exact Hlen|].
  intros -> b ref Hb Href.
  apply map_result_Forall2 in Ey'.
  assert (Hin : In b (seq 0 bs)) by (apply in_seq; lia).
  clear -Ey' Hin Href.
  induction Ey' as [|x v xs vs Hx _ IH]; [destruct Hin|].
  destruct Hin as [->|Hin]; [|apply IH; exact Hin].
  unfold index in Hx at 1. rewrite Href in Hx. cbn [bind] in Hx.
  apply index_ok_inv in Hx. apply Hx.
Qed.

(** X3. With teacher forcing, decoding cannot go past the shortest reference of
    the batch: whenever [greedy] returns, no returned sequence is longer than
    any reference of the batch plus one. *)
Theorem greedy_oracle_shortest_reference (bs xtime : nat) (max_len_ratio : Q)
        (exclude_eos : bool) (refs_id : list (list nat))
        (utt_ids : option (list String.string)) (log_ref : bool) (st0 : St)
        (hyps : list (list nat)) (b0 : nat) (ref : list nat) :
  greedy m dec st0 bs xtime max_len_ratio exclude_eos true refs_id utt_ids log_ref
  = Ok hyps ->
  b0 < bs -> nth_error refs_id b0 = Some ref ->
  Forall (fun h => length h <= S (length ref)) hyps.
Proof.
  intros Hrun Hb0 Href. unfold greedy in Hrun.
  apply bind_ok in Hrun. destruct Hrun as (s0 & Hinit & Hrun).
  apply bind_ok in Hrun. destruct Hrun as (ytime & _ & Hrun).
  apply bind_ok in Hrun. destruct Hrun as (s & Hloop & Hrun).
  apply bind_ok in Hrun. destruct Hrun as (hb & _ & Hrun).
  apply bind_ok in Hrun. destruct Hrun as (hyps' & Hrun & Hlog).
  apply bind_ok in Hlog. destruct Hlog as (lg & _ & Hlog). injection Hlog as ->.
  assert (Hnil : g_hyps_batch s0 = []).
  { unfold initial_state in Hinit.
    apply bind_ok in Hinit. destruct Hinit as (y0 & _ & Hinit).
    injection Hinit as <-. reflexivity. }
  assert (Hsteps : length (g_hyps_batch s) <= S (length ref)).
  { unfold greedy_loop, for_break in Hloop.
    apply (for_break_from_post (greedy_iter m dec true refs_id bs ytime)
             (fun k t => length (g_hyps_batch t) = k /\ k <= length ref)
             (fun t => length (g_hyps_batch t) <= S (length ref)) ytime 0 s0 s).
    - rewrite Hnil. simpl. lia.
    - intros k t r _ [Hlen Hk] Hr.
      apply greedy_iter_steps in Hr. destruct r as [t'|t'].
      + destruct Hr as [Hl Hrefs]. split; [lia|].
        specialize (Hrefs eq_refl b0 ref Hb0 Href). lia.
      + lia.
    - intros t [Hlen Hk]. lia.
    - exact Hloop. }
  apply map_result_Forall2 in Hrun.
  clear -Hrun Hsteps.
  induction Hrun as [|b h l ys Hh _ IH]; constructor; [|exact IH].
  apply hyp_of_length in Hh. lia.
Qed.
End GreedyEdges.


Lemma greedy_oracle_shortest_reference_witness :
  Forall (fun h => length h <= 3) [[1; 2]; [5; 6; 2]].
Proof.
  apply (greedy_oracle_shortest_reference two_streams fwd_decoder 2 10 1%Q false
           [[1; 1]; [5; 6; 7; 8]] None false 0 [[1; 2]; [5; 6; 2]] 0 [1; 1]).
  - reflexivity.
  - lia.
  - reflexivity.
Defined.

(** ** The recurrent state cell: when it returns, and repeated calls *)

Lemma for_range_from_ran {St : Type} (body : nat -> St -> result St) :
  forall n i s s',
    for_range_from body i n s = Ok s' ->
    forall k, i <= k < i + n -> exists t t', body k t = Ok t'.
Proof.
  induction n as [|n IH]; intros i s s' Hrun k Hk; [lia|].
  simpl in Hrun. apply bind_ok in Hrun. destruct Hrun as (t' & Ht' & Hrest).
  destruct (Nat.eq_dec k i) as [->|Hne].
  - exists s, t'. exact Ht'.
  - apply (IH (S i) t' s' Hrest). lia.
Qed.

Section StateCell.
Import Recurrency DecodeStep.
Context {Tensor : Type} (ops : cell_ops Tensor) (dec : decoder).

Lemma run_cell_shape (dst : dstate_t Tensor) (l : nat) (x : Tensor)
      (hc : Tensor * option Tensor) :
  run_cell ops dec dst l x = Ok hc ->
  l < length (fst dst) /\
  match rnn_type dec with
  | lstm => exists cs, snd dst = Some cs /\ l < length cs
  | gru => True
  end.
Proof.
  unfold run_cell. destruct (rnn_type dec); intros H.
  - apply bind_ok in H. destruct H as (hx & Ehx & H).
    apply bind_ok in H. destruct H as (cs & Ecs & H).
    apply bind_ok in H. destruct H as (cx & Ecx & _).
    apply index_ok_inv in Ehx. apply index_ok_inv in Ecx.
    split; [apply Ehx|].
    destruct (snd dst) as [cs'|]; [|discriminate Ecs].
    injection Ecs as ->. exists cs. split; [reflexivity | apply Ecx].
  - apply bind_ok in H. destruct H as (hx & Ehx & _).
    apply index_ok_inv in Ehx. split; [apply Ehx | exact I].
Qed.

Lemma recurrency_ok (inputs : Tensor) (dst : dstate_t Tensor) :
  1 <= n_layers dec -> well_shaped dec dst ->
  exists r, recurrency ops dec inputs dst = Ok r /\
            length (fst (dstate r)) = n_layers dec /\
            (rnn_type dec = lstm -> length (snd (dstate r)) = n_layers dec).
Proof.
  intros Hpos Hws.
  destruct (layers_loop ops dec dst inputs Hws) as (s & Es & _ & Hhx & Hcx & _).
  unfold recurrency. rewrite Es. cbn [bind].
  assert (Hst : torch_stack (ls_hxs s) = Ok (ls_hxs s)).
  { destruct (ls_hxs s); [simpl in Hhx; lia | reflexivity]. }
  rewrite Hst. cbn [bind].
  destruct (rnn_type dec) eqn:Ety.
  - assert (Hsc : torch_stack (ls_cxs s) = Ok (ls_cxs s)).
    { specialize (Hcx eq_refl). destruct (ls_cxs s); [simpl in Hcx; lia | reflexivity]. }
    rewrite Hsc. cbn [bind]. eexists. split; [reflexivity|].
    cbn [dstate fst snd]. split; [exact Hhx | intros _; apply Hcx; reflexivity].
  - cbn [bind]. eexists. split; [reflexivity|].
    cbn [dstate fst snd]. split; [exact Hhx | discriminate].
Qed.

(** X4. [recurrency] returns exactly when the decoder has at least one layer and
    the state holds a slice per layer (for an LSTM: of both [hxs] and [cxs]);
    with no layer it raises [RuntimeError], whatever the state. *)
Theorem recurrency_returns_iff (inputs : Tensor) (dst : dstate_t Tensor) :
  ((exists r, recurrency ops dec inputs dst = Ok r) <->
   1 <= n_layers dec /\ well_shaped dec dst) /\
  (n_layers dec = 0 -> recurrency ops dec inputs dst = Raise RuntimeError).
Proof.
  split; [split|].
  - intros (r & Hr). unfold recurrency in Hr.
    apply bind_ok in Hr. destruct Hr as (s & Es & Hr).
    destruct (n_layers dec) as [|n] eqn:En.
    { unfold for_range in Es. simpl in Es. injection Es as <-. discriminate Hr. }
    split; [lia|].
    unfold for_range in Es.
    destruct (for_range_from_ran _ _ _ _ _ Es n ltac:(lia)) as (t & t' & Hbody).
    unfold layer_body in Hbody.
    apply bind_ok in Hbody. destruct Hbody as (hc & Ehc & _).
    apply run_cell_shape in Ehc. destruct Ehc as [Hh Hc].
    unfold well_shaped. rewrite En. split; [lia|].
    destruct (rnn_type dec); [|exact I].
    destruct Hc as (cs & Ecs & Hl). exists cs. split; [exact Ecs | lia].
  - intros [Hpos Hws].
    destruct (recurrency_ok inputs dst Hpos Hws) as (r & Er & _).
    exists r. exact Er.
  - intros Hzero. unfold recurrency, for_range. rewrite Hzero. reflexivity.
Qed.

Lemma zero_state_well_shaped (z : Tensor) : well_shaped dec (zero_state dec z).
Proof.
  unfold well_shaped, zero_state. cbn [fst snd]. rewrite repeat_length.
  split; [lia|].
  destruct (rnn_type dec); [|exact I].
  eexists. split; [reflexivity|]. rewrite repeat_length. lia.
Qed.

Lemma next_dstate_well_shaped (r : new_dstates Tensor) :
  length (fst (dstate r)) = n_layers dec ->
  (rnn_type dec = lstm -> length (snd (dstate r)) = n_layers dec) ->
  well_shaped dec (next_dstate r).
Proof.
  intros Hh Hc. unfold well_shaped, next_dstate. cbn [fst snd].
  split; [lia|].
  destruct (rnn_type dec); [|exact I].
  eexists. split; [reflexivity|]. rewrite Hc by reflexivity. lia.
Qed.

Lemma steps_ok (inputs : list Tensor) :
  1 <= n_layers dec ->
  forall dst, well_shaped dec dst -> length (fst dst) = n_layers dec ->
  exists dst', steps ops dec dst inputs = Ok dst' /\
               well_shaped dec dst' /\ length (fst dst') = n_layers dec.
Proof.
  intros Hpos. induction inputs as [|x rest IH]; intros dst Hws Hlen; simpl.
  - exists dst. split; [reflexivity|]. split; assumption.
  - destruct (recurrency_ok x dst Hpos Hws) as (r & Er & Hh & Hc).
    rewrite Er. cbn [bind].
    apply IH; [apply next_dstate_well_shaped; assumption | exact Hh].
Qed.

(** X5. From the zero state, a decoder with at least one layer can be stepped
    any number of times, LSTM or GRU: every call of [recurrency] returns a
    state with one slice per layer, which the next call accepts. *)
Theorem steps_from_zero_state (z : Tensor) (inputs : list Tensor) :
  1 <= n_layers dec ->
  exists dst,
    steps ops dec (zero_state dec z) inputs = Ok dst /\
    well_shaped dec dst /\ length (fst dst) = n_layers dec.
Proof.
  intros Hpos. apply steps_ok; [exact Hpos | apply zero_state_well_shaped |].
  unfold zero_state. cbn [fst]. apply repeat_length.
Qed.
End StateCell.

Lemma steps_from_zero_state_witness :
  exists dst,
    DecodeStep.steps Recurrency.z_ops proj_decoder
      (DecodeStep.zero_state proj_decoder 0%Z) [3%Z; 4%Z; 5%Z] = Ok dst /\
    Recurrency.well_shaped proj_decoder dst /\ length (fst dst) = 1.
Proof.
  apply (steps_from_zero_state Recurrency.z_ops proj_decoder 0%Z [3%Z; 4%Z; 5%Z]).
  simpl. lia.
Defined.

(** ** Beam search: shape and order of what is returned *)

Lemma tl_app_nonempty {A : Type} (l : list A) (x : A) :
  l <> [] -> tl (l ++ [x]) = tl l ++ [x].
Proof. destruct l; [congruence | reflexivity]. Qed.

Lemma last_snoc {A : Type} (l : list A) (x d : A) : last (l ++ [x]) d = x.
Proof. apply last_last. Qed.

Lemma eos_only_last_closed (e : nat) (pre : list nat) :
  ~ In e pre -> Greedy.eos_only_last e (pre ++ [e]).
Proof.
  intros Hnin i Hi. rewrite length_app. simpl.
  destruct (Nat.lt_ge_cases i (length pre)) as [Hlt|Hge].
  - rewrite nth_error_app1 in Hi by exact Hlt.
    exfalso. apply Hnin. apply (nth_error_In _ _ Hi).
  - assert (Hb : i < length (pre ++ [e])) by (apply nth_error_Some; congruence).
    rewrite length_app in Hb. simpl in Hb. lia.
Qed.

Lemma eos_only_first_closed (e : nat) (l : list nat) :
  ~ In e l -> Greedy.eos_only_first e (e :: l).
Proof.
  intros Hnin [|i] Hi; [reflexivity|].
  simpl in Hi. exfalso. apply Hnin. apply (nth_error_In _ _ Hi).
Qed.

Lemma eos_absent (e : nat) (h : list nat) :
  ~ In e h -> Greedy.eos_only_last e h /\ Greedy.eos_only_first e h.
Proof.
  intros Hnin. split; intros i Hi; exfalso; apply Hnin; apply (nth_error_In _ _ Hi).
Qed.

Lemma in_removelast {A : Type} (l : list A) (x : A) : In x (removelast l) -> In x l.
Proof.
  induction l as [|a [|b l] IH]; simpl; intros H; [exact H | destruct H |].
  destruct H as [H|H]; [left; exact H | right; apply IH; exact H].
Qed.

Lemma in_tl {A : Type} (l : list A) (x : A) : In x (tl l) -> In x l.
Proof. destruct l; simpl; [intros [] | intros H; right; exact H]. Qed.

(** [[f(l[n]) for n in range(k)]]: the first [k] entries of [l], which must
    exist. *)
Lemma map_result_index_seq {A B : Type} (l : list A) (g : A -> result B) :
  forall k i ys,
    map_result (fun n => h <- index l n ;; g h) (seq i k) = Ok ys ->
    (k = 0 \/ i + k <= length l) /\
    Forall2 (fun h y => g h = Ok y) (firstn k (skipn i l)) ys.
Proof.
  induction k as [|k IH]; intros i ys H; simpl in H.
  - injection H as <-. split; [left; reflexivity | constructor].
  - apply bind_ok in H. destruct H as (y & Ey & H).
    apply bind_ok in H. destruct H as (ys' & Eys' & H). injection H as <-.
    apply bind_ok in Ey. destruct Ey as (h & Eh & Egh).
    apply index_ok_inv in Eh. destruct Eh as [Hi Hnth].
    destruct (IH (S i) ys' Eys') as [Hk HF].
    split; [right; destruct Hk as [->|Hk]; lia|].
    assert (Hsk : skipn i l = h :: skipn (S i) l).
    { clear -Hi Hnth. revert i Hi Hnth. induction l as [|a l IHl]; intros i Hi Hnth.
      - simpl in Hi. lia.
      - destruct i as [|i]; simpl in *.
        + rewrite (Hnth a). reflexivity.
        + apply IHl; [lia | exact Hnth]. }
    rewrite Hsk. simpl. constructor; [exact Egh | exact HF].
Qed.

Lemma Forall2_Ok_map {A B : Type} (f : A -> B) (l : list A) (ys : list B) :
  Forall2 (fun h y => Ok (f h) = Ok y) l ys -> ys = map f l.
Proof.
  induction 1 as [|h y l ys Hy _ IH]; [reflexivity|].
  simpl. injection Hy as <-. rewrite IH. reflexivity.
Qed.

Section NBestReading.
Import BeamSearch BeamOutput.
Context {P : payload} (dec : decoder) (nbest : nat).

(** What the n-best list holds: the first [nbest] hypotheses of the sorted
    set, which must exist. *)
Lemma nbest_list_reads (fin : list (hypothesis P)) (u : utt_result P) :
  nbest_list dec nbest fin = Ok u ->
  (nbest = 0 \/ nbest <= length fin) /\
  nbest_hyps_idx u = map (returned dec) (firstn nbest fin) /\
  nbest_scores u = map score_attn (firstn nbest fin) /\
  Forall2 (fun h f => hyp h <> [] /\ f = (last (hyp h) 0 =? eos dec))
          (firstn nbest fin) (eos_flags u).
Proof.
  unfold nbest_list. intros H.
  apply bind_ok in H. destruct H as (idx & Eidx & H).
  apply bind_ok in H. destruct H as (h0 & _ & H).
  apply bind_ok in H. destruct H as (a & _ & H).
  apply bind_ok in H. destruct H as (sc & Esc & H).
  apply bind_ok in H. destruct H as (fl & Efl & H).
  injection H as <-. cbn [nbest_hyps_idx nbest_scores eos_flags].
  apply map_result_index_seq in Eidx. destruct Eidx as [Hlen Hidx].
  apply map_result_index_seq in Esc. destruct Esc as [_ Hsc].
  apply map_result_index_seq in Efl. destruct Efl as [_ Hfl].
  simpl in Hidx, Hsc, Hfl.
  split; [exact Hlen|].
  split; [apply (Forall2_Ok_map (returned dec)); exact Hidx|].
  split; [apply (Forall2_Ok_map score_attn); exact Hsc|].
  clear -Hfl. induction Hfl as [|h f l fs Hf _ IH]; constructor; [|exact IH].
  apply bind_ok in Hf. destruct Hf as (e & Ee & Hf). injection Hf as <-.
  apply index_ok_inv in Ee. destruct Ee as [Hlt Hnth].
  assert (Hne : hyp h <> []) by (destruct (hyp h); [simpl in Hlt; lia | discriminate]).
  split; [exact Hne|].
  destruct (exists_last Hne) as (l' & x & El).
  rewrite El, last_snoc. rewrite El in Hnth.
  rewrite length_app in Hnth. simpl in Hnth.
  specialize (Hnth 0). rewrite app_nth2 in Hnth by lia.
  replace (length l' + 1 - 1 - length l') with 0 in Hnth by lia.
  simpl in Hnth. rewrite Hnth. reflexivity.
Qed.
End NBestReading.

Section BeamShape.
Import BeamSearch BeamOutput.
Context {P : payload} (C : collaborators P) (dec : decoder) (prm : params).
Context (has_lm has_ctc : bool) (elen : nat) (refs_id : list (list nat)).
Context (utt_ids : option (list String.string)) (idx2token : option bool) (b : nat).

Lemma child_ended (p h : hypothesis P) (idx : nat) :
  hyp p <> [] -> hyp h = hyp p ++ [idx] -> ended dec h = (idx =? eos dec).
Proof.
  intros Hne Hh. unfold ended. rewrite Hh, last_snoc, length_app. simpl.
  assert (Hlt : (1 <? length (hyp p) + 1) = true).
  { apply Nat.ltb_lt. destruct (hyp p); [congruence | simpl; lia]. }
  rewrite Hlt. reflexivity.
Qed.

Lemma children_split (parents pruned : list (hypothesis P)) :
  Forall (eos_free dec) parents ->
  Forall (child_of parents) pruned ->
  Forall (eos_free dec) (filter (fun h => negb (ended dec h)) pruned) /\
  Forall (eos_closed dec) (filter (ended dec) pruned).
Proof.
  intros Hpar Hch. rewrite Forall_forall in Hpar, Hch.
  split; apply Forall_forall; intros h Hh; apply filter_In in Hh;
    destruct Hh as [Hin Hend];
    destruct (Hch h Hin) as (p & idx & Hp & Hhyp);
    destruct (Hpar p Hp) as [Hne Hfree];
    rewrite (child_ended p h idx Hne Hhyp) in Hend.
  - apply negb_true_iff, Nat.eqb_neq in Hend. split.
    + rewrite Hhyp. destruct (hyp p); discriminate.
    + rewrite Hhyp, (tl_app_nonempty _ _ Hne). intros Hin'.
      apply in_app_or in Hin'. destruct Hin' as [Hin'|[Heq|[]]];
        [exact (Hfree Hin') | congruence].
  - apply Nat.eqb_eq in Hend. subst idx.
    exists (tl (hyp p)). split; [|exact Hfree].
    rewrite Hhyp. apply tl_app_nonempty. exact Hne.
Qed.

Lemma eos_inv_loop (ytime : nat) (s0 s : beam_state P) :
  recog_oracle prm = false -> eos_inv dec s0 ->
  for_break (beam_iter C dec prm has_lm has_ctc elen refs_id b) ytime s0 = Ok s ->
  eos_inv dec s.
Proof.
  intros Hor Hinv Hrun. unfold for_break in Hrun.
  apply (for_break_from_post (beam_iter C dec prm has_lm has_ctc elen refs_id b)
           (fun _ t => eos_inv dec t) (eos_inv dec) ytime 0 s0 s);
    [exact Hinv | | intros t Ht; exact Ht | exact Hrun].
  intros k t r _ [Hlive Hdone] Hr.
  destruct (beam_iter_inv C dec prm has_lm has_ctc elen refs_id b k t r Hr)
    as (pruned & reflen & Hch & _ & _ & Hshape).
  destruct (children_split (hyps t) pruned Hlive Hch) as [Hl' Hd'].
  unfold completes in Hshape. rewrite Hor in Hshape.
  destruct r as [t'|t'].
  - destruct Hshape as (Eh & Ee & _). split.
    + rewrite Eh. exact Hl'.
    + rewrite Ee. apply Forall_app. split; assumption.
  - destruct Hshape as (Eh & Ee & _). split.
    + rewrite Eh. exact Hlive.
    + rewrite Ee. apply Forall_forall. intros h Hh. apply in_firstn in Hh.
      revert h Hh. apply Forall_forall. apply Forall_app. split; assumption.
Qed.

Lemma global_pruning_members (nbest : nat) (s : beam_state P) (h : hypothesis P) :
  In h (global_pruning nbest s) -> In h (hyps s) \/ In h (end_hyps s).
Proof.
  unfold global_pruning. destruct (length (end_hyps s) =? 0); [left; assumption|].
  destruct ((length (end_hyps s) <? nbest) && (1 <? nbest)); [|right; assumption].
  intros H. apply in_app_or in H. destruct H as [H|H]; [right; exact H|].
  left. apply in_firstn in H. exact H.
Qed.

Lemma returned_shape (h : hypothesis P) :
  eos_free dec h \/ eos_closed dec h ->
  (if bwd dec then Greedy.eos_only_first (eos dec) (returned dec h)
   else Greedy.eos_only_last (eos dec) (returned dec h)) /\
  ~ In (eos dec)
       (if last (hyp h) 0 =? eos dec
        then (if bwd dec then tl (returned dec h) else removelast (returned dec h))
        else returned dec h).
Proof.
  unfold returned. intros [[Hne Hfree]|(pre & Epre & Hnin)].
  - split.
    + destruct (bwd dec).
      * apply eos_absent. rewrite <- in_rev. exact Hfree.
      * apply eos_absent. exact Hfree.
    + destruct (last (hyp h) 0 =? eos dec); destruct (bwd dec); intros Hin.
      * apply in_tl in Hin. apply in_rev in Hin. exact (Hfree Hin).
      * apply in_removelast in Hin. exact (Hfree Hin).
      * apply in_rev in Hin. exact (Hfree Hin).
      * exact (Hfree Hin).
  - assert (Hlast : last (hyp h) 0 = eos dec).
    { destruct (hyp h) as [|x t]; simpl in Epre.
      - destruct pre; discriminate Epre.
      - subst t. change (x :: pre ++ [eos dec]) with ((x :: pre) ++ [eos dec]).
        apply last_snoc. }
    rewrite Hlast, Nat.eqb_refl, Epre. split.
    + destruct (bwd dec).
      * rewrite rev_app_distr. simpl. apply eos_only_first_closed.
        rewrite <- in_rev. exact Hnin.
      * apply eos_only_last_closed. exact Hnin.
    + destruct (bwd dec).
      * rewrite rev_app_distr. simpl. rewrite <- in_rev. exact Hnin.
      * rewrite removelast_last. exact Hnin.
Qed.

(** X6. Without teacher forcing, a sequence returned for an utterance holds the
    end symbol at most once: as its last token, as its first token for a
    backward decoder (reversed output). With [exclude_eos] the returned
    sequences hold no end symbol at all. *)
Theorem beam_eos_only_at_end (nbest : nat) (h0 : hypothesis P) (u : utt_result P) :
  recog_oracle prm = false -> hyp h0 = [eos dec] ->
  beam_search_utt C dec prm has_lm has_ctc nbest elen refs_id utt_ids idx2token b h0
  = Ok u ->
  Forall (fun h => if bwd dec then Greedy.eos_only_first (eos dec) h
                   else Greedy.eos_only_last (eos dec) h) (nbest_hyps_idx u) /\
  exists hs, strip_eos dec nbest u = Ok hs /\
             length hs = nbest /\ Forall (fun h => ~ In (eos dec) h) hs.
Proof.
  intros Hor Hh0 Hrun. unfold beam_search_utt in Hrun.
  apply bind_ok in Hrun. destruct Hrun as (_ & _ & Hrun).
  apply bind_ok in Hrun. destruct Hrun as (s & Hloop & Hrun).
  apply bind_ok in Hrun. destruct Hrun as (_ & _ & Hrun).
  unfold beam_loop in Hloop.
  apply bind_ok in Hloop. destruct Hloop as (ytime & _ & Hloop).
  assert (Hinv : eos_inv dec s).
  { apply (eos_inv_loop ytime {| hyps := [h0]; end_hyps := [] |} s Hor); [|exact Hloop].
    split; [|constructor]. constructor; [|constructor].
    split; rewrite Hh0; [discriminate | intros []]. }
  set (fin := sorted_desc score (global_pruning nbest s)) in *.
  assert (Hfin : forall h, In h fin -> eos_free dec h \/ eos_closed dec h).
  { intros h Hh. apply sorted_desc_In in Hh. apply global_pruning_members in Hh.
    destruct Hinv as [Hl Hd]. rewrite Forall_forall in Hl, Hd.
    destruct Hh as [Hh|Hh]; [left; apply Hl | right; apply Hd]; exact Hh. }
  destruct (nbest_list_reads dec nbest fin u Hrun) as (Hlen & Eidx & _ & Hfl).
  assert (Hfirst : forall h, In h (firstn nbest fin) ->
                             eos_free dec h \/ eos_closed dec h).
  { intros h Hh. apply Hfin. apply in_firstn in Hh. exact Hh. }
  split.
  - rewrite Eidx. apply Forall_forall. intros x Hx. apply in_map_iff in Hx.
    destruct Hx as (h & <- & Hh). apply returned_shape. apply Hfirst. exact Hh.
  - unfold strip_eos. rewrite Eidx.
    assert (Hl1 : length (firstn nbest fin) = nbest).
    { rewrite length_firstn. destruct Hlen as [->|Hl]; lia. }
    clear Eidx Hrun Hlen.
    assert (Hgen : forall i k l fs,
               length l = i + k -> Forall2 (fun (h : hypothesis P) f =>
                   hyp h <> [] /\ f = (last (hyp h) 0 =? eos dec)) l fs ->
               (forall h, In h l -> eos_free dec h \/ eos_closed dec h) ->
               exists hs,
                 map_result
                   (fun n => h <- index (map (returned dec) l) n ;;
                             f <- index fs n ;;
                             Ok (if f then (if bwd dec then tl h else removelast h) else h))
                   (seq i k) = Ok hs /\
                 length hs = k /\ Forall (fun h => ~ In (eos dec) h) hs).
    { intros i k. revert i. induction k as [|k IH]; intros i l fs Hl HF Hsh; simpl.
      - exists []. split; [reflexivity|]. split; [reflexivity | constructor].
      - assert (Hfs : length fs = length l) by (symmetry; apply (Forall2_length HF)).
        destruct (index_ok l i) as (h & _ & Hn); [lia|].
        rewrite (index_nth (map (returned dec) l) i []) by (rewrite length_map; lia).
        cbn [bind].
        rewrite (index_nth fs i false) by lia. cbn [bind].
        destruct (IH (S i) l fs ltac:(lia) HF Hsh) as (hs & Ehs & Hlen & Hall).
        rewrite Ehs. cbn [bind]. eexists. split; [reflexivity|].
        split; [simpl; lia|]. constructor; [|exact Hall].
        assert (Hf : nth i fs false = (last (hyp h) 0 =? eos dec)).
        { clear -HF Hn. revert i Hn. induction HF as [|a f l' fs' [_ Hf] _ IH2];
            intros i Hn.
          - destruct i; discriminate Hn.
          - destruct i as [|i]; simpl in *.
            + injection Hn as <-. exact Hf.
            + apply IH2. exact Hn. }
        rewrite Hf.
        rewrite (nth_indep (map (returned dec) l) [] (returned dec h))
          by (rewrite length_map; lia).
        rewrite (map_nth (returned dec)).
        rewrite (nth_error_nth _ _ h Hn).
        apply returned_shape. apply Hsh. apply (nth_error_In _ _ Hn). }
    destruct (Hgen 0 nbest (firstn nbest fin) (eos_flags u) Hl1 Hfl Hfirst)
      as (hs & Ehs & Hlhs & Hall).
    exists hs. split; [exact Ehs|]. split; assumption.
Qed.

(** X7. The hypotheses of an utterance are returned in non-increasing order of
    their fused score: entry [n] is the [n]-th hypothesis of the stable
    descending sort of the pruned set, so the first one has the highest fused
    score of the set; the scores returned beside them are their
    attention-only scores. *)
Theorem nbest_in_score_order (nbest : nat) (h0 : hypothesis P) (u : utt_result P) :
  beam_search_utt C dec prm has_lm has_ctc nbest elen refs_id utt_ids idx2token b h0
  = Ok u ->
  exists s fin,
    beam_loop C dec prm has_lm has_ctc elen refs_id b h0 = Ok s /\
    Permutation fin (global_pruning nbest s) /\
    StronglySorted (desc score) fin /\
    (nbest = 0 \/ nbest <= length fin) /\
    nbest_hyps_idx u = map (returned dec) (firstn nbest fin) /\
    nbest_scores u = map score_attn (firstn nbest fin) /\
    (forall best h, nth_error fin 0 = Some best -> In h (global_pruning nbest s) ->
                    (score h <= score best)%Q).
Proof.
  intros Hrun. unfold beam_search_utt in Hrun.
  apply bind_ok in Hrun. destruct Hrun as (_ & _ & Hrun).
  apply bind_ok in Hrun. destruct Hrun as (s & Hloop & Hrun).
  apply bind_ok in Hrun. destruct Hrun as (_ & _ & Hrun).
  exists s, (sorted_desc score (global_pruning nbest s)).
  destruct (nbest_list_reads dec nbest _ u Hrun) as (Hlen & Eidx & Esc & _).
  split; [exact Hloop|]. split; [apply sorted_desc_perm|].
  split; [apply sorted_desc_sorted|].
  split; [exact Hlen|]. split; [exact Eidx|]. split; [exact Esc|].
  intros best h Hbest Hh.
  pose proof (sorted_desc_sorted score (global_pruning nbest s)) as Hsorted.
  apply (sorted_desc_In score) in Hh.
  destruct (sorted_desc score (global_pruning nbest s)) as [|x l]; [destruct Hh|].
  simpl in Hbest. injection Hbest as <-.
  destruct Hh as [<-|Hh]; [apply Qle_refl|].
  apply StronglySorted_inv in Hsorted. destruct Hsorted as [_ Hall].
  rewrite Forall_forall in Hall. apply (Hall h Hh).
Qed.
End BeamShape.

Lemma beam_eos_only_at_end_witness :
  exists u,
    BeamSearch.beam_search_utt plain_collab eos1_decoder plain_params false false 1 3 []
      None None 0 (BeamSearch.bos eos1_decoder) = Ok u /\
    Forall (Greedy.eos_only_last 1) (BeamSearch.nbest_hyps_idx u) /\
    exists hs, BeamSearch.strip_eos eos1_decoder 1 u = Ok hs /\
               length hs = 1 /\ Forall (fun h => ~ In 1 h) hs.
Proof.
  eexists. split; [vm_compute; reflexivity|].
  apply (@beam_eos_only_at_end BeamSearch.no_payload plain_collab eos1_decoder plain_params
           false false 3 [] None None 0 1 (BeamSearch.bos eos1_decoder)).
  - reflexivity.
  - reflexivity.
  - vm_compute. reflexivity.
Defined.

Lemma nbest_in_score_order_witness :
  exists u s fin,
    BeamSearch.beam_search_utt plain_collab eos1_decoder plain_params false false 1 3 []
      None None 0 (BeamSearch.bos eos1_decoder) = Ok u /\
    BeamSearch.beam_loop plain_collab eos1_decoder plain_params false false 3 [] 0
      (BeamSearch.bos eos1_decoder) = Ok s /\
    Permutation fin (BeamSearch.global_pruning 1 s) /\
    StronglySorted (desc BeamSearch.score) fin /\
    BeamSearch.nbest_hyps_idx u = map (BeamOutput.returned eos1_decoder) (firstn 1 fin) /\
    BeamSearch.nbest_scores u = map BeamSearch.score_attn (firstn 1 fin).
Proof.
  eexists.
  destruct (@nbest_in_score_order BeamSearch.no_payload plain_collab eos1_decoder plain_params
              false false 3 [] None None 0 1 (BeamSearch.bos eos1_decoder) _
              ltac:(vm_compute; reflexivity))
    as (s & fin & H1 & H2 & H3 & _ & H5 & H6 & _).
  exists s, fin. split; [vm_compute; reflexivity|].
  repeat split; assumption.
Defined.

(** ** The second sort of the joint CTC/attention search *)

Section Resort.
Import BeamSearch.
Context {P : payload} (C : collaborators P) (dec : decoder) (prm : params).

(** X8. With a CTC scorer, candidate [k] of the second sort takes its token and
    its CTC state from position [q = joint_ids_topk[k]] of the pre-selection,
    while the CTC score and the LM score stored in the new hypothesis are
    read at position [k] of the pre-selection: they are the scores of the
    token at position [k], which is the new token only where the second sort
    leaves position [k] in place. *)
Theorem resort_scores_read_by_old_position (has_lm : bool) (elen : nat)
        (aw : list (AttW P)) (beam : hypothesis P) (out : step_out P)
        (c : candidates P) (k : nat) (h : hypothesis P) :
  select_candidates C prm has_lm true aw beam out = Ok c ->
  extend dec prm elen beam out c k = Ok (Some h) ->
  exists pre topk2 q,
    topk (topk_rank C) (recog_beam_width prm)
         (total_scores prm beam (so_scores_attn out)) = Ok pre /\
    is_topk (recog_beam_width prm)
            (add_weighted (fused_scores C prm has_lm aw beam out pre)
               (total_scores_ctc c) (recog_ctc_weight prm)) topk2 /\
    nth_error (map snd topk2) k = Some q /\
    hyp h = hyp beam ++ [nth q (map snd pre) 0] /\
    ctc_state h =
      Some (snd (ctc_prefix_score C (hyp beam) (map snd pre) (ctc_state beam) q)) /\
    score_ctc h = fst (ctc_prefix_score C (hyp beam) (map snd pre) (ctc_state beam) k) /\
    score_lm h =
      (if has_lm
       then (score_lm beam + nth (nth k (map snd pre) 0%nat) (so_scores_lm out) 0)%Q
       else 0%Q).
Proof.
  intros Hsel Hext.
  destruct (select_candidates_ok_inv C prm _ _ _ _ _ _ Hsel) as [Hge Hcov].
  destruct (select_candidates_spec C prm has_lm true aw beam out Hge Hcov)
    as (pre & c' & Epre & Hpre & Esel & Hlm & Hctc & _ & Hyes).
  rewrite Esel in Hsel. injection Hsel as <-.
  destruct (Hyes eq_refl) as (topk2 & Hjl & Etopk2 & Htopk2 & Hsc & Hids).
  cbv zeta in *.
  assert (Hlen : length pre = recog_beam_width prm) by (apply Hpre).
  assert (Hlen2 : length topk2 = recog_beam_width prm) by (apply Htopk2).
  (* the fields of [c'] *)
  unfold select_candidates in Esel. rewrite Epre in Esel. cbn [bind] in Esel.
  rewrite (coverage_term C prm aw beam Hcov) in Esel. cbn [bind] in Esel.
  cbv zeta in Esel.
  match type of Esel with
  | context [topk _ _ ?j] =>
      assert (Ej : topk (topk_rank C) (recog_beam_width prm) j = Ok topk2)
  end.
  { unfold fused_scores in Etopk2. cbv zeta in Etopk2.
    rewrite <- Etopk2. f_equal.
    assert (Ectc : total_scores_ctc c' =
                   map (fun k0 => fst (ctc_prefix_score C (hyp beam) (map snd pre)
                                         (ctc_state beam) k0))
                       (seq 0 (length (map snd pre)))).
    { destruct (topk _ (recog_beam_width prm) _) in Esel; [|discriminate Esel].
      cbn [bind] in Esel. injection Esel as <-. reflexivity. }
    rewrite Ectc. destruct has_lm; reflexivity. }
  rewrite Ej in Esel. cbn [bind] in Esel. injection Esel as Ec'.
  unfold extend in Hext.
  apply bind_ok in Hext. destruct Hext as (idx & Eidx & Hext).
  apply bind_ok in Hext. destruct Hext as (s & _ & Hext).
  apply bind_ok in Hext. destruct Hext as (skip & _ & Hext).
  destruct skip; [discriminate Hext|].
  apply bind_ok in Hext. destruct Hext as (sa & _ & Hext).
  apply bind_ok in Hext. destruct Hext as (sc & Esc & Hext).
  apply bind_ok in Hext. destruct Hext as (sl & Esl & Hext).
  injection Hext as <-. cbn [hyp ctc_state score_ctc score_lm].
  apply index_ok_inv in Eidx. destruct Eidx as [Hk Eidx].
  apply index_ok_inv in Esc. destruct Esc as [_ Esc].
  apply index_ok_inv in Esl. destruct Esl as [_ Esl].
  rewrite Hids, !length_map, Hlen2 in Hk.
  destruct (nth_error (map snd topk2) k) as [q|] eqn:Eq.
  2:{ apply nth_error_None in Eq. rewrite length_map in Eq. lia. }
  exists pre, topk2, q.
  split; [exact Epre|]. split; [exact Htopk2|]. split; [exact Eq|].
  assert (Hq : nth k (map snd topk2) 0 = q) by (apply nth_error_nth; exact Eq).
  rewrite <- Ec' in *. cbn [topk_ids total_scores_ctc total_scores_lm ctc_states] in *.
  split; [|split; [|split]].
  - f_equal. f_equal. rewrite <- (Eidx 0).
    rewrite (nth_indep _ 0 (nth 0 (map snd pre) 0))
      by (rewrite length_map, length_map; lia).
    rewrite (map_nth (fun q0 => nth q0 (map snd pre) 0)).
    rewrite Hq. reflexivity.
  - rewrite Hq. reflexivity.
  - rewrite <- (Esc 0%Q).
    rewrite (nth_indep _ 0%Q
               (fst (ctc_prefix_score C (hyp beam) (map snd pre) (ctc_state beam) 0)))
      by (rewrite length_map, length_seq, length_map; lia).
    rewrite (map_nth (fun k0 => fst (ctc_prefix_score C (hyp beam) (map snd pre)
                                       (ctc_state beam) k0))).
    rewrite seq_nth by (rewrite length_map; lia). reflexivity.
  - rewrite <- (Esl 0%Q). destruct has_lm.
    + rewrite (nth_indep _ 0%Q (score_lm beam + nth 0%nat (so_scores_lm out) 0)%Q)
        by (rewrite !length_map; lia).
      rewrite (map_nth (fun id => (score_lm beam + nth id (so_scores_lm out) 0)%Q)).
      reflexivity.
    + apply nth_repeat.
Qed.
End Resort.

Lemma resort_scores_read_by_old_position_witness :
  exists c h,
    BeamSearch.select_candidates resort_collab resort_params true true []
      (BeamSearch.bos eos1_decoder) (BeamSearch.decode_step resort_collab 0 [] [] 0) = Ok c /\
    BeamSearch.extend eos1_decoder resort_params 3 (BeamSearch.bos eos1_decoder)
      (BeamSearch.decode_step resort_collab 0 [] [] 0) c 0 = Ok (Some h) /\
    BeamSearch.hyp h = [1; 2] /\
    BeamSearch.score_ctc h = nth 0 resort_ctc_row 0%Q /\
    BeamSearch.score_lm h = (0 + nth 0 resort_lm_row 0)%Q /\
    exists (pre topk2 : list (Q * nat)) (q : nat),
      map snd pre = [0; 2] /\
      nth_error (map snd topk2) 0 = Some q /\
      BeamSearch.hyp h = [1] ++ [nth q (map snd pre) 0].
Proof.
  eexists. eexists.
  split; [vm_compute; reflexivity|].
  split; [vm_compute; reflexivity|].
  split; [reflexivity|]. split; [reflexivity|]. split; [reflexivity|].
  destruct (@resort_scores_read_by_old_position BeamSearch.no_payload resort_collab
              eos1_decoder resort_params true 3 [] (BeamSearch.bos eos1_decoder)
              (BeamSearch.decode_step resort_collab 0 [] [] 0) _ 0 _
              ltac:(vm_compute; reflexivity) ltac:(vm_compute; reflexivity))
    as (pre & topk2 & q & Epre & _ & Eq & Ehyp & _).
  exists pre, topk2, q.
  split; [|split; [exact Eq | exact Ehyp]].
  vm_compute in Epre. injection Epre as <-. reflexivity.
Defined.

(** ** A search without decoding steps *)

Section NoSteps.
Import BeamSearch.
Context {P : payload} (C : collaborators P) (dec : decoder) (prm : params).
Context (has_lm has_ctc : bool) (elen : nat) (refs_id : list (list nat)) (b : nat).

End NoSteps.


(** ** The beam search as a call on the decoder object *)

Section SessionFacts.
Import BeamSearch Session.
Context {D Cx A L K : Type}.
Context (rnn_type : Recurrency.rnn_kind) (dec : decoder) (prm : params).
Context (has_lm lm_is_rnnlm has_ctc : bool) (nbest : nat) (exclude_eos : bool).
Context (refs_id : list (list nat)).
Context (utt_ids : option (list String.string)) (idx2token : option bool).
Context (speakers : option (list String.string)).
Context (asr_state_carry_over lm_state_carry_over : bool) (zero : D) (zero_cv : Cx).


Lemma asserts_pass (batch : list (utt_input (payload_of D Cx A L K))) (st : session D L) :
  1 <= nbest <= recog_beam_width prm ->
  (has_lm = true -> (0 < recog_lm_weight prm)%Q) ->
  (@beam_search D Cx A L K rnn_type dec prm has_lm lm_is_rnnlm has_ctc nbest exclude_eos
     refs_id utt_ids idx2token speakers asr_state_carry_over lm_state_carry_over zero
     zero_cv) batch st =
  match (@utterances D Cx A L K rnn_type dec prm has_lm lm_is_rnnlm has_ctc nbest refs_id
     utt_ids idx2token speakers asr_state_carry_over lm_state_carry_over zero zero_cv) 0 batch [] None st with
  | (Raise e, st') => (Raise e, st')
  | (Ok (us, last), st') =>
      match (if exclude_eos then map_result (strip_eos dec nbest) us
             else Ok (map nbest_hyps_idx us)) with
      | Raise e => (Raise e, st')
      | Ok idx =>
          match last with
          | None => (Raise NameError, st')
          | Some end_hyps =>
              match index end_hyps 0 with
              | Raise e => (Raise e, st')
              | Ok best =>
                  (Ok (idx, map best_aws us, map nbest_scores us),
                   {| prev_spk := prev_spk st';
                      dstates_final := dstates best;
                      lmstate_final := lmstate best |})
              end
          end
      end
  end.
Proof.
  intros [Hn1 Hn2] Hlm. unfold beam_search.
  assert (E1 : (1 <=? nbest) && (nbest <=? recog_beam_width prm) = true).
  { apply andb_true_iff. split; apply Nat.leb_le; assumption. }
  rewrite E1. cbn [negb].
  assert (E2 : has_lm && negb (Qlt_bool 0 (recog_lm_weight prm)) = false).
  { destruct has_lm; [|reflexivity].
    specialize (Hlm eq_refl). apply Qlt_bool_iff in Hlm. rewrite Hlm. reflexivity. }
  rewrite E2. reflexivity.
Qed.

(** X10. On an empty batch the loop over the utterances never binds [end_hyps],
    which is read once the loop is over: the call raises [NameError]
    ([UnboundLocalError]) and leaves the session as it was. *)
Theorem beam_search_empty_batch_raises (st : session D L) :
  1 <= nbest <= recog_beam_width prm ->
  (has_lm = true -> (0 < recog_lm_weight prm)%Q) ->
  (@beam_search D Cx A L K rnn_type dec prm has_lm lm_is_rnnlm has_ctc nbest exclude_eos
     refs_id utt_ids idx2token speakers asr_state_carry_over lm_state_carry_over zero
     zero_cv) [] st = (Raise NameError, st).
Proof.
  intros Hn Hlm. rewrite (asserts_pass [] st Hn Hlm).
  cbn [utterances]. destruct exclude_eos; reflexivity.
Qed.

Lemma utt_start_finals (st st' : session D L) (b : nat) (d0 : option D) (l0 : option L) :
  utt_start zero st speakers b asr_state_carry_over lm_state_carry_over lm_is_rnnlm
  = Ok (d0, l0, st') ->
  dstates_final st' = dstates_final st /\ lmstate_final st' = lmstate_final st.
Proof.
  unfold utt_start. destruct speakers as [spk|].
  - intros H. apply bind_ok in H. destruct H as (s & _ & H).
    injection H as _ _ <-. split; reflexivity.
  - intros H. injection H as _ _ <-. split; reflexivity.
Qed.

(** The start states of an utterance are fresh or those stored in the
    session. *)
Lemma utt_start_states (st st' : session D L) (b : nat) (d0 : option D) (l0 : option L) :
  utt_start zero st speakers b asr_state_carry_over lm_state_carry_over lm_is_rnnlm
  = Ok (d0, l0, st') ->
  (d0 = Some zero \/ d0 = dstates_final st) /\ (l0 = None \/ l0 = lmstate_final st).
Proof.
  unfold utt_start. destruct speakers as [spk|].
  - intros H. apply bind_ok in H. destruct H as (s & _ & H).
    injection H as <- <- _. split.
    + destruct (String.eqb s (prev_spk st) && asr_state_carry_over); auto.
    + destruct (String.eqb s (prev_spk st) && (lm_state_carry_over && lm_is_rnnlm)); auto.
  - intros H. injection H as <- <- _. split; left; reflexivity.
Qed.

(** The loop over the utterances never writes the stored states. *)
Lemma utterances_finals (batch : list (utt_input (payload_of D Cx A L K))) :
  forall b acc last st,
    dstates_final (snd ((@utterances D Cx A L K rnn_type dec prm has_lm lm_is_rnnlm has_ctc nbest refs_id
     utt_ids idx2token speakers asr_state_carry_over lm_state_carry_over zero zero_cv) b batch acc last st)) = dstates_final st /\
    lmstate_final (snd ((@utterances D Cx A L K rnn_type dec prm has_lm lm_is_rnnlm has_ctc nbest refs_id
     utt_ids idx2token speakers asr_state_carry_over lm_state_carry_over zero zero_cv) b batch acc last st)) = lmstate_final st.
Proof.
  induction batch as [|u rest IH]; intros b acc last st; cbn [utterances].
  - split; reflexivity.
  - destruct (has_ctc && negb (Qlt_bool 0 (recog_ctc_weight prm)));
      [split; reflexivity|].
    destruct (utt_start zero st speakers b asr_state_carry_over lm_state_carry_over
                        lm_is_rnnlm) as [[[d0 l0] st']|e] eqn:Est;
      [|split; reflexivity].
    destruct (utt_start_finals st st' b d0 l0 Est) as [Hd Hl].
    destruct (utt_search _ _ _ _ _ _ _ _ _ _ _ _ _) as [[r fin]|e];
      [|cbn [snd]; split; assumption].
    destruct (IH (S b) (acc ++ [r]) (Some fin) st') as [Hd' Hl'].
    split; congruence.
Qed.

(** In a loop that returns, every utterance was searched from the start
    states that a session with the stored states of the loop's start gave
    it. *)
Lemma utterances_each (batch : list (utt_input (payload_of D Cx A L K))) :
  forall b acc last st us last' st',
    (@utterances D Cx A L K rnn_type dec prm has_lm lm_is_rnnlm has_ctc nbest refs_id
     utt_ids idx2token speakers asr_state_carry_over lm_state_carry_over zero zero_cv) b batch acc last st = (Ok (us, last'), st') ->
    forall front u back,
      batch = front ++ u :: back ->
      exists stb d0 l0 st1 r fin,
        dstates_final stb = dstates_final st /\
        lmstate_final stb = lmstate_final st /\
        utt_start zero stb speakers (b + length front) asr_state_carry_over
                  lm_state_carry_over lm_is_rnnlm = Ok (d0, l0, st1) /\
        utt_search rnn_type (ui_collab u) dec prm has_lm has_ctc nbest (ui_elen u)
                   refs_id utt_ids idx2token (b + length front)
                   (initial_hyp (ui_collab u) dec has_ctc d0 zero_cv l0) = Ok (r, fin).
Proof.
  induction batch as [|u0 rest IH]; intros b acc last st us last' st' H front u back Eb;
    cbn [utterances] in H.
  - destruct front; discriminate Eb.
  - destruct (has_ctc && negb (Qlt_bool 0 (recog_ctc_weight prm))); [discriminate H|].
    destruct (utt_start zero st speakers b asr_state_carry_over lm_state_carry_over
                        lm_is_rnnlm) as [[[d0 l0] st1]|e] eqn:Est; [|discriminate H].
    destruct (utt_search rnn_type (ui_collab u0) dec prm has_lm has_ctc nbest (ui_elen u0)
                         refs_id utt_ids idx2token b
                         (initial_hyp (ui_collab u0) dec has_ctc d0 zero_cv l0))
      as [[r fin]|e] eqn:Eut; [|discriminate H].
    destruct (utt_start_finals st st1 b d0 l0 Est) as [Hd Hl].
    destruct front as [|f front'].
    + cbn [app] in Eb. injection Eb as <- _.
      exists st, d0, l0, st1, r, fin. cbn [length]. rewrite Nat.add_0_r.
      repeat split; assumption.
    + cbn [app] in Eb. injection Eb as _ Erest.
      destruct (IH (S b) (acc ++ [r]) (Some fin) st1 us last' st' H front' u back Erest)
        as (stb & d1 & l1 & st2 & r1 & fin1 & Hd1 & Hl1 & Est1 & Eut1).
      exists stb, d1, l1, st2, r1, fin1. cbn [length].
      replace (b + S (length front')) with (S b + length front') by lia.
      repeat split; try assumption; congruence.
Qed.

(** What a loop that returns leaves: the sorted hypotheses of the last
    utterance, searched from the start state that the session gave it. *)
Lemma utterances_last (batch : list (utt_input (payload_of D Cx A L K))) :
  forall b acc last st us last' st',
    (@utterances D Cx A L K rnn_type dec prm has_lm lm_is_rnnlm has_ctc nbest refs_id
     utt_ids idx2token speakers asr_state_carry_over lm_state_carry_over zero zero_cv) b batch acc last st = (Ok (us, last'), st') ->
    (batch = [] /\ last' = last /\ st' = st) \/
    exists front u stb d0 l0 r fin,
      batch = front ++ [u] /\
      dstates_final stb = dstates_final st /\
      lmstate_final stb = lmstate_final st /\
      utt_start zero stb speakers (b + length front) asr_state_carry_over
                lm_state_carry_over lm_is_rnnlm = Ok (d0, l0, st') /\
      utt_search rnn_type (ui_collab u) dec prm has_lm has_ctc nbest (ui_elen u)
                 refs_id utt_ids idx2token (b + length front)
                 (initial_hyp (ui_collab u) dec has_ctc d0 zero_cv l0) = Ok (r, fin) /\
      last' = Some fin.
Proof.
  induction batch as [|u rest IH]; intros b acc last st us last' st' H;
    cbn [utterances] in H.
  - injection H as _ <- <-. left. repeat split; reflexivity.
  - right.
    destruct (has_ctc && negb (Qlt_bool 0 (recog_ctc_weight prm))); [discriminate H|].
    destruct (utt_start zero st speakers b asr_state_carry_over lm_state_carry_over
                        lm_is_rnnlm) as [[[d0 l0] st1]|e] eqn:Est; [|discriminate H].
    destruct (utt_search rnn_type (ui_collab u) dec prm has_lm has_ctc nbest (ui_elen u)
                         refs_id utt_ids idx2token b
                         (initial_hyp (ui_collab u) dec has_ctc d0 zero_cv l0))
      as [[r fin]|e] eqn:Eut; [|discriminate H].
    destruct (utt_start_finals st st1 b d0 l0 Est) as [Hd Hl].
    destruct (IH (S b) (acc ++ [r]) (Some fin) st1 us last' st' H)
      as [(-> & -> & ->)|(front & u' & stb & d1 & l1 & r1 & fin1 & -> & Hd1 & Hl1 &
                          Est1 & Eut1 & ->)].
    + exists [], u, st, d0, l0, r, fin. cbn [length app].
      rewrite Nat.add_0_r. repeat split; assumption.
    + exists (u :: front), u', stb, d1, l1, r1, fin1. cbn [length app].
      replace (b + S (length front)) with (S b + length front) by lia.
      repeat split; try assumption; congruence.
Qed.

(** X11. In a call that returns, every utterance of the batch was started
    from fresh states or from the states stored before the call, never from
    those of the utterance before it; the states stored by the call are
    those of the best hypothesis (highest fused score) of the last
    utterance of the batch. A call that raises leaves the stored states
    untouched. *)
Theorem beam_search_stores_last_best (batch : list (utt_input (payload_of D Cx A L K))) (st : session D L) :
  (forall res st',
      (@beam_search D Cx A L K rnn_type dec prm has_lm lm_is_rnnlm has_ctc nbest exclude_eos
     refs_id utt_ids idx2token speakers asr_state_carry_over lm_state_carry_over zero
     zero_cv) batch st = (Ok res, st') ->
      (forall front u back,
          batch = front ++ u :: back ->
          exists stb d0 l0 st1 r fin,
            dstates_final stb = dstates_final st /\
            lmstate_final stb = lmstate_final st /\
            utt_start zero stb speakers (length front) asr_state_carry_over
                      lm_state_carry_over lm_is_rnnlm = Ok (d0, l0, st1) /\
            (d0 = Some zero \/ d0 = dstates_final st) /\
            (l0 = None \/ l0 = lmstate_final st) /\
            utt_search rnn_type (ui_collab u) dec prm has_lm has_ctc nbest (ui_elen u)
                       refs_id utt_ids idx2token (length front)
                       (initial_hyp (ui_collab u) dec has_ctc d0 zero_cv l0)
            = Ok (r, fin)) /\
      exists front u stb d0 l0 st1 r best rest,
        batch = front ++ [u] /\
        dstates_final stb = dstates_final st /\
        lmstate_final stb = lmstate_final st /\
        utt_start zero stb speakers (length front) asr_state_carry_over
                  lm_state_carry_over lm_is_rnnlm = Ok (d0, l0, st1) /\
        utt_search rnn_type (ui_collab u) dec prm has_lm has_ctc nbest (ui_elen u)
                   refs_id utt_ids idx2token (length front)
                   (initial_hyp (ui_collab u) dec has_ctc d0 zero_cv l0)
        = Ok (r, best :: rest) /\
        Forall (fun h => (score h <= score best)%Q) rest /\
        st' = {| prev_spk := prev_spk st1;
                 dstates_final := dstates best;
                 lmstate_final := lmstate best |}) /\
  (forall e st',
      (@beam_search D Cx A L K rnn_type dec prm has_lm lm_is_rnnlm has_ctc nbest exclude_eos
     refs_id utt_ids idx2token speakers asr_state_carry_over lm_state_carry_over zero
     zero_cv) batch st = (Raise e, st') ->
      dstates_final st' = dstates_final st /\ lmstate_final st' = lmstate_final st).
Proof.
  unfold beam_search.
  destruct (negb ((1 <=? nbest) && (nbest <=? recog_beam_width prm))).
  { split; [intros res st' H; discriminate H|].
    intros e st' H. injection H as _ <-. split; reflexivity. }
  destruct (has_lm && negb (Qlt_bool 0 (recog_lm_weight prm))).
  { split; [intros res st' H; discriminate H|].
    intros e st' H. injection H as _ <-. split; reflexivity. }
  pose proof (utterances_finals batch 0 [] None st) as Hfin.
  pose proof (utterances_last batch 0 [] None st) as Hlast.
  pose proof (utterances_each batch 0 [] None st) as Heach.
  destruct ((@utterances D Cx A L K rnn_type dec prm has_lm lm_is_rnnlm has_ctc nbest refs_id
     utt_ids idx2token speakers asr_state_carry_over lm_state_carry_over zero zero_cv) 0 batch [] None st) as [[[us last]|e0] st0].
  2:{ cbn [snd] in Hfin. split; [intros res st' H; discriminate H|].
      intros e st' H. injection H as _ <-. exact Hfin. }
  cbn [snd] in Hfin. specialize (Hlast us last st0 eq_refl).
  specialize (Heach us last st0 eq_refl).
  destruct (if exclude_eos then map_result (strip_eos dec nbest) us
            else Ok (map nbest_hyps_idx us)) as [idx|e1].
  2:{ split; [intros res st' H; discriminate H|].
      intros e st' H. injection H as _ <-. exact Hfin. }
  destruct last as [fin|].
  2:{ split; [intros res st' H; discriminate H|].
      intros e st' H. injection H as _ <-. exact Hfin. }
  destruct (index fin 0) as [best|e2] eqn:Ebest.
  2:{ split; [intros res st' H; discriminate H|].
      intros e st' H. injection H as _ <-. exact Hfin. }
  split; [|intros e st' H; discriminate H].
  intros res st' H. injection H as _ <-.
  split.
  { intros front u back Eb.
    destruct (Heach front u back Eb)
      as (stb & d0 & l0 & st1 & r & fin1 & Hd & Hl & Est & Eut).
    cbn [Nat.add] in Est, Eut.
    destruct (utt_start_states stb st1 (length front) d0 l0 Est) as [Hd0 Hl0].
    rewrite Hd in Hd0. rewrite Hl in Hl0.
    exists stb, d0, l0, st1, r, fin1. repeat split; assumption. }
  destruct Hlast as [(_ & Hnone & _)|(front & u & stb & d0 & l0 & r & fin' & Eb & Hd &
                                      Hl & Est & Eut & Efin)]; [discriminate Hnone|].
  injection Efin as <-.
  destruct fin as [|x rest]; [discriminate Ebest|].
  cbn [index nth_error] in Ebest. injection Ebest as ->.
  exists front, u, stb, d0, l0, st0, r, best, rest.
  cbn [Nat.add] in Est, Eut.
  repeat split; try assumption.
  unfold utt_search in Eut.
  apply bind_ok in Eut. destruct Eut as (ytime & _ & Eut).
  apply bind_ok in Eut. destruct Eut as (s & _ & Eut).
  apply bind_ok in Eut. destruct Eut as (lg & _ & Eut).
  apply bind_ok in Eut. destruct Eut as (ur & _ & Eut).
  injection Eut as _ Esorted.
  pose proof (sorted_desc_sorted score (global_pruning nbest s)) as Hsorted.
  rewrite Esorted in Hsorted. apply StronglySorted_inv in Hsorted. apply Hsorted.
Qed.



End SessionFacts.

Section SessionCrashes.
Import BeamSearch Session.
Context {D Cx A L K : Type}.
Context (dec : decoder) (prm : params).
Context (has_lm lm_is_rnnlm has_ctc : bool) (nbest : nat) (exclude_eos : bool).
Context (refs_id : list (list nat)).
Context (utt_ids : option (list String.string)) (idx2token : option bool).
Context (lm_state_carry_over : bool) (zero : D) (zero_cv : Cx).


Hypothesis nbest_ok : 1 <= nbest <= recog_beam_width prm.
Hypothesis lm_ok : has_lm = true -> (0 < recog_lm_weight prm)%Q.
Hypothesis ctc_ok : has_ctc = true -> (0 < recog_ctc_weight prm)%Q.
Hypothesis no_oracle : recog_oracle prm = false.
Hypothesis ratio_ok : (0 <= recog_max_len_ratio prm)%Q.
Hypothesis no_replace : replace_sos dec = false.


End SessionCrashes.

Lemma beam_search_empty_batch_raises_witness :
  @Session.beam_search unit unit unit unit unit Recurrency.lstm eos1_decoder plain_params
    false false false 1 false [] None None None false false tt tt [] Session.fresh
  = (Raise NameError, Session.fresh).
Proof.
  apply (@beam_search_empty_batch_raises unit unit unit unit unit Recurrency.lstm
           eos1_decoder plain_params false false false 1 false [] None None None false false
           tt tt Session.fresh).
  - simpl. lia.
  - discriminate.
Defined.

Lemma beam_search_stores_last_best_witness :
  exists res st',
    Session.beam_search Recurrency.lstm eos1_decoder plain_params false false false 1 false
      [] None None (Some [SpeakerNames.anna; SpeakerNames.anna]) true false tt tt
      [short_utt; short_utt] anna_session = (Ok res, st') /\
    fst (fst res) = [[[2; 1]]; [[2; 1]]] /\
    (exists front u (best : BeamSearch.hypothesis unit_payload),
        [short_utt; short_utt] = front ++ [u] /\
        Session.dstates_final st' = BeamSearch.dstates best /\
        Session.lmstate_final st' = BeamSearch.lmstate best) /\
    (exists d0 l0 r fin,
        (d0 = Some tt \/ d0 = Session.dstates_final anna_session) /\
        Session.utt_search Recurrency.lstm (Session.ui_collab short_utt) eos1_decoder
          plain_params false false 1 (Session.ui_elen short_utt) [] None None 1
          (BeamSearch.initial_hyp (Session.ui_collab short_utt) eos1_decoder false d0 tt l0)
        = Ok (r, fin)).
Proof.
  eexists. eexists. split; [vm_compute; reflexivity|].
  split; [reflexivity|].
  destruct (@beam_search_stores_last_best unit unit unit unit unit Recurrency.lstm
              eos1_decoder plain_params false false false 1 false [] None None
              (Some [SpeakerNames.anna; SpeakerNames.anna]) true false tt tt
              [short_utt; short_utt] anna_session) as [Hok _].
  destruct (Hok _ _ ltac:(vm_compute; reflexivity)) as [Heach Hlast].
  split.
  - destruct Hlast
      as (front & u & stb & d0 & l0 & st1 & r & best & rest & Eb & _ & _ & _ & _ & _ & Est).
    exists front, u, best. split; [exact Eb|].
    injection Est as _ Hd Hl. split; [exact Hd | exact Hl].
  - destruct (Heach [short_utt] short_utt [] eq_refl)
      as (stb & d0 & l0 & st1 & r & fin & _ & _ & _ & Hd0 & _ & Eut).
    exists d0, l0, r, fin. split; [exact Hd0 | exact Eut].
Defined.



(** ** The search completes *)


Section SearchCompletes.
Import BeamSearch Session.
Context {D Cx A L K : Type}.
Context (dec : decoder) (prm : params) (has_lm has_ctc : bool).
Context (refs_id : list (list nat)).
Context (utt_ids : option (list String.string)) (idx2token : option bool).
Context (V nbest : nat).
(** The end symbol is strictly inside the vocabulary, which holds at least
    [beam_width >= 2] tokens; fewer than [beam_width] hypotheses are asked
    for; the start symbol is not replaced and there is no coverage
    penalty. *)
Hypothesis eos_inside : 0 < eos dec /\ S (eos dec) < V.
Hypothesis width : 2 <= recog_beam_width prm <= V.
Hypothesis nbest_below : 1 <= nbest < recog_beam_width prm.
Hypothesis no_replace : replace_sos dec = false.
Hypothesis no_coverage : (recog_coverage_penalty prm <= 0)%Q.

Section OneUtterance.
Context (C : collaborators (payload_of D Cx A L K)) (elen b : nat).
Hypothesis vocab :
  forall t y hs j, length (so_scores_attn (decode_step C t y hs j)) = V.
Hypothesis state :
  forall t y hs j, (so_dstates (decode_step C t y hs j) : option D) <> None.
Hypothesis mode :
  if recog_oracle prm then b < length refs_id
  else (0 <= recog_max_len_ratio prm)%Q.
Hypothesis ids_ok : forall ids, utt_ids = Some ids -> b < length ids.
Hypothesis ref_ok : idx2token = Some true -> b < length refs_id.



End OneUtterance.


End SearchCompletes.




(** ** The chunk-synchronous search: scores, returned sets and stored state *)

Lemma nth_error_map_some {A B : Type} (f : A -> B) (l : list A) (i : nat) (y : B) :
  nth_error (map f l) i = Some y -> exists x, nth_error l i = Some x /\ y = f x.
Proof.
  rewrite nth_error_map. destruct (nth_error l i) as [x|]; simpl; intros H.
  - injection H as <-. exists x. split; reflexivity.
  - discriminate H.
Qed.

Section ChunkScores.
Import BeamSearch.
Context {P : payload} (C : ChunkSync.collaborators P) (dec : ChunkSync.decoder).
Context (prm : params).

(** X14. In the chunk-synchronous search the additive length penalty is added
    whatever the sign of its weight and whatever [gnmt_decoding] says, and
    the fused score is always divided by the hypothesis length: without LM
    and CTC scorer, a new hypothesis with token [idx] scores
    [((score_attn + logp[idx]) * (1 - ctc_weight) + (len + 1) * lp_weight) / (len + 1)],
    where [len] is the length of its parent without the start symbol. *)
Theorem chunk_score_formula (t : nat) (beam : ChunkSync.hypothesis P)
        (out : step_out P) (c : candidates P) (k : nat) (h : ChunkSync.hypothesis P) :
  ChunkSync.select_candidates C prm false false t beam out = Ok c ->
  ChunkSync.extend dec prm beam out c k = Ok (Some h) ->
  exists idx v,
    ChunkSync.hyp h = ChunkSync.hyp beam ++ [idx] /\
    nth_error (so_scores_attn out) idx = Some v /\
    ChunkSync.score_attn h = (ChunkSync.score_attn beam + v)%Q /\
    ChunkSync.score h =
      (((ChunkSync.score_attn beam + v) * (1 - recog_ctc_weight prm)
        + (inject_Z (Z.of_nat (length (tl (ChunkSync.hyp beam)))) + 1)
          * recog_length_penalty prm)
       / (inject_Z (Z.of_nat (length (tl (ChunkSync.hyp beam)))) + 1))%Q.
Proof.
  unfold ChunkSync.select_candidates. cbv zeta. intros Hsel Hext.
  apply bind_ok in Hsel. destruct Hsel as (pre & Epre & Hsel).
  injection Hsel as <-.
  apply topk_ok_inv in Epre. destruct Epre as [_ (Hlen & _ & Hval & _)].
  unfold ChunkSync.extend in Hext. cbn [topk_ids total_scores_topk] in Hext.
  apply bind_ok in Hext. destruct Hext as (idx & Eidx & Hext).
  apply bind_ok in Hext. destruct Hext as (s & Es & Hext).
  apply bind_ok in Hext. destruct Hext as (skip & _ & Hext).
  destruct skip; [discriminate Hext|].
  apply bind_ok in Hext. destruct Hext as (sa & Esa & Hext).
  apply bind_ok in Hext. destruct Hext as (sc & _ & Hext).
  apply bind_ok in Hext. destruct Hext as (sl & _ & Hext).
  injection Hext as <-.
  cbn [ChunkSync.hyp ChunkSync.score ChunkSync.score_attn].
  unfold index in Eidx, Es, Esa.
  destruct (nth_error (map snd pre) k) as [i|] eqn:Ei; [|discriminate Eidx].
  injection Eidx as ->.
  destruct (nth_error (map _ (map fst pre)) k) as [s'|] eqn:Esk; [|discriminate Es].
  injection Es as ->.
  destruct (nth_error (map _ (so_scores_attn out)) idx) as [sa'|] eqn:Esa';
    [|discriminate Esa].
  injection Esa as ->.
  apply nth_error_map_some in Ei. destruct Ei as (p & Ep & ->).
  apply nth_error_map_some in Esk. destruct Esk as (x & Ex & ->).
  apply nth_error_map_some in Ex. destruct Ex as (p' & Ep' & ->).
  rewrite Ep in Ep'. injection Ep' as <-.
  apply nth_error_map_some in Esa'. destruct Esa' as (v & Ev & ->).
  exists (snd p), v. split; [reflexivity|]. split; [exact Ev|]. split; [reflexivity|].
  rewrite Forall_forall in Hval.
  specialize (Hval p (nth_error_In _ _ Ep)).
  apply nth_error_map_some in Hval. destruct Hval as (y & Ey & Hfst).
  apply nth_error_map_some in Ey. destruct Ey as (v' & Ev' & ->).
  rewrite Ev in Ev'. injection Ev' as <-.
  rewrite Hfst. reflexivity.
Qed.
End ChunkScores.

Lemma chunk_score_formula_witness :
  exists c h idx v,
    ChunkSync.select_candidates short_chunk_collab mocha_decoder_params_neg false false 0
      (ChunkSync.initial_hyp short_chunk_collab mocha_decoder false (Some tt) None)
      (ChunkSync.decode_step short_chunk_collab 0 true [] [] 0) = Ok c /\
    ChunkSync.extend mocha_decoder mocha_decoder_params_neg
      (ChunkSync.initial_hyp short_chunk_collab mocha_decoder false (Some tt) None)
      (ChunkSync.decode_step short_chunk_collab 0 true [] [] 0) c 1 = Ok (Some h) /\
    ChunkSync.hyp h = [1] ++ [idx] /\
    nth_error eos_best_row idx = Some v /\
    ChunkSync.score h = (((0 + v) * (1 - 0) + (0 + 1) * -(1 # 4)) / (0 + 1))%Q.
Proof.
  eexists. eexists.
  destruct (@chunk_score_formula ChunkSync.sum_payload short_chunk_collab mocha_decoder
              mocha_decoder_params_neg 0
              (ChunkSync.initial_hyp short_chunk_collab mocha_decoder false (Some tt) None)
              (ChunkSync.decode_step short_chunk_collab 0 true [] [] 0) _ 1 _
              ltac:(vm_compute; reflexivity) ltac:(vm_compute; reflexivity))
    as (idx & v & Eh & Ev & _ & Es).
  exists idx, v.
  split; [vm_compute; reflexivity|]. split; [vm_compute; reflexivity|].
  split; [exact Eh|]. split; [exact Ev | exact Es].
Defined.

Section ChunkState.
Import BeamSearch.
Context {P : payload} (C : ChunkSync.collaborators P) (dec : ChunkSync.decoder).
Context (prm : params) (has_lm has_ctc : bool).

Lemma chunk_iter_completed (t : nat) (s : ChunkSync.chunk_state P)
      (r : flow (ChunkSync.chunk_state P)) :
  length (ChunkSync.end_hyps s) <= recog_beam_width prm ->
  Forall (fun h => ChunkSync.ended dec h = true) (ChunkSync.end_hyps s) ->
  ChunkSync.chunk_iter C dec prm has_lm has_ctc t s = Ok r ->
  length (ChunkSync.end_hyps match r with Continue s' => s' | Break s' => s' end)
    <= recog_beam_width prm /\
  Forall (fun h => ChunkSync.ended dec h = true)
         (ChunkSync.end_hyps match r with Continue s' => s' | Break s' => s' end).
Proof.
  intros Hlen Hend. unfold ChunkSync.chunk_iter.
  destruct (ChunkSync.all_untriggered t (ChunkSync.hyps_segment s)).
  { intros H. injection H as <-. split; assumption. }
  intros H.
  apply bind_ok in H. destruct H as (y & _ & H).
  apply bind_ok in H. destruct H as (cvs & _ & H).
  apply bind_ok in H. destruct H as (ds & _ & H).
  apply bind_ok in H. destruct H as (cell & _ & H).
  apply bind_ok in H. destruct H as (outs & _ & H).
  match type of H with
  | context [filter (ChunkSync.ended dec) ?l] => set (pruned := l) in *
  end.
  assert (Hall : Forall (fun h => ChunkSync.ended dec h = true)
                        (ChunkSync.end_hyps s ++ filter (ChunkSync.ended dec) pruned)).
  { apply Forall_app. split; [exact Hend|].
    apply Forall_forall. intros h Hh. apply filter_In in Hh. apply Hh. }
  rewrite Nat.add_0_r in H.
  destruct (recog_beam_width prm <=? _) eqn:E; injection H as <-;
    cbn [ChunkSync.end_hyps].
  - split; [rewrite length_firstn; lia|].
    apply Forall_forall. intros h Hh. apply in_firstn in Hh.
    revert h Hh. apply Forall_forall. exact Hall.
  - apply Nat.leb_gt in E. split; [lia | exact Hall].
Qed.
End ChunkState.

Section ChunkSession.
Import BeamSearch.
Context {P : payload} (C : ChunkSync.collaborators P) (dec : ChunkSync.decoder).
Context (prm : params) (bs chunk_len : nat) (has_lm lm_is_rnnlm has_ctc : bool).
Context (segment : option (list (ChunkSync.hypothesis P))) (state_carry_over : bool).
Context (st : ChunkSync.session P).

(** X15. A call of the chunk-synchronous search that returns hands back at most
    [beam_width] completed hypotheses, each ending in the end symbol, in
    non-increasing order of their score. It stores the recurrent and LM
    states of the best of them, and leaves the stored states as they were
    when no hypothesis completed in this chunk; the frame counter restarts
    from zero on a first chunk and grows by the chunk length: on a later
    chunk the counter existed before the call. *)
Theorem chunk_sync_returns_and_stores (ends live : list (ChunkSync.hypothesis P))
        (st' : ChunkSync.session P) :
  ChunkSync.beam_search_chunk_sync C dec prm bs chunk_len has_lm lm_is_rnnlm has_ctc
    segment state_carry_over st = (Ok (ends, live), st') ->
  length ends <= recog_beam_width prm /\
  Forall (fun h => ChunkSync.ended dec h = true) ends /\
  StronglySorted (desc ChunkSync.score) ends /\
  match ends with
  | [] => ChunkSync.dstates_final st' = ChunkSync.dstates_final st /\
          ChunkSync.lmstate_final st' = ChunkSync.lmstate_final st
  | best :: rest =>
      ChunkSync.dstates_final st' = ChunkSync.dstates best /\
      ChunkSync.lmstate_final st' = ChunkSync.lmstate best /\
      Forall (fun h => (ChunkSync.score h <= ChunkSync.score best)%Q) rest
  end /\
  exists n,
    match segment with
    | None => n = 0
    | Some _ => ChunkSync.n_frames st = Some n
    end /\
    ChunkSync.n_frames st' = Some (n + chunk_len).
Proof.
  unfold ChunkSync.beam_search_chunk_sync.
  destruct (negb (bs =? 1)); [discriminate|].
  destruct (negb (String.eqb (ChunkSync.attn_type dec) AttnNames.mocha)); [discriminate|].
  destruct (has_lm && negb (Qlt_bool 0 (recog_lm_weight prm))); [discriminate|].
  destruct (has_ctc && negb (Qlt_bool 0 (recog_ctc_weight prm))); [discriminate|].
  destruct (if has_ctc
            then match segment with
                 | None => Ok (Some 1)
                 | Some _ => match ChunkSync.ctc_chunks _ with
                             | Some n => Ok (Some (S n))
                             | None => Raise AttributeError
                             end
                 end
            else Ok _) as [chunks|e0]; [|discriminate].
  set (hyps0 := match segment with
                | None => _
                | Some hs => hs
                end).
  set (ytime := Z.to_nat _).
  destruct (for_break (ChunkSync.chunk_iter C dec prm has_lm has_ctc) ytime
              {| ChunkSync.hyps_segment := hyps0; ChunkSync.end_hyps := [];
                 ChunkSync.n_hyps_prev := 1 |}) as [s|e] eqn:Eloop; [|discriminate].
  assert (Hs : length (ChunkSync.end_hyps s) <= recog_beam_width prm /\
               Forall (fun h => ChunkSync.ended dec h = true) (ChunkSync.end_hyps s)).
  { unfold for_break in Eloop.
    apply (for_break_from_post (ChunkSync.chunk_iter C dec prm has_lm has_ctc)
             (fun _ t => length (ChunkSync.end_hyps t) <= recog_beam_width prm /\
                         Forall (fun h => ChunkSync.ended dec h = true)
                                (ChunkSync.end_hyps t))
             (fun t => length (ChunkSync.end_hyps t) <= recog_beam_width prm /\
                       Forall (fun h => ChunkSync.ended dec h = true)
                              (ChunkSync.end_hyps t))
             ytime 0
             {| ChunkSync.hyps_segment := hyps0; ChunkSync.end_hyps := [];
                ChunkSync.n_hyps_prev := 1 |} s);
      [| | intros t Ht; exact Ht | exact Eloop].
    - cbn [ChunkSync.end_hyps length]. split; [lia | constructor].
    - intros k t r _ [Hl He] Hr.
      pose proof (chunk_iter_completed C dec prm has_lm has_ctc k t r Hl He Hr) as Hpost.
      destruct r; exact Hpost. }
  destruct Hs as [Hlen Hended].
  pose proof (sorted_desc_sorted ChunkSync.score (ChunkSync.end_hyps s)) as Hsorted.
  pose proof (sorted_desc_length ChunkSync.score (ChunkSync.end_hyps s)) as Hslen.
  assert (Hsin : Forall (fun h => ChunkSync.ended dec h = true)
                        (sorted_desc ChunkSync.score (ChunkSync.end_hyps s))).
  { apply Forall_forall. intros h Hh. apply sorted_desc_In in Hh.
    revert h Hh. apply Forall_forall. exact Hended. }
  destruct (sorted_desc ChunkSync.score (ChunkSync.end_hyps s)) as [|best rest];
    destruct segment as [hs|];
    cbn [ChunkSync.n_frames ChunkSync.dstates_final ChunkSync.lmstate_final
         ChunkSync.ctc_chunks ChunkSync.score_resets];
    try (destruct (ChunkSync.n_frames st) as [n|] eqn:En; [|discriminate]);
    intros H; injection H as <- _ <-;
    cbn [ChunkSync.n_frames ChunkSync.dstates_final ChunkSync.lmstate_final];
    (split; [simpl in *; lia|]); (split; [exact Hsin|]); (split; [exact Hsorted|]).
  - split; [split; reflexivity|]. exists n. split; reflexivity.
  - split; [split; reflexivity|]. exists 0. split; reflexivity.
  - split; [|exists n; split; reflexivity].
    split; [reflexivity|]. split; [reflexivity|].
    apply StronglySorted_inv in Hsorted. apply Hsorted.
  - split; [|exists 0; split; reflexivity].
    split; [reflexivity|]. split; [reflexivity|].
    apply StronglySorted_inv in Hsorted. apply Hsorted.
Qed.

End ChunkSession.

Lemma chunk_sync_returns_and_stores_witness :
  exists ends live st',
    ChunkSync.beam_search_chunk_sync short_chunk_collab mocha_decoder short_chunk_params
      1 10 false false false None false idle_session = (Ok (ends, live), st') /\
    length ends <= 2 /\
    Forall (fun h => ChunkSync.ended mocha_decoder h = true) ends /\
    ChunkSync.dstates_final st' = Some tt /\
    ChunkSync.n_frames st' = Some 10.
Proof.
  eexists. eexists. eexists. split; [vm_compute; reflexivity|].
  destruct (@chunk_sync_returns_and_stores ChunkSync.sum_payload short_chunk_collab
              mocha_decoder short_chunk_params 1 10 false false false None false
              idle_session _ _ _ ltac:(vm_compute; reflexivity))
    as (Hlen & Hend & _ & Hst & n & -> & Hn).
  split; [exact Hlen|]. split; [exact Hend|].
  split; [apply Hst | exact Hn].
Defined.


(** What the streaming search needs from the decoder object. With GRU cells
    the first step raises NameError at line 1265, [cxs] being bound only for
    LSTM cells. A later chunk ([hyps_segment] given) on a decoder that never
    decoded a first chunk raises AttributeError: with CTC scores when it
    registers the chunk (line 1225), otherwise after the search, when it
    advances [self.n_frames] (line 1396). *)
Lemma chunk_sync_decoder_state_raises :
  fst (ChunkSync.beam_search_chunk_sync short_chunk_collab gru_mocha_decoder
         short_chunk_params 1 10 false false false None false idle_session)
  = Raise NameError /\
  fst (ChunkSync.beam_search_chunk_sync short_chunk_collab mocha_decoder
         short_chunk_params 1 10 false false false
         (Some [ChunkSync.initial_hyp short_chunk_collab mocha_decoder false (Some tt) None])
         false idle_session)
  = Raise AttributeError /\
  fst (ChunkSync.beam_search_chunk_sync short_chunk_collab mocha_decoder
         resort_params 1 10 false false true
         (Some [ChunkSync.initial_hyp short_chunk_collab mocha_decoder true (Some tt) None])
         false idle_session)
  = Raise AttributeError.
Proof.
  repeat split; vm_compute; reflexivity.
Qed.

(** ** Teacher-forced training: [forward_att], [forward_mbr] and the MBR statistics *)

Lemma for_range_from_ext {St : Type} (f g : nat -> St -> result St) :
  (forall k s, f k s = g k s) ->
  forall n i s, for_range_from f i n s = for_range_from g i n s.
Proof.
  intros Hfg. induction n as [|n IH]; intros i s; simpl.
  - reflexivity.
  - rewrite Hfg. destruct (g i s) as [s'|e]; simpl; [apply IH | reflexivity].
Qed.

(** A loop whose body can only fail with [e] either fails with [e] or ends in
    a state of the invariant. *)
Lemma for_range_from_or_raise {St : Type} (body : nat -> St -> result St)
      (I : nat -> St -> Prop) (e : pyerror) :
  forall n i s,
    I i s ->
    (forall k t, i <= k < i + n -> I k t ->
                 body k t = Raise e \/ exists t', body k t = Ok t' /\ I (S k) t') ->
    for_range_from body i n s = Raise e \/
    exists s', for_range_from body i n s = Ok s' /\ I (i + n) s'.
Proof.
  induction n as [|n IH]; intros i s Hi Hbody; simpl.
  - right. exists s. rewrite Nat.add_0_r. split; [reflexivity | exact Hi].
  - destruct (Hbody i s) as [Hr | (t' & Ht' & HI')]; [lia | exact Hi | |].
    + rewrite Hr. left. reflexivity.
    + rewrite Ht'. simpl.
      destruct (IH (S i) t' HI') as [Hr | (s' & Hs' & HIs')].
      * intros k t Hk. apply Hbody. lia.
      * left. exact Hr.
      * right. exists s'. split; [exact Hs' |].
        replace (i + S n) with (S i + n) by lia. exact HIs'.
Qed.

(** Two loops whose bodies keep a relation between their states, and fail
    together, end in related states or fail together. *)
Lemma for_range_from_sim {S1 S2 : Type} (f : nat -> S1 -> result S1)
      (g : nat -> S2 -> result S2) (R : S1 -> S2 -> Prop) :
  (forall k a m, R a m ->
                 match f k a, g k m with
                 | Ok a', Ok m' => R a' m'
                 | Raise e, Raise e' => e = e'
                 | _, _ => False
                 end) ->
  forall n i a m, R a m ->
                  match for_range_from f i n a, for_range_from g i n m with
                  | Ok a', Ok m' => R a' m'
                  | Raise e, Raise e' => e = e'
                  | _, _ => False
                  end.
Proof.
  intros Hstep. induction n as [|n IH]; intros i a m HR; simpl.
  - exact HR.
  - specialize (Hstep i a m HR).
    destruct (f i a) as [a'|e], (g i m) as [m'|e']; simpl; try contradiction.
    + apply IH. exact Hstep.
    + exact Hstep.
Qed.

Section TeacherForcing.
Import Training.
Context {Tensor St LmSt : Type}.
Context (ops : tf_ops Tensor St LmSt) (lops : loss_ops Tensor) (dec : decoder).

Lemma is_sample_true (t d d' : nat) :
  is_sample ops dec t d = (true, d') -> 0 < t.
Proof.
  unfold is_sample. destruct (0 <? t) eqn:Et; simpl.
  - intros _. apply Nat.ltb_lt. exact Et.
  - intros H. discriminate H.
Qed.

Lemma last_logit_ok (logits : list Tensor) :
  0 < length logits -> exists x, last_logit logits = Ok x.
Proof.
  intros Hl. unfold last_logit.
  destruct (index_ok logits (length logits - 1)) as (x & Hx & _); [lia|].
  exists x. exact Hx.
Qed.

(** With the carry-over every pass of the loop either raises [TypeError] or
    leaves the pair of lists of [None] in [self.dstate_prev]. *)
Lemma carry_over_iter (bs : nat) (ylens : list nat) (trigger_points : option Tensor)
      (t : nat) (s : loop_state Tensor St LmSt) :
  discourse_aware dec = TrainNames.state_carry_over ->
  length (l_logits s) = t ->
  (l_prev s = None \/ l_prev s = Some (repeat None bs, repeat None bs)) ->
  forward_att_iter ops dec bs ylens trigger_points t s = Raise TypeError \/
  exists s', forward_att_iter ops dec bs ylens trigger_points t s = Ok s' /\
             length (l_logits s') = S t /\
             l_prev s' = Some (repeat None bs, repeat None bs).
Proof.
  intros Hc Hlen Hprev. unfold forward_att_iter.
  destruct (is_sample ops dec t (l_draws s)) as [sample d'] eqn:Es.
  rewrite Hc, String.eqb_refl.
  assert (Hlast : sample = true -> exists x, last_logit (l_logits s) = Ok x).
  { intros ->. apply is_sample_true in Es. apply last_logit_ok. lia. }
  destruct sample.
  - destruct (Hlast eq_refl) as (x & ->). cbn [bind].
    destruct (has_lm dec); cbn [bind].
    + destruct (lm_decode ops (predicted ops x) (l_lmstate s)) as [lmout lmstate].
      cbn [bind fst snd].
      destruct (decode_step ops _ (l_st s) _ (Some lmout)) as [[st aw] v].
      destruct (existsb (Nat.eqb t) ylens); [left; reflexivity|].
      right. eexists. split; [reflexivity|]. cbn [l_logits l_prev].
      split; [rewrite length_app; simpl; lia|].
      destruct Hprev as [-> | ->]; reflexivity.
    + cbn [fst snd].
      destruct (decode_step ops _ (l_st s) _ (l_lmout s)) as [[st aw] v].
      destruct (existsb (Nat.eqb t) ylens); [left; reflexivity|].
      right. eexists. split; [reflexivity|]. cbn [l_logits l_prev].
      split; [rewrite length_app; simpl; lia|].
      destruct Hprev as [-> | ->]; reflexivity.
  - destruct (has_lm dec); cbn [bind].
    + destruct (lm_decode ops (ys_in ops t) (l_lmstate s)) as [lmout lmstate].
      cbn [bind fst snd].
      destruct (decode_step ops _ (l_st s) _ (Some lmout)) as [[st aw] v].
      destruct (existsb (Nat.eqb t) ylens); [left; reflexivity|].
      right. eexists. split; [reflexivity|]. cbn [l_logits l_prev].
      split; [rewrite length_app; simpl; lia|].
      destruct Hprev as [-> | ->]; reflexivity.
    + cbn [fst snd].
      destruct (decode_step ops _ (l_st s) _ (l_lmout s)) as [[st aw] v].
      destruct (existsb (Nat.eqb t) ylens); [left; reflexivity|].
      right. eexists. split; [reflexivity|]. cbn [l_logits l_prev].
      split; [rewrite length_app; simpl; lia|].
      destruct Hprev as [-> | ->]; reflexivity.
Qed.

Lemma cat_optional_none (bs : nat) :
  0 < bs ->
  (_ <- cat_optional (repeat (@None Tensor) bs) ;; Raise TypeError)
  = (Raise TypeError : result unit).
Proof.
  intros Hbs. destruct bs as [|n]; [lia|]. reflexivity.
Qed.

(** X17. With [discourse_aware = 'state_carry_over'] a call of [forward_att] on
    a non-empty batch never returns: whatever [self.dstate_prev] holds and
    whatever the references are, it raises [TypeError] (at the item
    assignment on the state tuple, at the iteration over the integer
    [ylens.tolist().index(t)], or at the concatenation of the list of
    [None]). *)
Theorem forward_att_carry_over_raises (bs len : nat) (ylens : list nat)
        (return_logits : bool) (teacher_logits trigger_points : option Tensor)
        (dstate_prev : dstate_prev_t Tensor) :
  discourse_aware dec = TrainNames.state_carry_over ->
  0 < bs ->
  forward_att ops lops dec bs len ylens return_logits teacher_logits trigger_points
              dstate_prev
  = Raise TypeError.
Proof.
  intros Hc Hbs. unfold forward_att. rewrite Hc, String.eqb_refl.
  destruct dstate_prev as [p|]; [reflexivity|]. cbn [bind].
  unfold for_range.
  destruct (for_range_from_or_raise
              (forward_att_iter ops dec bs ylens trigger_points)
              (fun k s => length (l_logits s) = k /\
                          (k = 0 -> l_prev s = None) /\
                          (0 < k -> l_prev s = Some (repeat None bs, repeat None bs)))
              TypeError len 0
              {| l_st := zero ops; l_lmout := None; l_lmstate := None;
                 l_logits := []; l_aws := []; l_draws := 0; l_prev := None |})
    as [Hr | (s' & Hs' & Hlen & H0 & Hpos)].
  - cbn [l_logits l_prev length]. split; [reflexivity|].
    split; [reflexivity | intros H; lia].
  - intros k t _ (Hlen & H0 & Hpos).
    destruct (carry_over_iter bs ylens trigger_points k t Hc Hlen) as [Hr | (t' & Ht' & Hl' & Hp')].
    + destruct k as [|k]; [left; apply H0; reflexivity | right; apply Hpos; lia].
    + left. exact Hr.
    + right. exists t'. split; [exact Ht'|]. split; [exact Hl'|].
      split; [intros H; discriminate H | intros _; exact Hp'].
  - rewrite Hr. reflexivity.
  - rewrite Hs'. cbn [bind]. destruct len as [|n].
    + rewrite (H0 eq_refl). reflexivity.
    + rewrite Hpos by (simpl; lia).
      rewrite (cat_optional_none bs Hbs). reflexivity.
Qed.

(** Without the carry-over and without trigger points the two loop bodies
    do the same. *)
Lemma iter_same_run (bs : nat) (ylens : list nat) (t : nat)
      (a : loop_state Tensor St LmSt) (m : mbr_state Tensor St LmSt) :
  discourse_aware dec <> TrainNames.state_carry_over ->
  same_run a m ->
  match forward_att_iter ops dec bs ylens None t a, forward_mbr_iter ops dec t m with
  | Ok a', Ok m' => same_run a' m'
  | Raise e, Raise e' => e = e'
  | _, _ => False
  end.
Proof.
  intros Hc (H1 & H2 & H3 & H4 & H5 & H6).
  unfold forward_att_iter, forward_mbr_iter.
  rewrite <- H1, <- H2, <- H3, <- H4, <- H6.
  destruct (is_sample ops dec t (l_draws a)) as [sample d'].
  apply String.eqb_neq in Hc. rewrite Hc.
  destruct (has_lm dec), sample; cbn [bind].
  - destruct (last_logit (l_logits a)) as [x|e]; cbn [bind]; [|reflexivity].
    destruct (lm_decode ops (predicted ops x) (l_lmstate a)) as [lmout lmstate].
    cbn [bind fst snd].
    destruct (decode_step ops None (l_st a) _ (Some lmout)) as [[st aw] v].
    unfold same_run; cbn. rewrite H5. repeat split; reflexivity.
  - destruct (lm_decode ops (ys_in ops t) (l_lmstate a)) as [lmout lmstate].
    cbn [bind fst snd].
    destruct (decode_step ops None (l_st a) _ (Some lmout)) as [[st aw] v].
    unfold same_run; cbn. rewrite H5. repeat split; reflexivity.
  - destruct (last_logit (l_logits a)) as [x|e]; cbn [bind]; [|reflexivity].
    cbn [fst snd].
    destruct (decode_step ops None (l_st a) _ (l_lmout a)) as [[st aw] v].
    unfold same_run; cbn. rewrite H5. repeat split; reflexivity.
  - cbn [fst snd].
    destruct (decode_step ops None (l_st a) _ (l_lmout a)) as [[st aw] v].
    unfold same_run; cbn. rewrite H5. repeat split; reflexivity.
Qed.

(** X18. [forward_mbr] is the logits path of [forward_att]: without the state
    carry-over, [forward_att] called with [return_logits=True] and without
    trigger points returns the logits [forward_mbr] returns, raises where it
    raises, and draws as many random numbers. *)
Theorem forward_mbr_is_forward_att_logits (bs len : nat) (ylens : list nat)
        (teacher_logits : option Tensor) (dstate_prev : dstate_prev_t Tensor) :
  discourse_aware dec <> TrainNames.state_carry_over ->
  forward_att ops lops dec bs len ylens true teacher_logits None dstate_prev
  = (r <- forward_mbr ops dec len ;; Ok (Logits (fst r), snd r)).
Proof.
  intros Hc. unfold forward_att, forward_mbr, for_range.
  pose proof (for_range_from_sim
                (forward_att_iter ops dec bs ylens None) (forward_mbr_iter ops dec)
                same_run
                (fun k a m => iter_same_run bs ylens k a m Hc) len 0
                {| l_st := zero ops; l_lmout := None; l_lmstate := None;
                   l_logits := []; l_aws := []; l_draws := 0; l_prev := dstate_prev |}
                {| m_st := zero ops; m_lmout := None; m_lmstate := None;
                   m_logits := []; m_aws := []; m_draws := 0 |}) as Hsim.
  pose proof Hc as Hc'. apply String.eqb_neq in Hc'. rewrite Hc'. cbn [bind].
  destruct (for_range_from (forward_att_iter ops dec bs ylens None) 0 len _) as [a|e],
           (for_range_from (forward_mbr_iter ops dec) 0 len _) as [m|e'];
    cbn [bind].
  - destruct Hsim as (_ & _ & _ & H4 & _ & H6).
    { unfold same_run. cbn. repeat split; reflexivity. }
    rewrite H4, H6.
    destruct (torch_cat (m_logits m)); reflexivity.
  - exfalso. apply Hsim. unfold same_run. cbn. repeat split; reflexivity.
  - exfalso. apply Hsim. unfold same_run. cbn. repeat split; reflexivity.
  - rewrite Hsim; [reflexivity|]. unfold same_run. cbn. repeat split; reflexivity.
Qed.

(** Without scheduled sampling the body neither draws a random number nor
    reads a predicted token. *)
Lemma iter_without_sampling (rnd : nat -> Q) (pred : Tensor -> Tensor)
      (bs : nat) (ylens : list nat) (trigger_points : option Tensor)
      (t : nat) (s : loop_state Tensor St LmSt) :
  Qlt_bool 0 (ss_prob dec) = false ->
  forward_att_iter (with_sampling ops rnd pred) dec bs ylens trigger_points t s
  = forward_att_iter ops dec bs ylens trigger_points t s.
Proof.
  intros Hp. unfold forward_att_iter, is_sample.
  rewrite Hp, andb_false_r. reflexivity.
Qed.

Lemma iter_draws_without_sampling (bs : nat) (ylens : list nat)
      (trigger_points : option Tensor) (t : nat) (s s' : loop_state Tensor St LmSt) :
  Qlt_bool 0 (ss_prob dec) = false ->
  forward_att_iter ops dec bs ylens trigger_points t s = Ok s' ->
  l_draws s' = l_draws s.
Proof.
  intros Hp. unfold forward_att_iter, is_sample.
  rewrite Hp, andb_false_r.
  destruct (has_lm dec); cbn [bind].
  - destruct (lm_decode ops (ys_in ops t) (l_lmstate s)) as [lmout lmstate].
    cbn [bind fst snd].
    destruct (decode_step ops _ (l_st s) _ (Some lmout)) as [[st aw] v].
    destruct (String.eqb _ _); [destruct (existsb _ _); [discriminate|]|];
      intros H; injection H as <-; reflexivity.
  - cbn [fst snd].
    destruct (decode_step ops _ (l_st s) _ (l_lmout s)) as [[st aw] v].
    destruct (String.eqb _ _); [destruct (existsb _ _); [discriminate|]|];
      intros H; injection H as <-; reflexivity.
Qed.

(** X19. With [_ss_prob <= 0] [forward_att] is plain teacher forcing: what it
    returns (or raises) depends neither on the random generator nor on the
    tokens the model predicts, and a call that returns has drawn no random
    number. *)
Theorem forward_att_teacher_forcing (rnd : nat -> Q) (pred : Tensor -> Tensor)
        (bs len : nat) (ylens : list nat) (return_logits : bool)
        (teacher_logits trigger_points : option Tensor)
        (dstate_prev : dstate_prev_t Tensor) :
  (ss_prob dec <= 0)%Q ->
  forward_att (with_sampling ops rnd pred) lops dec bs len ylens return_logits
              teacher_logits trigger_points dstate_prev
  = forward_att ops lops dec bs len ylens return_logits teacher_logits trigger_points
                dstate_prev /\
  forall r draws,
    forward_att ops lops dec bs len ylens return_logits teacher_logits trigger_points
                dstate_prev = Ok (r, draws) ->
    draws = 0.
Proof.
  intros Hle.
  assert (Hp : Qlt_bool 0 (ss_prob dec) = false).
  { destruct (Qlt_bool 0 (ss_prob dec)) eqn:E; [|reflexivity].
    apply Qlt_bool_iff in E. exfalso. apply (Qlt_not_le _ _ E). exact Hle. }
  split.
  - unfold forward_att, for_range. cbn [zero output with_sampling].
    destruct (if String.eqb _ _ then _ else _) as [prev0|e]; [|reflexivity].
    cbn [bind].
    rewrite (for_range_from_ext _ _
               (fun k s => iter_without_sampling rnd pred bs ylens trigger_points k s Hp)).
    reflexivity.
  - intros r draws H. unfold forward_att, for_range in H.
    apply bind_ok in H. destruct H as (prev0 & _ & H).
    apply bind_ok in H. destruct H as (s & Hs & H).
    apply (for_range_from_post _ (fun _ t => l_draws t = 0)) in Hs.
    + apply bind_ok in H. destruct H as (u & _ & H).
      apply bind_ok in H. destruct H as (u' & _ & H).
      destruct return_logits.
      * injection H as _ <-. exact Hs.
      * destruct (cross_entropy_lsm lops _) as [loss ppl].
        apply bind_ok in H. destruct H as (q & _ & H).
        injection H as _ <-. exact Hs.
    + reflexivity.
    + intros k t t' _ Ht Hb.
      rewrite (iter_draws_without_sampling bs ylens trigger_points k t t' Hp Hb).
      exact Ht.
Qed.
End TeacherForcing.

(** *** The MBR statistics *)

Lemma tensor_sum_map_div (d : Q) (l : list Q) :
  (Training.tensor_sum (map (fun s => s / d) l) == Training.tensor_sum l / d)%Q.
Proof.
  induction l as [|x l IH]; simpl.
  - unfold Qdiv. ring.
  - rewrite IH. unfold Qdiv. ring.
Qed.

Lemma tensor_sum_centred (c : Q) (a b : list Q) :
  length a = length b ->
  (Training.tensor_sum (map (fun xy => fst xy * snd xy)
                            (combine a (map (fun r => r - c) b)))
   == Training.tensor_sum (map (fun xy => fst xy * snd xy) (combine a b))
      - c * Training.tensor_sum a)%Q.
Proof.
  revert b. induction a as [|x a IH]; intros [|y b] Hl; simpl in *; try discriminate Hl.
  - ring.
  - rewrite (IH b) by congruence. ring.
Qed.

Lemma tensor_mul_same_length (a b : list Q) :
  length a = length b ->
  Training.tensor_mul a b = Ok (map (fun xy => (fst xy * snd xy)%Q) (combine a b)).
Proof.
  intros Hl. unfold Training.tensor_mul.
  apply Nat.eqb_eq in Hl. rewrite Hl. reflexivity.
Qed.

(** X20. In exact arithmetic the gradient statistic [grad_b] that [forward]
    hands to the MBR loss is zero for every n-best list: the normalised
    scores sum to one, so the risks centred on the expected risk cancel.
    (The sum of the scores is assumed not to be zero.) *)
Theorem mbr_gradient_vanishes (scores_b risks_b : list Q) :
  length scores_b = length risks_b ->
  ~ (Training.tensor_sum scores_b == 0)%Q ->
  exists scores_b_norm exp_risk_b grad_b,
    Training.mbr_statistics scores_b risks_b = Ok (scores_b_norm, exp_risk_b, grad_b) /\
    (Training.tensor_sum scores_b_norm == 1)%Q /\
    (grad_b == 0)%Q.
Proof.
  intros Hl Hs. unfold Training.mbr_statistics.
  set (norm := map (fun s => (s / Training.tensor_sum scores_b)%Q) scores_b).
  assert (Hn : length norm = length risks_b).
  { unfold norm. rewrite length_map. exact Hl. }
  rewrite (tensor_mul_same_length norm risks_b Hn). cbn [bind].
  rewrite (tensor_mul_same_length norm _) by (rewrite length_map; exact Hn).
  cbn [bind].
  assert (H1 : (Training.tensor_sum norm == 1)%Q).
  { unfold norm. rewrite tensor_sum_map_div. field. exact Hs. }
  eexists. eexists. eexists. split; [reflexivity|]. split; [exact H1|].
  rewrite (tensor_sum_centred _ norm risks_b Hn). rewrite H1. ring.
Qed.

Lemma forward_att_carry_over_raises_witness :
  Training.forward_att count_tf_ops count_loss_ops
    (train_decoder TrainNames.state_carry_over 0) 2 3 [2; 3] false None None None
  = Raise TypeError.
Proof.
  apply (forward_att_carry_over_raises count_tf_ops count_loss_ops
           (train_decoder TrainNames.state_carry_over 0) 2 3 [2; 3] false None None None).
  - reflexivity.
  - lia.
Defined.

Lemma forward_mbr_is_forward_att_logits_witness :
  Training.forward_att count_tf_ops count_loss_ops
    (train_decoder String.EmptyString (1 # 2)) 2 3 [2; 3] true None None None
  = Ok (Training.Logits 75, 2) /\
  Training.forward_mbr count_tf_ops (train_decoder String.EmptyString (1 # 2)) 3
  = Ok (75, 2).
Proof.
  split.
  - rewrite (forward_mbr_is_forward_att_logits count_tf_ops count_loss_ops
               (train_decoder String.EmptyString (1 # 2)) 2 3 [2; 3] None None).
    + vm_compute. reflexivity.
    + discriminate.
  - vm_compute. reflexivity.
Defined.

Lemma forward_att_teacher_forcing_witness :
  Training.forward_att
    (Training.with_sampling count_tf_ops (fun _ => (-1)%Q) (fun x => 7 * x))
    count_loss_ops (train_decoder String.EmptyString 0) 2 3 [2; 3] false None None None
  = Training.forward_att count_tf_ops count_loss_ops
      (train_decoder String.EmptyString 0) 2 3 [2; 3] false None None None /\
  Training.forward_att count_tf_ops count_loss_ops
    (train_decoder String.EmptyString 0) 2 3 [2; 3] false None None None
  = Ok (Training.Losses (36 # 1) 1 1 0 0, 0).
Proof.
  destruct (forward_att_teacher_forcing count_tf_ops count_loss_ops
              (train_decoder String.EmptyString 0) (fun _ => (-1)%Q) (fun x => 7 * x)
              2 3 [2; 3] false None None None) as [H _].
  - vm_compute. discriminate.
  - split; [exact H | vm_compute; reflexivity].
Defined.

Lemma mbr_gradient_vanishes_witness :
  exists scores_b_norm exp_risk_b grad_b,
    Training.mbr_statistics [-(1 # 1); -(3 # 1)]%Q [0; 2]%Q
    = Ok (scores_b_norm, exp_risk_b, grad_b) /\
    (Training.tensor_sum scores_b_norm == 1)%Q /\
    (grad_b == 0)%Q.
Proof.
  apply (mbr_gradient_vanishes [-(1 # 1); -(3 # 1)]%Q [0; 2]%Q).
  - reflexivity.
  - vm_compute. discriminate.
Defined.

(** ** The constructor and the decoding step *)

Section ConstructorShapes.
Import Init.
Context (a : arguments).

Lemma build_rnn_from (n i : nat) (cells : list rnn_cell) (d0 : nat) :
  fold_left
    (fun (acc : list rnn_cell * nat) (_ : nat) =>
       let (cells, dec_odim) := acc in
       (cells ++ [{| input_size := dec_odim; hidden_size := n_units a |}],
        if 0 <? n_projs a then n_projs a else n_units a))
    (seq i n) (cells, d0)
  = (cells ++ match n with
              | O => []
              | S k => {| input_size := d0; hidden_size := n_units a |}
                         :: repeat {| input_size := out_dim a; hidden_size := n_units a |} k
              end,
     match n with
     | O => d0
     | S _ => out_dim a
     end).
Proof.
  revert i cells d0. induction n as [|n IH]; intros i cells d0; simpl.
  - rewrite app_nil_r. reflexivity.
  - rewrite IH. fold (out_dim a). rewrite <- app_assoc. simpl.
    destruct n as [|k]; reflexivity.
Qed.

(** The cell of layer [l] takes the dimension that enters layer [l], and
    [dec_odim] ends as the dimension that enters the layer after the last. *)
Lemma build_rnn_spec :
  (forall l, l < n_layers a ->
             nth_error (fst (build_rnn a)) l
             = Some {| input_size := layer_dim a l; hidden_size := n_units a |}) /\
  snd (build_rnn a) = layer_dim a (n_layers a).
Proof.
  unfold build_rnn. rewrite build_rnn_from. cbn [fst snd app]. split.
  - intros l Hl. destruct (n_layers a) as [|k]; [lia|].
    destruct l as [|l]; [reflexivity|]. cbn [nth_error layer_dim].
    rewrite nth_error_repeat by lia. reflexivity.
  - destruct (n_layers a); reflexivity.
Qed.

Lemma qdim_out_dim : (if n_projs a =? 0 then n_units a else n_projs a) = out_dim a.
Proof.
  unfold out_dim. destruct (n_projs a); reflexivity.
Qed.

(** What [build_modules] returns. *)
Lemma build_modules_fields (m : modules) :
  build_modules a = Ok m ->
  qdim m = out_dim a /\
  rnn m = fst (build_rnn a) /\
  proj m = (if 0 <? n_projs a
            then Some (repeat {| in_features := n_units a; out_features := n_projs a |}
                              (n_layers a))
            else None) /\
  output m = {| in_features := bottleneck_dim a; out_features := vocab a |} /\
  match lm_fusion a with
  | Some lm =>
      linear_dec_feat m = Some {| in_features := snd (build_rnn a) + enc_n_units a;
                                  out_features := n_units a |} /\
      linear_lm_gate m = Some {| in_features := n_units a * 2;
                                 out_features := n_units a |} /\
      output_bn m = {| in_features := n_units a * 2; out_features := bottleneck_dim a |} /\
      ((String.eqb (lm_fusion_type a) FusionNames.cold
        || String.eqb (lm_fusion_type a) FusionNames.deep = true /\
        linear_lm_feat m = Some {| in_features := lm_n_units lm;
                                   out_features := n_units a |}) \/
       (String.eqb (lm_fusion_type a) FusionNames.cold
        || String.eqb (lm_fusion_type a) FusionNames.deep = false /\
        String.eqb (lm_fusion_type a) FusionNames.cold_prob = true /\
        linear_lm_feat m = Some {| in_features := lm_vocab lm;
                                   out_features := n_units a |}))
  | None =>
      output_bn m = {| in_features := snd (build_rnn a) + enc_n_units a;
                       out_features := bottleneck_dim a |}
  end.
Proof.
  unfold build_modules. intros H.
  apply bind_ok in H. destruct H as (u & _ & H).
  destruct (build_rnn a) as [cells dec_odim]. cbn [fst snd].
  apply bind_ok in H. destruct H as (fusion & Hf & H).
  destruct fusion as [[[dec_feat lm_feat] lm_gate] bn].
  apply bind_ok in H. destruct H as (u' & _ & H).
  injection H as <-. cbn [qdim rnn proj output linear_dec_feat linear_lm_gate
                               linear_lm_feat output_bn].
  split; [apply qdim_out_dim|]. split; [reflexivity|]. split; [reflexivity|].
  split; [reflexivity|].
  destruct (lm_fusion a) as [lm|].
  - apply bind_ok in Hf. destruct Hf as (lf & Hlf & Hf).
    injection Hf as <- <- <- <-.
    split; [reflexivity|]. split; [reflexivity|]. split; [reflexivity|].
    destruct (String.eqb (lm_fusion_type a) FusionNames.cold
              || String.eqb (lm_fusion_type a) FusionNames.deep).
    + left. injection Hlf as <-. split; reflexivity.
    + right. destruct (String.eqb (lm_fusion_type a) FusionNames.cold_prob);
        [|discriminate Hlf].
      injection Hlf as <-. repeat split; reflexivity.
  - injection Hf as <- <- <- <-. reflexivity.
Qed.

(** What [__init__] returns with its attention branch. *)
Lemma init_fields (named_parameters : list (String.string * nat))
      (d : instance) (m : modules) :
  __init__ a named_parameters = Ok d ->
  i_modules d = Some m ->
  build_modules a = Ok m /\
  has_lm d = match lm_fusion a with Some _ => true | None => false end.
Proof.
  unfold __init__. intros H Hm.
  apply bind_ok in H. destruct H as (kind & _ & H).
  apply bind_ok in H. destruct H as (ms & Hms & H).
  apply bind_ok in H. destruct H as (inits & _ & H).
  injection H as <-. cbn [i_modules has_lm] in *. subst ms.
  split; [|reflexivity].
  destruct (Qlt_bool 0 (global_weight a - ctc_weight a)); [|discriminate Hms].
  destruct (build_modules a) as [m'|e]; [|discriminate Hms].
  injection Hms as ->. reflexivity.
Qed.
End ConstructorShapes.

Section DecodeStepShapes.
Import Init.
Context (a : arguments) (named_parameters : list (String.string * nat)).
Context (d : instance) (m : modules).
Hypothesis built : __init__ a named_parameters = Ok d.
Hypothesis with_attention : i_modules d = Some m.

Lemma proj_layer (l : nat) :
  l < n_layers a ->
  Recurrency.layer_output (shape_cell_ops m) (decoder_of a d) l (Some (n_units a))
  = Some (out_dim a).
Proof.
  intros Hl.
  destruct (init_fields a named_parameters d m built with_attention) as [Hb _].
  destruct (build_modules_fields a m Hb) as (_ & _ & Hproj & _).
  unfold Recurrency.layer_output, out_dim.
  cbn [decoder_of Recurrency.n_projs shape_cell_ops Recurrency.dropout
       Recurrency.proj Recurrency.tanh].
  rewrite Hproj. destruct (0 <? n_projs a); [|reflexivity].
  rewrite nth_error_repeat by exact Hl.
  unfold apply_linear. cbn [in_features out_features].
  rewrite Nat.eqb_refl. reflexivity.
Qed.

Lemma cell_layer (l : nat) (hs : list shape) :
  l < n_layers a ->
  Forall (eq (Some (n_units a))) hs ->
  apply_cell (nth_error (rnn m) l) (Some (layer_dim a l)) hs = Some (n_units a).
Proof.
  intros Hl Hhs.
  destruct (init_fields a named_parameters d m built with_attention) as [Hb _].
  destruct (build_modules_fields a m Hb) as (_ & Hrnn & _).
  destruct (build_rnn_spec a) as [Hcells _].
  rewrite Hrnn, (Hcells l Hl). unfold apply_cell. cbn [input_size hidden_size].
  rewrite Nat.eqb_refl. cbn [andb].
  assert (E : forallb (fun h : option nat =>
                         match h with
                         | Some k => k =? n_units a
                         | None => false
                         end) hs = true).
  { apply forallb_forall. intros h Hin. rewrite Forall_forall in Hhs.
    rewrite <- (Hhs h Hin). apply Nat.eqb_refl. }
  rewrite E. reflexivity.
Qed.

(** One layer of [recurrency] on a state of [n_units] slices. *)
Lemma layer_body_shapes (dst : Recurrency.dstate_t shape) (l : nat)
      (s : Recurrency.loop_state shape) :
  state_of_units a d dst ->
  l < n_layers a ->
  Recurrency.ls_dout s = Some (layer_dim a l) ->
  exists s',
    Recurrency.layer_body (shape_cell_ops m) (decoder_of a d) dst l s = Ok s' /\
    Recurrency.ls_dout s' = Some (out_dim a) /\
    Recurrency.ls_hxs s' = Recurrency.ls_hxs s ++ [Some (n_units a)] /\
    Recurrency.ls_cxs s' =
      match i_rnn_type d with
      | Recurrency.lstm => Recurrency.ls_cxs s ++ [Some (n_units a)]
      | Recurrency.gru => Recurrency.ls_cxs s
      end /\
    Recurrency.ls_score s' =
      if l =? 0 then Some (Some (out_dim a)) else Recurrency.ls_score s.
Proof.
  intros [Hh Hc] Hl Hdout.
  unfold Recurrency.layer_body, Recurrency.run_cell.
  cbn [decoder_of Recurrency.rnn_type]. rewrite Hh.
  unfold index. rewrite nth_error_repeat by exact Hl. cbn [bind].
  destruct (i_rnn_type d).
  - rewrite Hc. cbn [bind]. rewrite nth_error_repeat by exact Hl. cbn [bind].
    cbn [shape_cell_ops Recurrency.lstm_cell fst snd]. rewrite Hdout.
    rewrite (cell_layer l _ Hl) by (repeat constructor). cbn [bind].
    eexists. split; [reflexivity|].
    cbn [Recurrency.ls_dout Recurrency.ls_hxs Recurrency.ls_cxs Recurrency.ls_score].
    fold (decoder_of a d). rewrite (proj_layer l Hl).
    repeat split; reflexivity.
  - cbn [bind shape_cell_ops Recurrency.gru_cell]. rewrite Hdout.
    rewrite (cell_layer l _ Hl) by (repeat constructor).
    eexists. split; [reflexivity|].
    cbn [Recurrency.ls_dout Recurrency.ls_hxs Recurrency.ls_cxs Recurrency.ls_score].
    fold (decoder_of a d). rewrite (proj_layer l Hl).
    repeat split; reflexivity.
Qed.

Lemma repeat_snoc {A : Type} (x : A) (n : nat) : repeat x n ++ [x] = repeat x (S n).
Proof.
  induction n as [|n IH]; simpl; [reflexivity | rewrite IH; reflexivity].
Qed.

(** [recurrency] on a state of [n_units] slices: both views have the
    dimension that leaves a layer, and the new state is of [n_units]
    slices. *)
Lemma recurrency_shapes (dst : Recurrency.dstate_t shape) :
  0 < n_layers a ->
  state_of_units a d dst ->
  exists r,
    Recurrency.recurrency (shape_cell_ops m) (decoder_of a d)
                          (Some (emb_dim a + enc_n_units a)) dst = Ok r /\
    Recurrency.dout_score r = Some (Some (out_dim a)) /\
    Recurrency.dout_gen r = Some (out_dim a) /\
    state_of_units a d (DecodeStep.next_dstate r).
Proof.
  intros Hn Hst. unfold Recurrency.recurrency, for_range.
  cbn [decoder_of Recurrency.n_layers Recurrency.rnn_type].
  destruct (for_range_from_inv
              (Recurrency.layer_body (shape_cell_ops m) (decoder_of a d) dst)
              (fun l s =>
                 Recurrency.ls_dout s = Some (layer_dim a l) /\
                 Recurrency.ls_hxs s = repeat (Some (n_units a)) l /\
                 Recurrency.ls_cxs s =
                   match i_rnn_type d with
                   | Recurrency.lstm => repeat (Some (n_units a)) l
                   | Recurrency.gru => []
                   end /\
                 Recurrency.ls_score s =
                   match l with
                   | O => None
                   | S _ => Some (Some (out_dim a))
                   end)
              (n_layers a) 0
              (@Recurrency.Build_loop_state shape
                 (Some (emb_dim a + enc_n_units a)) [] [] None))
    as (s & Hs & Hd & Hh & Hc & Hsc).
  - cbn [Recurrency.ls_dout Recurrency.ls_hxs Recurrency.ls_cxs Recurrency.ls_score
         layer_dim repeat].
    rewrite (Nat.add_comm (emb_dim a)).
    repeat split; try reflexivity. destruct (i_rnn_type d); reflexivity.
  - intros l t Hl (Hd & Hh & Hc & Hsc).
    destruct (layer_body_shapes dst l t Hst) as (t' & Ht' & Hd' & Hh' & Hc' & Hsc');
      [lia | exact Hd |].
    exists t'. split; [exact Ht'|]. cbn [layer_dim].
    split; [exact Hd'|].
    split; [rewrite Hh', Hh; apply repeat_snoc|].
    split.
    + rewrite Hc', Hc. destruct (i_rnn_type d); [apply repeat_snoc | reflexivity].
    + rewrite Hsc'. destruct l; [reflexivity | exact Hsc].
  - cbn [plus] in *.
    destruct (n_layers a) as [|k] eqn:En; [lia|].
    destruct (i_rnn_type d) eqn:Ek;
      (eexists; rewrite Hs; cbn [bind]; rewrite Hh, Hc;
       cbn [repeat torch_stack bind];
       split; [reflexivity|];
       cbn [Recurrency.dout_score Recurrency.dout_gen Recurrency.dstate];
       split; [exact Hsc|]; split; [exact Hd|];
       unfold state_of_units, DecodeStep.next_dstate;
       cbn [Recurrency.dstate fst snd]; rewrite En, Ek;
       split; reflexivity).
Qed.
Lemma last_layer_dim : 0 < n_layers a -> snd (build_rnn a) = out_dim a.
Proof.
  intros Hn. destruct (build_rnn_spec a) as [_ ->].
  destruct (n_layers a); [lia | reflexivity].
Qed.

(** [generate] on a context vector of the encoder's dimension and a
    generation view of the dimension that leaves a layer. *)
Lemma generate_shapes (lmout : option shape) :
  0 < n_layers a ->
  (forall lm, lm_fusion a = Some lm -> lmout = Some (Some (lm_n_units lm))) ->
  DecodeStep.generate (shape_gen_ops a m) (has_lm d) (lm_fusion_type a)
                      (Some (enc_n_units a)) (Some (out_dim a)) lmout
  = Ok (Some (bottleneck_dim a)).
Proof.
  intros Hn Hlm.
  destruct (init_fields a named_parameters d m built with_attention) as [Hb Hhas].
  destruct (build_modules_fields a m Hb) as (_ & _ & _ & _ & Hf).
  assert (E2 : (n_units a + n_units a =? n_units a * 2) = true).
  { apply Nat.eqb_eq. lia. }
  unfold DecodeStep.generate. rewrite Hhas.
  cbn [shape_gen_ops DecodeStep.cat DecodeStep.mul DecodeStep.sigmoid
       DecodeStep.gen_tanh DecodeStep.linear_dec_feat DecodeStep.linear_lm_feat
       DecodeStep.linear_lm_gate DecodeStep.output_bn DecodeStep.lm_output shape_cat].
  destruct (lm_fusion a) as [lm|] eqn:El.
  - destruct Hf as (Hdf & Hg & Hbn & Hfeat).
    rewrite (Hlm lm eq_refl), Hdf, Hg, Hbn, (last_layer_dim Hn).
    cbn [DecodeStep.tensor_arg bind apply_linear in_features out_features].
    rewrite Nat.eqb_refl.
    destruct Hfeat as [(-> & ->) | (-> & -> & ->)];
      cbn [DecodeStep.tensor_arg bind apply_linear in_features out_features
           shape_cat shape_mul];
      rewrite ?Nat.eqb_refl;
      cbn [DecodeStep.tensor_arg bind apply_linear in_features out_features
           shape_cat shape_mul];
      rewrite ?E2;
      cbn [DecodeStep.tensor_arg bind apply_linear in_features out_features
           shape_cat shape_mul];
      rewrite ?Nat.eqb_refl;
      cbn [DecodeStep.tensor_arg bind apply_linear in_features out_features
           shape_cat shape_mul];
      rewrite ?E2; reflexivity.
  - rewrite Hf, (last_layer_dim Hn).
    cbn [apply_linear in_features out_features]. rewrite Nat.eqb_refl. reflexivity.
Qed.

(** X21. The modules that the constructor creates fit the tensors that
    [decode_step] feeds them, for every choice of the dimensions, of the
    projection, of the cell type and of the LM fusion: from a recurrent
    state of [n_units] slices (as [zero_state] makes it), a context vector
    of the encoder's dimension and an embedded token, no module is given an
    input of another size than it was created for. The step returns a state
    of [n_units] slices again, an output of [bottleneck_dim], which
    [self.output] maps to the vocabulary. *)
Theorem decode_step_fits_constructor :
  0 < n_layers a ->
  state_of_units a d (DecodeStep.zero_state (decoder_of a d) (Some (n_units a))) /\
  forall (dst : Recurrency.dstate_t shape) (lmout : option shape),
    (forall lm, lm_fusion a = Some lm -> lmout = Some (Some (lm_n_units lm))) ->
    state_of_units a d dst ->
    exists r,
      DecodeStep.decode_step (shape_cell_ops m) (shape_gen_ops a m) (shape_attention a m)
        (decoder_of a d) (has_lm d) (lm_fusion_type a) tt dst
        (Some (enc_n_units a)) (Some (emb_dim a)) None lmout
      = Ok (r, Some (enc_n_units a), tt, Some (bottleneck_dim a)) /\
      state_of_units a d (DecodeStep.next_dstate r) /\
      apply_linear (Some (output m)) (Some (bottleneck_dim a)) = Some (vocab a).
Proof.
  intros Hn. split.
  - unfold state_of_units, DecodeStep.zero_state.
    cbn [decoder_of Recurrency.n_layers Recurrency.rnn_type fst snd].
    split; [reflexivity|]. destruct (i_rnn_type d); reflexivity.
  - intros dst lmout Hlm Hst.
    destruct (init_fields a named_parameters d m built with_attention) as [Hb _].
    destruct (build_modules_fields a m Hb) as (Hq & _ & _ & Hout & _).
    destruct (recurrency_shapes dst Hn Hst) as (r & Hr & Hscore & Hgen & Hnext).
    exists r. unfold DecodeStep.decode_step.
    cbn [shape_gen_ops DecodeStep.cat shape_cat]. rewrite Hr. cbn [bind].
    rewrite Hscore. cbn [DecodeStep.tensor_arg bind shape_attention DecodeStep.score].
    rewrite Hq, Nat.eqb_refl, Hgen.
    change (DecodeStep.generate _ (has_lm d) (lm_fusion_type a)
              (Some (enc_n_units a)) (Some (out_dim a)) lmout)
      with (DecodeStep.generate (shape_gen_ops a m) (has_lm d) (lm_fusion_type a)
              (Some (enc_n_units a)) (Some (out_dim a)) lmout).
    rewrite (generate_shapes lmout Hn Hlm). cbn [bind].
    split; [reflexivity|]. split; [exact Hnext|].
    rewrite Hout. unfold apply_linear. cbn [in_features out_features].
    rewrite Nat.eqb_refl. reflexivity.
Qed.
End DecodeStepShapes.

Lemma decode_step_fits_constructor_witness :
  exists d m r,
    Init.__init__ las_arguments las_parameters = Ok d /\
    Init.i_modules d = Some m /\
    DecodeStep.decode_step (Init.shape_cell_ops m) (Init.shape_gen_ops las_arguments m)
      (Init.shape_attention las_arguments m) (Init.decoder_of las_arguments d)
      (Init.has_lm d) FusionNames.cold_prob tt
      (DecodeStep.zero_state (Init.decoder_of las_arguments d) (Some 8))
      (Some 4) (Some 6) None (Some (Some 7))
    = Ok (r, Some 4, tt, Some 5).
Proof.
  assert (Hb : exists d m, Init.__init__ las_arguments las_parameters = Ok d /\
                           Init.i_modules d = Some m).
  { vm_compute. eexists. eexists. split; reflexivity. }
  destruct Hb as (d & m & Hd & Hm).
  destruct (decode_step_fits_constructor las_arguments las_parameters d m Hd Hm)
    as [Hz Hstep].
  - simpl. lia.
  - destruct (Hstep (DecodeStep.zero_state (Init.decoder_of las_arguments d) (Some 8))
                     (Some (Some 7))) as (r & Hr & _).
    + intros lm H. injection H as <-. reflexivity.
    + exact Hz.
    + exists d, m, r. split; [exact Hd|]. split; [exact Hm|]. exact Hr.
Defined.
